(** * ChessGrid: the game-session handlers of server.js

    A shallow embedding of the session store, the token check, the move
    handler, the join/solo handlers, the frame handler and the snapshot
    persistence of the ChessGrid server, with the properties of its
    specification stated and proved over it. The SVG board, the frame HTML,
    the rate limiter and the HTTPS redirect are not modelled.

    Conventions of the embedding.
    - The global [games] Map is a [gmap string Game]; the JSON file
      [data/games.json] is an optional [gmap string Saved] ([None]: the file
      is absent, empty or unparseable).  [JSON.stringify] followed by
      [JSON.parse] is taken to be lossless on the payload. The payload is a
      plain object filled by [payload[gameId] = ...]: for the key
      ["__proto__"] that assignment sets the prototype and stores no
      property, so a session under that id is not written.
    - Every handler is a function from the world before the request to the
      response and the world after it.
    - chess.js is an external library: it is the type class [RulesOracle]
      over the type of its [Chess] objects.
      A call that fails (returns [null] or throws) leaves the [Chess] object
      as it was; this is why [chess_move] returns the new object only in the
      [Moved] case.
    - [Date.now()], [uuidv4()] and [Math.random()] are read from an [Env]
      given with each request (one clock reading per request).
    - JavaScript truthiness is written out: the empty string, [null],
      [undefined] and the number 0 are falsy.
    - A string is a Rocq [string], read as the UTF-8 bytes of the
      JavaScript string. The handlers compare strings and test them for
      emptiness, which this reading keeps. The builtins that work on UTF-16
      code units or on the Unicode tables of the runtime ([trim], [slice]
      and [toLowerCase]) are the type class [StringOracle]. The move pattern
      of the frame has no [u] flag, so that it matches ASCII letters and
      digits only, and is written out.
    - The fields of a request body and of a stored record have the types
      the server's own clients and writes give them: strings, numbers,
      [null]/absent. A JSON value of another type in their place is outside
      the model, except for the [color] of a join, which the handler reads
      through [String(color)] (see [BodyField]). *)

From Stdlib Require Import ZArith String Ascii List Lia.
From stdpp Require Import base option list gmap strings.
Import ListNotations.
Local Open Scope Z_scope.

(** ** JavaScript helpers *)

(** [!!s] for a string. *)
Definition truthy (s : string) : bool := negb (bool_decide (s = "")).

(** [!!x] for a value that is a string, [null] or [undefined]. *)
Definition truthy_opt (o : option string) : bool :=
  match o with
  | Some s => truthy s
  | None => false
  end.

(** [x || d] for such a value. *)
Definition or_default (o : option string) (d : string) : string :=
  match o with
  | Some s => if truthy s then s else d
  | None => d
  end.

(** [x || d] for a number or [undefined]. *)
Definition num_or_default (o : option Z) (d : Z) : Z :=
  match o with
  | Some z => if bool_decide (z = 0) then d else z
  | None => d
  end.

(** ** The string builtins of the runtime

    [String.prototype.trim] strips the white space and the line terminators
    of the Unicode tables (U+00A0 among them), [slice(0, n)] keeps the first
    [n] UTF-16 code units, and [toLowerCase] follows the Unicode case
    mappings (it sends the Kelvin sign U+212A to [k]). They are taken from
    the runtime, as chess.js is. *)
Class StringOracle := {
  trim : string -> string;
  slice0 : nat -> string -> string;       (* [s.slice(0, n)] *)
  toLowerCase : string -> string;
}.

(** [c.toLowerCase()] on an ASCII character. *)
Definition lower (c : ascii) : ascii :=
  let n := nat_of_ascii c in
  if (65 <=? n)%nat && (n <=? 90)%nat then ascii_of_nat (n + 32) else c.

(** ** The rules oracle (chess.js) *)

(** chess.js writes a side as ['w'] or ['b']. *)
Inductive Color := White | Black.

#[global] Instance Color_eq_dec : EqDecision Color.
Proof. solve_decision. Defined.

Definition color_code (c : Color) : string :=
  match c with White => "w" | Black => "b" end.

(** The move object that [chess.move] returns and that
    [chess.history({verbose: true})] lists; only the fields the server reads
    or sends are kept. *)
Record Move := {
  m_color : Color;
  m_from : string;
  m_to : string;
  m_san : string;
  m_captured : option string;
}.

(** A piece as [chess.get(square)] returns it. *)
Record Piece := {
  p_color : Color;
  p_type : string;
}.

Inductive MoveOutcome (C : Type) :=
| Moved (c : C) (m : Move)      (* the move was made: new position, move object *)
| MoveNull                      (* [move] returned a falsy value *)
| MoveThrows (msg : string).    (* [move] threw [Error(msg)] *)
Arguments Moved {C} c m.
Arguments MoveNull {C}.
Arguments MoveThrows {C} msg.

Class RulesOracle (Chess : Type) := {
  (** [new Chess()] *)
  newChess : Chess;
  (** [c = new Chess(); c.load(fen)]: the loaded object, or [None] when
      [load] throws or refuses, which leaves [c] at the initial position. *)
  chess_load : string -> option Chess;
  chess_fen : Chess -> string;
  chess_turn : Chess -> Color;
  (** [chess.move({from, to, promotion})] *)
  chess_move : Chess -> string -> string -> string -> MoveOutcome Chess;
  (** [chess.get(square)]; [inr msg] when it throws. *)
  chess_get : Chess -> string -> option Piece + string;
  chess_isCheck : Chess -> bool;
  chess_isCheckmate : Chess -> bool;
  chess_isDraw : Chess -> bool;
  chess_history : Chess -> list Move;
}.

(** What the server relies on from chess.js: a new game has White to move, a
    FEN is never empty, and a FEN that chess.js printed loads back to a
    position that prints the same FEN with the same side to move. *)
Class OracleLaws {Chess : Type} (O : RulesOracle Chess) : Prop := {
  turn_newChess : chess_turn newChess = White;
  fen_nonempty : forall c, chess_fen c <> "";
  load_fen : forall c, exists c',
      chess_load (chess_fen c) = Some c' /\
      chess_fen c' = chess_fen c /\
      chess_turn c' = chess_turn c;
}.

(** ** JSON values of the responses *)

#[local] Unset Elimination Schemes.
Inductive JSON :=
| JNull
| JBool (b : bool)
| JNum (z : Z)
| JStr (s : string)
| JArr (l : list JSON)
| JObj (fields : list (string * JSON)).
#[local] Set Elimination Schemes.

Fixpoint assoc {A : Type} (k : string) (fields : list (string * A)) : option A :=
  match fields with
  | [] => None
  | (k', v) :: rest => if bool_decide (k' = k) then Some v else assoc k rest
  end.

(** [key in obj] *)
Definition has_key (k : string) (j : JSON) : bool :=
  match j with
  | JObj fields => bool_decide (k ∈ (fst <$> fields))
  | _ => false
  end.

(** [obj[key]] *)
Definition get_key (k : string) (j : JSON) : option JSON :=
  match j with
  | JObj fields => assoc k fields
  | _ => None
  end.

(** ** Data model *)

Definition WEB : string := "web".
Definition FRAME : string := "frame".

Record Player := {
  id : string;
  name : string;
  token : option string;
  source : string;
  joinedAt : Z;
}.

#[global] Instance Player_eq_dec : EqDecision Player.
Proof. solve_decision. Defined.

(** The clock, the uuid generator and the random generator as one request
    sees them. [pick] stands for [Math.floor(Math.random() * n)], read as
    [pick mod n]. *)
Record Env := {
  now : Z;
  uuid : string;
  pick : nat;
}.

Definition createPlayer (e : Env) (id name : string) (token : option string)
    (source : string) : Player :=
  {| id := id;
     name := if truthy name then name else "Player";
     token := token;
     source := source;
     joinedAt := now e |}.

Definition formatPlayerName {J : StringOracle} (name : option string) (fallback : string)
    : string :=
  match name with
  | None => fallback
  | Some n =>
      if negb (truthy n) then fallback
      else
        let trimmed := trim n in
        if negb (truthy trimmed) then fallback else slice0 40 trimmed
  end.

Definition sanitizePlayer (player : option Player) : JSON :=
  match player with
  | None => JNull
  | Some p =>
      JObj [("id", JStr (id p));
            ("name", JStr (name p));
            ("source", JStr (source p));
            ("joinedAt", JNum (joinedAt p))]
  end.

Section Server.
Context {Chess : Type} {O : RulesOracle Chess} {J : StringOracle}.

(** A session. [terminalReached] is a ghost field, absent from the source: it
    records that, since the session was last reset, the oracle reported a
    checkmate or a draw or a player resigned. It is written next to the
    events themselves and never read by the handlers. *)
Record Game := {
  chess : Chess;
  whitePlayer : option Player;
  blackPlayer : option Player;
  currentPlayer : string;
  selectedSquare : option string;
  validMoves : list string;
  lastMove : option (string * string);
  status : string;
  moveHistory : list string;
  createdAt : Z;
  updatedAt : Z;
  terminalReached : bool;
}.

(** One record of [games.json] after [JSON.parse]; a field is [None] when it
    is [null] or missing. The ghost field travels with the record, so that a
    restart resumes the history of the session as it was persisted. *)
Record Saved := {
  s_whitePlayer : option Player;
  s_blackPlayer : option Player;
  s_currentPlayer : option string;
  s_lastMove : option (string * string);
  s_status : option string;
  s_moveHistory : option (list string);
  s_createdAt : option Z;
  s_updatedAt : option Z;
  s_fen : option string;
  s_terminalReached : bool;
}.

Record World := {
  games : gmap string Game;
  disk : option (gmap string Saved);
}.

(** Field assignments, [game.f = v]. *)
Definition set_chess (c : Chess) (g : Game) : Game :=
  {| chess := c; whitePlayer := whitePlayer g; blackPlayer := blackPlayer g;
     currentPlayer := currentPlayer g; selectedSquare := selectedSquare g;
     validMoves := validMoves g; lastMove := lastMove g; status := status g;
     moveHistory := moveHistory g; createdAt := createdAt g;
     updatedAt := updatedAt g; terminalReached := terminalReached g |}.

Definition set_whitePlayer (p : option Player) (g : Game) : Game :=
  {| chess := chess g; whitePlayer := p; blackPlayer := blackPlayer g;
     currentPlayer := currentPlayer g; selectedSquare := selectedSquare g;
     validMoves := validMoves g; lastMove := lastMove g; status := status g;
     moveHistory := moveHistory g; createdAt := createdAt g;
     updatedAt := updatedAt g; terminalReached := terminalReached g |}.

Definition set_blackPlayer (p : option Player) (g : Game) : Game :=
  {| chess := chess g; whitePlayer := whitePlayer g; blackPlayer := p;
     currentPlayer := currentPlayer g; selectedSquare := selectedSquare g;
     validMoves := validMoves g; lastMove := lastMove g; status := status g;
     moveHistory := moveHistory g; createdAt := createdAt g;
     updatedAt := updatedAt g; terminalReached := terminalReached g |}.

Definition set_currentPlayer (s : string) (g : Game) : Game :=
  {| chess := chess g; whitePlayer := whitePlayer g; blackPlayer := blackPlayer g;
     currentPlayer := s; selectedSquare := selectedSquare g;
     validMoves := validMoves g; lastMove := lastMove g; status := status g;
     moveHistory := moveHistory g; createdAt := createdAt g;
     updatedAt := updatedAt g; terminalReached := terminalReached g |}.

Definition set_selection (sq : option string) (vm : list string) (g : Game) : Game :=
  {| chess := chess g; whitePlayer := whitePlayer g; blackPlayer := blackPlayer g;
     currentPlayer := currentPlayer g; selectedSquare := sq;
     validMoves := vm; lastMove := lastMove g; status := status g;
     moveHistory := moveHistory g; createdAt := createdAt g;
     updatedAt := updatedAt g; terminalReached := terminalReached g |}.

Definition set_lastMove (lm : option (string * string)) (g : Game) : Game :=
  {| chess := chess g; whitePlayer := whitePlayer g; blackPlayer := blackPlayer g;
     currentPlayer := currentPlayer g; selectedSquare := selectedSquare g;
     validMoves := validMoves g; lastMove := lm; status := status g;
     moveHistory := moveHistory g; createdAt := createdAt g;
     updatedAt := updatedAt g; terminalReached := terminalReached g |}.

Definition set_status (s : string) (g : Game) : Game :=
  {| chess := chess g; whitePlayer := whitePlayer g; blackPlayer := blackPlayer g;
     currentPlayer := currentPlayer g; selectedSquare := selectedSquare g;
     validMoves := validMoves g; lastMove := lastMove g; status := s;
     moveHistory := moveHistory g; createdAt := createdAt g;
     updatedAt := updatedAt g; terminalReached := terminalReached g |}.

Definition set_moveHistory (h : list string) (g : Game) : Game :=
  {| chess := chess g; whitePlayer := whitePlayer g; blackPlayer := blackPlayer g;
     currentPlayer := currentPlayer g; selectedSquare := selectedSquare g;
     validMoves := validMoves g; lastMove := lastMove g; status := status g;
     moveHistory := h; createdAt := createdAt g;
     updatedAt := updatedAt g; terminalReached := terminalReached g |}.

Definition set_updatedAt (t : Z) (g : Game) : Game :=
  {| chess := chess g; whitePlayer := whitePlayer g; blackPlayer := blackPlayer g;
     currentPlayer := currentPlayer g; selectedSquare := selectedSquare g;
     validMoves := validMoves g; lastMove := lastMove g; status := status g;
     moveHistory := moveHistory g; createdAt := createdAt g;
     updatedAt := t; terminalReached := terminalReached g |}.

(** Ghost assignment. *)
Definition set_terminalReached (b : bool) (g : Game) : Game :=
  {| chess := chess g; whitePlayer := whitePlayer g; blackPlayer := blackPlayer g;
     currentPlayer := currentPlayer g; selectedSquare := selectedSquare g;
     validMoves := validMoves g; lastMove := lastMove g; status := status g;
     moveHistory := moveHistory g; createdAt := createdAt g;
     updatedAt := updatedAt g; terminalReached := b |}.

(** [games.set(gameId, game)] *)
Definition games_set (gameId : string) (g : Game) (w : World) : World :=
  {| games := <[gameId := g]> (games w); disk := disk w |}.

(** ** Session store *)

Definition resetGameState (game : Game) : Game :=
  let g := set_chess newChess game in
  let g := set_currentPlayer "w" g in
  let g := set_selection None [] g in
  let g := set_lastMove None g in
  let g := set_status "waiting" g in
  let g := set_moveHistory [] g in
  set_terminalReached false g.

Definition createNewGame (e : Env) : Game :=
  {| chess := newChess;
     whitePlayer := None;
     blackPlayer := None;
     currentPlayer := "w";
     selectedSquare := None;
     validMoves := [];
     lastMove := None;
     status := "waiting";
     moveHistory := [];
     createdAt := now e;
     updatedAt := now e;
     terminalReached := false |}.

Definition getOrCreateGame (e : Env) (gameId : string) (w : World) : Game * World :=
  match games w !! gameId with
  | Some g => (g, w)
  | None => let g := createNewGame e in (g, games_set gameId g w)
  end.

Definition serializeGame (game : Game) : Saved :=
  {| s_whitePlayer := whitePlayer game;
     s_blackPlayer := blackPlayer game;
     s_currentPlayer := Some (currentPlayer game);
     s_lastMove := lastMove game;
     s_status := Some (status game);
     s_moveHistory := Some (moveHistory game);
     s_createdAt := Some (createdAt game);
     s_updatedAt := Some (updatedAt game);
     s_fen := Some (chess_fen (chess game));
     s_terminalReached := terminalReached game |}.

(** [payload[gameId] = serializeGame(game)] for each entry of the Map, on
    the plain object [payload]: for the key ["__proto__"] the assignment
    sets the prototype of [payload] and adds no property, so that entry is
    not in the text that [JSON.stringify] writes. The write is taken to
    succeed; when it fails the source logs the error and the file keeps an
    earlier snapshot. *)
Definition persistGamesToDisk (w : World) : World :=
  {| games := games w;
     disk := Some (serializeGame <$> delete "__proto__" (games w)) |}.

(** The body of the loop of [loadGamesFromDisk] for one entry. *)
Definition restoreGame (e : Env) (data : Saved) : Game :=
  let loaded :=
    match s_fen data with
    | Some fen =>
        if truthy fen then
          match chess_load fen with
          | Some c => c
          | None => newChess       (* fallback to new game if FEN invalid *)
          end
        else newChess
    | None => newChess
    end in
  {| chess := loaded;
     whitePlayer := s_whitePlayer data;
     blackPlayer := s_blackPlayer data;
     currentPlayer := or_default (s_currentPlayer data) "w";
     selectedSquare := None;
     validMoves := [];
     lastMove := s_lastMove data;
     status := or_default (s_status data) "waiting";
     moveHistory := default [] (s_moveHistory data);
     createdAt := num_or_default (s_createdAt data) (now e);
     updatedAt := num_or_default (s_updatedAt data) (now e);
     terminalReached := s_terminalReached data |}.

Definition loadGamesFromDisk (e : Env) (w : World) : World :=
  match disk w with
  | None => w
  | Some parsed =>
      {| games := (restoreGame e <$> parsed) ∪ games w; disk := disk w |}
  end.

(** A restart of the process: the Map starts empty and the file is loaded. *)
Definition restart (e : Env) (w : World) : World :=
  loadGamesFromDisk e {| games := ∅; disk := disk w |}.

(** ** Seats *)

Definition assignPlayer (e : Env) (color : string) (player : Player) (game : Game) : Game :=
  let g :=
    if bool_decide (color = "white") then set_whitePlayer (Some player) game
    else set_blackPlayer (Some player) game in
  let g :=
    if negb (bool_decide (status g = "finished")) then
      if bool_decide (is_Some (whitePlayer g)) && bool_decide (is_Some (blackPlayer g))
      then set_status "active" g
      else set_status "waiting" g
    else g in
  set_updatedAt (now e) g.

Definition getPlayerDisplay (game : Game) (color : string) : JSON :=
  if bool_decide (color = "white") then sanitizePlayer (whitePlayer game)
  else sanitizePlayer (blackPlayer game).

Definition buildShareUrl (protocol host gameId : string) : string :=
  protocol +:+ "://" +:+ host +:+ "/play?gameId=" +:+ gameId.

(** ** POST /move *)

Record MoveReq := {
  mr_gameId : option string;
  mr_from : option string;
  mr_to : option string;
  mr_promotion : option string;
  mr_playerToken : option string;
}.

(** One constructor for each [return] of the handler. *)
Inductive MoveResponse :=
| MissingFields                 (* 400 'Missing gameId, from or to' *)
| GameNotFound                  (* 404 'Game not found' *)
| MissingPlayerToken            (* 403 'Missing player token' *)
| InvalidPlayerToken            (* 403 'Invalid player token' *)
| NotYourTurn                   (* 423 'Not your turn' *)
| InvalidMove                   (* 400 'Invalid move' *)
| MoveError (msg : string)      (* 400 error.message *)
| MoveOk (move : Move) (fen : string) (status : string) (moveHistory : list string).

(** [player && player.token] as a condition. *)
Definition has_token (player : option Player) : bool :=
  match player with
  | Some p => truthy_opt (token p)
  | None => false
  end.

Definition hasWebPlayers (game : Game) : bool :=
  has_token (whitePlayer game) || has_token (blackPlayer game).

(** [player?.token === playerToken] for a string [playerToken]. *)
Definition token_is (player : option Player) (playerToken : string) : bool :=
  match player with
  | Some p => bool_decide (token p = Some playerToken)
  | None => false
  end.

Definition allowedColors (game : Game) (playerToken : string) : list string :=
  (if token_is (whitePlayer game) playerToken then ["white"] else [])
  ++ (if token_is (blackPlayer game) playerToken then ["black"] else []).

(** The token check, lines 633-654: the response of the early return, or
    [None] when the handler goes on to the move. *)
Definition checkToken (game : Game) (playerToken : option string) : option MoveResponse :=
  if hasWebPlayers game then
    match playerToken with
    | Some tok =>
        if negb (truthy tok) then Some MissingPlayerToken
        else
          let allowed := allowedColors game tok in
          if bool_decide (allowed = []) then Some InvalidPlayerToken
          else
            let currentColor :=
              if bool_decide (currentPlayer game = "w") then "white" else "black" in
            if negb (bool_decide (currentColor ∈ allowed)) then Some NotYourTurn
            else None
    | None => Some MissingPlayerToken
    end
  else None.

(** The assignments that follow a successful [chess.move], lines 667-675. *)
Definition commitMove (game : Game) (c' : Chess) (move : Move) (from to : string) : Game :=
  let g := set_chess c' game in
  let g := set_currentPlayer (color_code (chess_turn c')) g in
  let g := set_selection None [] g in
  let g := set_lastMove (Some (from, to)) g in
  let g := set_moveHistory (moveHistory g ++ [m_san move]) g in
  if chess_isCheckmate c' || chess_isDraw c'
  then set_terminalReached true (set_status "finished" g)
  else g.

(** The [try] block, lines 656-688. *)
Definition tryMove (gameId from to : string) (promotion : option string)
    (game : Game) (w : World) : MoveResponse * World :=
  match chess_move (chess game) from to (or_default promotion "q") with
  | MoveThrows msg => (MoveError msg, w)
  | MoveNull => (InvalidMove, w)
  | Moved c' move =>
      let game' := commitMove game c' move from to in
      let w' := persistGamesToDisk (games_set gameId game' w) in
      (MoveOk move (chess_fen c') (status game') (moveHistory game'), w')
  end.

Definition post_move (req : MoveReq) (w : World) : MoveResponse * World :=
  match mr_gameId req, mr_from req, mr_to req with
  | Some gameId, Some from, Some to =>
      if negb (truthy gameId) || negb (truthy from) || negb (truthy to)
      then (MissingFields, w)
      else
        match games w !! gameId with
        | None => (GameNotFound, w)
        | Some game =>
            match checkToken game (mr_playerToken req) with
            | Some refusal => (refusal, w)
            | None => tryMove gameId from to (mr_promotion req) game w
            end
        end
  | _, _, _ => (MissingFields, w)
  end.

(** ** The status written while a frame is rendered

    Lines 391-412 of GET / and 569-601 of POST /frame: building the title of
    an active game sets the status to finished when the oracle reports a
    checkmate or a draw. *)
Definition renderStatus (game : Game) : Game :=
  if bool_decide (status game = "active") then
    if chess_isCheckmate (chess game)
    then set_terminalReached true (set_status "finished" game)
    else if chess_isDraw (chess game)
    then set_terminalReached true (set_status "finished" game)
    else game
  else game.

(** ** GET / *)

(** The HTML of the frame is presentation and is not modelled; the handler
    is its effect on the store. *)
Definition get_root (e : Env) (queryGameId : option string) (w : World) : World :=
  let gameId := or_default queryGameId (uuid e) in
  let '(game, w1) := getOrCreateGame e gameId w in
  games_set gameId (renderStatus game) w1.

(** ** POST /frame *)

Record FrameReq := {
  fr_buttonIndex : option Z;
  fr_inputText : option string;
  fr_stateGameId : option string;     (* [state.gameId] after the decoding attempts *)
  fr_queryGameId : option string;
  fr_fid : option string;             (* [String(untrustedData.fid)] *)
}.

Definition is_file (c : ascii) : bool :=
  let n := nat_of_ascii (lower c) in (97 <=? n)%nat && (n <=? 104)%nat.

Definition is_rank (c : ascii) : bool :=
  let n := nat_of_ascii c in (49 <=? n)%nat && (n <=? 56)%nat.

Definition is_promotion (c : ascii) : bool :=
  let l := lower c in
  bool_decide (l = "q"%char) || bool_decide (l = "r"%char)
  || bool_decide (l = "b"%char) || bool_decide (l = "n"%char).

(** [text.match(/^([a-h][1-8])([a-h][1-8])([qrbn])?$/i)] followed by the
    three [toLowerCase()]: from, to and the promotion letter. *)
Definition parseMove (text : string) : option (string * string * option string) :=
  match text with
  | String f1 (String r1 (String f2 (String r2 rest))) =>
      if is_file f1 && is_rank r1 && is_file f2 && is_rank r2 then
        let from := String (lower f1) (String r1 EmptyString) in
        let to := String (lower f2) (String r2 EmptyString) in
        match rest with
        | EmptyString => Some (from, to, None)
        | String p EmptyString =>
            if is_promotion p then Some (from, to, Some (String (lower p) EmptyString))
            else None
        | _ => None
        end
      else None
  | _ => None
  end.

(** The move branch of the frame, lines 502-534. The assignments after a
    successful move are those of [commitMove], written in another order in
    the source; a throw is ignored. *)
Definition frameMove (game : Game) (inputText : string) : Game :=
  match parseMove (trim inputText) with
  | Some (from, to, promotion) =>
      match chess_get (chess game) from with
      | inr _ => game
      | inl piece =>
          let mine :=
            match piece with
            | None => true
            | Some p => bool_decide (color_code (p_color p) = currentPlayer game)
            end in
          if mine then
            match chess_move (chess game) from to (or_default promotion "q") with
            | Moved c' move => commitMove game c' move from to
            | MoveNull => game
            | MoveThrows _ => game
            end
          else game
      end
  | None => game
  end.

(** What a pressed button does: it mutates the session object, or it puts a
    new object in the Map and leaves the old one alone. *)
Inductive ButtonEffect :=
| SameGame (g : Game)
| NewGameSet.

Definition frameButton (e : Env) (fid : string) (buttonIndex : Z)
    (inputText : option string) (game : Game) : ButtonEffect :=
  let framePlayer := createPlayer e fid ("FID " +:+ fid) None FRAME in
  if bool_decide (status game = "waiting") then
    if bool_decide (buttonIndex = 1) then
      let g := assignPlayer e "white" framePlayer game in
      SameGame (if bool_decide (is_Some (blackPlayer g)) then set_status "active" g else g)
    else if bool_decide (buttonIndex = 2) then
      let g := assignPlayer e "black" framePlayer game in
      SameGame (if bool_decide (is_Some (whitePlayer g)) then set_status "active" g else g)
    else if bool_decide (buttonIndex = 3) then
      let g := assignPlayer e "white" framePlayer game in
      let g := assignPlayer e "black" framePlayer g in
      SameGame (set_status "active" g)
    else SameGame game
  else if bool_decide (status game = "active") then
    if bool_decide (buttonIndex = 1) && truthy_opt inputText then
      SameGame (frameMove game (default "" inputText))
    else if bool_decide (buttonIndex = 2) then SameGame game
    else if bool_decide (buttonIndex = 3) then NewGameSet
    else if bool_decide (buttonIndex = 4) then
      SameGame (set_terminalReached true (set_status "finished" game))
    else SameGame game
  else if bool_decide (status game = "finished") then
    if bool_decide (buttonIndex = 1) then NewGameSet else SameGame game
  else SameGame game.

(** As for GET /, the handler is its effect on the store. After
    [NewGameSet] the frame is rendered from the old object, which is no
    longer in the Map. *)
Definition post_frame (e : Env) (req : FrameReq) (w : World) : World :=
  let fid := or_default (fr_fid req) "unknown" in
  let gameId :=
    or_default (fr_stateGameId req) (or_default (fr_queryGameId req) (uuid e)) in
  let '(game, w1) := getOrCreateGame e gameId w in
  let pressed :=
    match fr_buttonIndex req with
    | Some b => if bool_decide (b = 0) then SameGame game
                else frameButton e fid b (fr_inputText req) game
    | None => SameGame game
    end in
  match pressed with
  | SameGame g => games_set gameId (renderStatus g) w1
  | NewGameSet => persistGamesToDisk (games_set gameId (createNewGame e) w1)
  end.

(** ** GET /game/:gameId *)

Inductive InspectResponse :=
| InspectNotFound                 (* 404 'Game not found' *)
| InspectOk (body : JSON).

Definition getCapturedPieces (game : Game) : list string * list string :=
  let history := chess_history (chess game) in
  let capturedBy (c : Color) :=
    omap (fun m => if bool_decide (m_color m = c)
                   then match m_captured m with
                        | Some x => if truthy x then Some x else None
                        | None => None
                        end
                   else None) history in
  (capturedBy White, capturedBy Black).

Definition viewGame (protocol host gameId : string) (game : Game) : JSON :=
  let captured := getCapturedPieces game in
  JObj [("gameId", JStr gameId);
        ("fen", JStr (chess_fen (chess game)));
        ("currentPlayer", JStr (currentPlayer game));
        ("status", JStr (status game));
        ("isCheck", JBool (chess_isCheck (chess game)));
        ("isCheckmate", JBool (chess_isCheckmate (chess game)));
        ("isDraw", JBool (chess_isDraw (chess game)));
        ("moveHistory", JArr (JStr <$> moveHistory game));
        ("lastMove", match lastMove game with
                     | Some (from, to) => JObj [("from", JStr from); ("to", JStr to)]
                     | None => JNull
                     end);
        ("capturedPieces", JObj [("white", JArr (JStr <$> captured.1));
                                 ("black", JArr (JStr <$> captured.2))]);
        ("players", JObj [("white", getPlayerDisplay game "white");
                          ("black", getPlayerDisplay game "black")]);
        ("availableColors",
           JObj [("white", JBool (negb (bool_decide (is_Some (whitePlayer game)))));
                 ("black", JBool (negb (bool_decide (is_Some (blackPlayer game)))))]);
        ("shareUrl", JStr (buildShareUrl protocol host gameId))].

Definition get_game (protocol host gameId : string) (w : World) : InspectResponse * World :=
  match games w !! gameId with
  | None => (InspectNotFound, w)
  | Some game => (InspectOk (viewGame protocol host gameId game), w)
  end.

(** ** POST /api/games *)

Definition post_games (e : Env) (w : World) : string * World :=
  let gameId := uuid e in
  (gameId, persistGamesToDisk (games_set gameId (createNewGame e) w)).

(** ** POST /api/games/:gameId/join *)

(** A field of the body that the handler reads through [String(v)]:
    [Absent] when the body has no such key (the value is [undefined]), and
    otherwise the value as [String(v)] shows it. A string is shown as
    itself, [null] as ["null"], the number 5 as ["5"]. *)
Inductive BodyField :=
| Absent
| Shown (text : string).

(** [const { field = d } = body; String(field)]: the default applies to an
    absent key only. *)
Definition shown_or (f : BodyField) (d : string) : string :=
  match f with
  | Absent => d
  | Shown text => text
  end.

Record JoinReq := {
  jr_color : BodyField;
  jr_name : option string;       (* [None]: no name in the body, or [null] *)
}.

Inductive JoinResponse :=
| JoinNotFound                   (* 404 'Game not found' *)
| JoinInvalidColor               (* 400 'Invalid color choice' *)
| JoinFull                       (* 409 'Game is full' *)
| JoinWhiteTaken                 (* 409 'White is already taken' *)
| JoinBlackTaken                 (* 409 'Black is already taken' *)
| JoinOk (color token : string) (player : JSON).

Definition post_join (e : Env) (gameId : string) (req : JoinReq) (w : World)
    : JoinResponse * World :=
  match games w !! gameId with
  | None => (JoinNotFound, w)
  | Some game =>
      let normalizedColor := toLowerCase (shown_or (jr_color req) "random") in
      if negb (bool_decide (normalizedColor ∈ ["white"; "black"; "random"]))
      then (JoinInvalidColor, w)
      else
        let openColors :=
          (if bool_decide (is_Some (whitePlayer game)) then [] else ["white"])
          ++ (if bool_decide (is_Some (blackPlayer game)) then [] else ["black"]) in
        if bool_decide (openColors = []) then (JoinFull, w)
        else
          let targetColor :=
            if bool_decide (normalizedColor = "random")
            then nth (pick e mod length openColors) openColors "white"
            else normalizedColor in
          if bool_decide (targetColor = "white") && bool_decide (is_Some (whitePlayer game))
          then (JoinWhiteTaken, w)
          else if bool_decide (targetColor = "black") && bool_decide (is_Some (blackPlayer game))
          then (JoinBlackTaken, w)
          else
            let token := uuid e in
            let displayName :=
              formatPlayerName (jr_name req)
                (if bool_decide (targetColor = "white") then "White Player" else "Black Player") in
            let player :=
              createPlayer e (token +:+ "-" +:+ targetColor) displayName (Some token) WEB in
            let game' := assignPlayer e targetColor player game in
            (JoinOk targetColor token (sanitizePlayer (Some player)),
             persistGamesToDisk (games_set gameId game' w))
  end.

(** ** POST /api/games/:gameId/solo *)

Inductive SoloResponse :=
| SoloOk (token name : string).

Definition post_solo (e : Env) (gameId : string) (name : option string) (w : World)
    : SoloResponse * World :=
  let soloName := formatPlayerName name "Solo Player" in
  let token := uuid e in
  let game :=
    match games w !! gameId with
    | Some g => g
    | None => createNewGame e
    end in
  let game := resetGameState game in
  let white := createPlayer e (token +:+ "-white") (soloName +:+ " (White)") (Some token) WEB in
  let black := createPlayer e (token +:+ "-black") (soloName +:+ " (Black)") (Some token) WEB in
  let game := assignPlayer e "white" white game in
  let game := assignPlayer e "black" black game in
  let game := set_status "active" game in
  (SoloOk token soloName, persistGamesToDisk (games_set gameId game w)).

(** ** Runs of the server *)

(** The requests that write to the store, and a restart. The read-only
    routes (/games, /play, /game/:id/pgn, /game/:id/moves/:square) are left
    out. *)
Inductive Op :=
| GetRoot (queryGameId : option string)
| PostFrame (req : FrameReq)
| PostMove (req : MoveReq)
| GetGame (protocol host gameId : string)
| PostGames
| PostJoin (gameId : string) (req : JoinReq)
| PostSolo (gameId : string) (name : option string)
| Restart.

Definition run (e : Env) (op : Op) (w : World) : World :=
  match op with
  | GetRoot q => get_root e q w
  | PostFrame req => post_frame e req w
  | PostMove req => (post_move req w).2
  | GetGame protocol host gameId => (get_game protocol host gameId w).2
  | PostGames => (post_games e w).2
  | PostJoin gameId req => (post_join e gameId req w).2
  | PostSolo gameId name => (post_solo e gameId name w).2
  | Restart => restart e w
  end.

(** A fresh deployment: no session and no file. *)
Definition initial : World := {| games := ∅; disk := None |}.

(** [uuidv4()] never returns the empty string. *)
Inductive reachable : World -> Prop :=
| reach_initial : reachable initial
| reach_step e op w : uuid e <> "" -> reachable w -> reachable (run e op w).

End Server.

Arguments Game Chess : clear implicits.
Arguments World Chess : clear implicits.


(** ** A small oracle to run the handlers on

    chess.js itself is outside the repository. [PawnOracle] is a stand-in
    with the same interface, used to evaluate the handlers on concrete
    requests: a board of pawns on which the only legal moves are pawn pushes
    (one square, or two from the home rank), written in SAN as the target
    square; the game is drawn when the side to move has no push. *)
Module PawnOracle.

Inductive Cell := Empty | WPawn | BPawn.

#[global] Instance Cell_eq_dec : EqDecision Cell.
Proof. solve_decision. Defined.

(** Square [a1] is cell 0, [h1] cell 7, [a2] cell 8, ..., [h8] cell 63. *)
Record Pos := {
  cells : list Cell;
  side : Color;
}.

Definition start : Pos :=
  {| cells := replicate 8 Empty ++ replicate 8 WPawn ++ replicate 32 Empty
              ++ replicate 8 BPawn ++ replicate 8 Empty;
     side := White |}.

Definition squareIndex (sq : string) : option nat :=
  match sq with
  | String f (String r EmptyString) =>
      let nf := nat_of_ascii f in
      let nr := nat_of_ascii r in
      if (97 <=? nf)%nat && (nf <=? 104)%nat && (49 <=? nr)%nat && (nr <=? 56)%nat
      then Some (8 * (nr - 49) + (nf - 97))%nat
      else None
  | _ => None
  end.

Definition pawnOf (c : Color) : Cell :=
  match c with White => WPawn | Black => BPawn end.

Definition opposite (c : Color) : Color :=
  match c with White => Black | Black => White end.

(** The cell [k] ranks ahead of cell [i] for side [c]. *)
Definition ahead (c : Color) (i k : nat) : option nat :=
  match c with
  | White => Some (i + 8 * k)%nat
  | Black => if (8 * k <=? i)%nat then Some (i - 8 * k)%nat else None
  end.

Definition homeRank (c : Color) (i : nat) : bool :=
  match c with
  | White => (i / 8 =? 1)%nat
  | Black => (i / 8 =? 6)%nat
  end.

Definition free (p : Pos) (k : option nat) : bool :=
  match k with
  | Some j => bool_decide (cells p !! j = Some Empty)
  | None => false
  end.

Definition canPush (p : Pos) (i : nat) : bool :=
  bool_decide (cells p !! i = Some (pawnOf (side p))) && free p (ahead (side p) i 1).

Definition move (p : Pos) (from to promotion : string) : MoveOutcome Pos :=
  match squareIndex from, squareIndex to with
  | Some i, Some j =>
      let one := ahead (side p) i 1 in
      let two := ahead (side p) i 2 in
      if bool_decide (cells p !! i = Some (pawnOf (side p)))
         && ((bool_decide (one = Some j) && free p one)
             || (homeRank (side p) i && bool_decide (two = Some j)
                 && free p one && free p two))
      then Moved {| cells := <[j := pawnOf (side p)]> (<[i := Empty]> (cells p));
                    side := opposite (side p) |}
                 {| m_color := side p; m_from := from; m_to := to;
                    m_san := to; m_captured := None |}
      else MoveThrows "Invalid move"
  | _, _ => MoveThrows "Invalid move"
  end.

Definition get (p : Pos) (sq : string) : option Piece + string :=
  match squareIndex sq with
  | Some i =>
      inl match cells p !! i with
          | Some WPawn => Some {| p_color := White; p_type := "p" |}
          | Some BPawn => Some {| p_color := Black; p_type := "p" |}
          | _ => None
          end
  | None => inr "Invalid square"
  end.

Definition isDraw (p : Pos) : bool :=
  negb (existsb (canPush p) (seq 0 (length (cells p)))).

(** The text form: one character for each cell, a space, the side. *)
Definition cellChar (c : Cell) : ascii :=
  match c with
  | Empty => "."%char
  | WPawn => "P"%char
  | BPawn => "p"%char
  end.

Definition charCell (a : ascii) : option Cell :=
  if bool_decide (a = "."%char) then Some Empty
  else if bool_decide (a = "P"%char) then Some WPawn
  else if bool_decide (a = "p"%char) then Some BPawn
  else None.

Fixpoint printCells (l : list Cell) (tail : string) : string :=
  match l with
  | [] => tail
  | c :: rest => String (cellChar c) (printCells rest tail)
  end.

Definition fen (p : Pos) : string :=
  printCells (cells p) (String " "%char (color_code (side p))).

Fixpoint load (s : string) : option Pos :=
  match s with
  | EmptyString => None
  | String a rest =>
      if bool_decide (a = " "%char) then
        if bool_decide (rest = "w") then Some {| cells := []; side := White |}
        else if bool_decide (rest = "b") then Some {| cells := []; side := Black |}
        else None
      else
        match charCell a, load rest with
        | Some c, Some p => Some {| cells := c :: cells p; side := side p |}
        | _, _ => None
        end
  end.

#[global] Instance oracle : RulesOracle Pos := {|
  newChess := start;
  chess_load := load;
  chess_fen := fen;
  chess_turn := side;
  chess_move := move;
  chess_get := get;
  chess_isCheck := fun _ => false;
  chess_isCheckmate := fun _ => false;
  chess_isDraw := isDraw;
  chess_history := fun _ => [];
|}.

End PawnOracle.

(** ** Stand-in string builtins

    [AsciiStrings] agrees with the builtins of the runtime on ASCII strings
    (on which [trim] strips tab, line feed, vertical tab, form feed,
    carriage return and space, [slice] cuts at characters and [toLowerCase]
    folds the letters A to Z). It is used to evaluate the handlers on
    concrete ASCII requests, and by nothing else. *)
Module AsciiStrings.

Definition is_space (c : ascii) : bool :=
  let n := nat_of_ascii c in
  bool_decide (n = 9%nat) || bool_decide (n = 10%nat) || bool_decide (n = 11%nat)
  || bool_decide (n = 12%nat) || bool_decide (n = 13%nat) || bool_decide (n = 32%nat).

Fixpoint trim_left (s : string) : string :=
  match s with
  | String c rest => if is_space c then trim_left rest else s
  | EmptyString => EmptyString
  end.

Fixpoint trim_right (s : string) : string :=
  match s with
  | String c rest =>
      let rest' := trim_right rest in
      if is_space c && bool_decide (rest' = "") then "" else String c rest'
  | EmptyString => EmptyString
  end.

Fixpoint take (n : nat) (s : string) : string :=
  match n, s with
  | S k, String c rest => String c (take k rest)
  | _, _ => EmptyString
  end.

Fixpoint fold (s : string) : string :=
  match s with
  | String c rest => String (lower c) (fold rest)
  | EmptyString => EmptyString
  end.

#[global] Instance oracle : StringOracle := {|
  trim := fun s => trim_right (trim_left s);
  slice0 := take;
  toLowerCase := fold;
|}.

End AsciiStrings.

(** ** The words of the specification *)

Section SpecWords.
Context {Chess : Type} {O : RulesOracle Chess} {J : StringOracle}.
Implicit Types (g game : Game Chess) (w : World Chess).

(** [p] sits on one of the two seats of the session. *)
Definition bound (game : Game Chess) (p : Player) : Prop :=
  whitePlayer game = Some p \/ blackPlayer game = Some p.

(** A binding carries a token when its [token] is a non-empty string: tokens
    are uuids, and the handler tests [player.token] for truthiness. *)
Definition carries_token (p : Player) : Prop :=
  exists t, token p = Some t /\ t <> "".

(** [requiresToken(session)] *)
Definition token_bearing (game : Game Chess) : Prop :=
  exists p, bound game p /\ carries_token p.

(** [tok] is the token of some binding of the session. *)
Definition recognized (game : Game Chess) (tok : string) : Prop :=
  exists p, bound game p /\ token p = Some tok.

(** The seat of the side matching [turn]. *)
Definition seat_to_move (game : Game Chess) : option Player :=
  if bool_decide (currentPlayer game = "w") then whitePlayer game else blackPlayer game.

(** [tok] authorizes the side matching [turn]. *)
Definition authorizes_turn (game : Game Chess) (tok : string) : Prop :=
  exists p, seat_to_move game = Some p /\ token p = Some tok.

(** The request passes the token check: the session asks for no token, or
    the token presented authorizes the side to move. *)
Definition authorized (game : Game Chess) (playerToken : option string) : Prop :=
  ~ token_bearing game
  \/ exists tok, playerToken = Some tok /\ tok <> "" /\ authorizes_turn game tok.

(** [IllegalMoveError]: the two responses of an oracle rejection. *)
Definition IllegalMoveError (r : MoveResponse) : Prop :=
  r = InvalidMove \/ exists msg, r = MoveError msg.

(** The oracle reports a terminal condition on a position. *)
Definition terminal (c : Chess) : bool := chess_isCheckmate c || chess_isDraw c.


(** A token, when there is one, is not the empty string. *)
Definition token_ok (p : Player) : Prop :=
  forall t, token p = Some t -> t <> "".

(** Every seat of the session holds such a token or none. *)
Definition tokens_nonempty (g : Game Chess) : Prop :=
  forall p, bound g p -> token_ok p.

(** [status] and [currentPlayer] are never the empty string. *)
Definition named_fields (g : Game Chess) : Prop :=
  status g <> "" /\ currentPlayer g <> "".

(** [turn] mirrors the side to move of the position. *)
Definition turn_mirrors (g : Game Chess) : Prop :=
  currentPlayer g = color_code (chess_turn (chess g)).

(** Every session of the Map satisfies [P], and every record of the file is
    the snapshot of a session that satisfies [P]. *)
Definition world_ok (P : Game Chess -> Prop) (w : World Chess) : Prop :=
  (forall gameId g, games w !! gameId = Some g -> P g)
  /\ (forall parsed gameId data, disk w = Some parsed -> parsed !! gameId = Some data ->
        exists g, data = serializeGame g /\ P g).

End SpecWords.

(** ** Concrete requests for the examples *)

Module Demo.

Definition env0 : Env := {| now := 1000; uuid := "0b6f7c1e"; pick := 0 |}.
Definition env1 : Env := {| now := 2000; uuid := "77aa01d2"; pick := 1 |}.

Definition moveReq (gameId from to : string) (tok : option string) : MoveReq :=
  {| mr_gameId := Some gameId; mr_from := Some from; mr_to := Some to;
     mr_promotion := None; mr_playerToken := tok |}.

(** POST /api/games on a fresh deployment: one waiting session. *)
Definition created : World PawnOracle.Pos := (post_games (O:=PawnOracle.oracle) env0 initial).2.

(** Solo mode started on that session with the name "Solo". *)
Definition solo : World PawnOracle.Pos :=
  (post_solo (O:=PawnOracle.oracle) env1 "0b6f7c1e" (Some "Solo") created).2.

(** White joins the created session through the web; Black's seat is open. *)
Definition whiteJoined : World PawnOracle.Pos :=
  (post_join (O:=PawnOracle.oracle) env1 "0b6f7c1e"
     {| jr_color := Shown "white"; jr_name := Some "Alice" |} created).2.

(** The position after e2-e4, and after e2-e4 e7-e5. *)
Definition after_e4 : PawnOracle.Pos :=
  match PawnOracle.move PawnOracle.start "e2" "e4" "q" with
  | Moved c _ => c
  | _ => PawnOracle.start
  end.

Definition after_e4_e5 : PawnOracle.Pos :=
  match PawnOracle.move after_e4 "e7" "e5" "q" with
  | Moved c _ => c
  | _ => after_e4
  end.

Definition move_e4 : Move :=
  {| m_color := White; m_from := "e2"; m_to := "e4"; m_san := "e4"; m_captured := None |}.

Definition move_e5 : Move :=
  {| m_color := Black; m_from := "e7"; m_to := "e5"; m_san := "e5"; m_captured := None |}.

(** The sessions of these worlds. *)
Definition createdGame : Game PawnOracle.Pos := createNewGame env0.

Definition alice : Player :=
  {| id := "77aa01d2-white"; name := "Alice"; token := Some "77aa01d2";
     source := WEB; joinedAt := 2000 |}.

Definition joinedGame : Game PawnOracle.Pos :=
  assignPlayer env1 "white" alice createdGame.

Definition soloWhite : Player :=
  {| id := "77aa01d2-white"; name := "Solo (White)"; token := Some "77aa01d2";
     source := WEB; joinedAt := 2000 |}.

Definition soloBlack : Player :=
  {| id := "77aa01d2-black"; name := "Solo (Black)"; token := Some "77aa01d2";
     source := WEB; joinedAt := 2000 |}.

Definition soloGame : Game PawnOracle.Pos :=
  set_status "active"
    (assignPlayer env1 "black" soloBlack
       (assignPlayer env1 "white" soloWhite (resetGameState createdGame))).

(** The world after White, who joined with a token, has played e2-e4. *)
Definition whiteMoved : World PawnOracle.Pos :=
  (post_move (O:=PawnOracle.oracle)
     (moveReq "0b6f7c1e" "e2" "e4" (Some "77aa01d2")) whiteJoined).2.

Definition movedGame : Game PawnOracle.Pos :=
  commitMove joinedGame after_e4 move_e4 "e2" "e4".

(** A record of [games.json] whose [fen] is not a position and whose
    [currentPlayer] is Black. *)
Definition corrupt : Saved :=
  {| s_whitePlayer := None; s_blackPlayer := None;
     s_currentPlayer := Some "b"; s_lastMove := None;
     s_status := Some "waiting"; s_moveHistory := Some [];
     s_createdAt := Some 1000; s_updatedAt := Some 1000;
     s_fen := Some "not a position"; s_terminalReached := false |}.

End Demo.

(** A session under the id ["__proto__"]: solo mode started on a fresh
    deployment through [/api/games/__proto__/solo]. *)
Module ProtoDemo.

Definition solo : World PawnOracle.Pos :=
  (post_solo (O:=PawnOracle.oracle) Demo.env1 "__proto__" (Some "Solo") initial).2.

Definition soloGame : Game PawnOracle.Pos :=
  set_status "active"
    (assignPlayer Demo.env1 "black" Demo.soloBlack
       (assignPlayer Demo.env1 "white" Demo.soloWhite
          (resetGameState (createNewGame Demo.env1)))).

End ProtoDemo.

(** ** The drawing of the board: cell names and fill colours

    The part of the double loop of [createChessBoardSVG] (lines 247-262)
    that names the cell at [row], [col] (both from 0 to 7, row 0 at the top)
    and picks its fill colour. The SVG text itself is not modelled. *)

(** [`${String.fromCharCode(97 + col)}${8 - row}`], for [row <= 8]. *)
Definition squareName (row col : nat) : string :=
  String (ascii_of_nat (97 + col)) (String (ascii_of_nat (48 + (8 - row))) EmptyString).

Definition isLight (row col : nat) : bool := ((row + col) mod 2 =? 0)%nat.

Definition squareFill (row col : nat) (highlightedSquares : list string)
    (lastMove : option (string * string)) : string :=
  let square := squareName row col in
  let fill := if isLight row col then "#f0d9b5" else "#b58863" in
  let fill :=
    match lastMove with
    | Some (from, to) =>
        if bool_decide (from = square) || bool_decide (to = square) then "#cdd26a" else fill
    | None => fill
    end in
  if bool_decide (square ∈ highlightedSquares) then "#f6f769" else fill.

(** A square in lower-case algebraic notation: a file from a to h and a rank
    from 1 to 8. *)
Definition is_square (s : string) : bool :=
  match s with
  | String f (String r EmptyString) =>
      let nf := nat_of_ascii f in
      let nr := nat_of_ascii r in
      (97 <=? nf)%nat && (nf <=? 104)%nat && (49 <=? nr)%nat && (nr <=? 56)%nat
  | _ => false
  end.

(** The lower case of a move text, letter by letter: the text that the move
    pattern matches is made of ASCII letters and digits. *)
Fixpoint lowerAscii (s : string) : string :=
  match s with
  | String c rest => String (lower c) (lowerAscii rest)
  | EmptyString => EmptyString
  end.

(** A promotion letter in lower case. *)
Definition is_promotion_letter (s : string) : bool :=
  bool_decide (s ∈ ["q"; "r"; "b"; "n"]).

(** ** Words for the other routes *)

Section RouteWords.
Context {Chess : Type} {O : RulesOracle Chess} {J : StringOracle}.
Implicit Types (g game : Game Chess) (w : World Chess).

(** The colour asked for, as the handler normalizes it:
    [String(color).toLowerCase()], where [color] is ['random'] when the body
    has no such key. *)
Definition askedColor (req : JoinReq) : string :=
  toLowerCase (shown_or (jr_color req) "random").

(** The player that a successful join seats. *)
Definition joiner (e : Env) (req : JoinReq) (color : string) : Player :=
  createPlayer e (uuid e +:+ "-" +:+ color)
    (formatPlayerName (jr_name req)
       (if bool_decide (color = "white") then "White Player" else "Black Player"))
    (Some (uuid e)) WEB.

(** The seat that a join takes, if any: the colour asked for when its seat
    is open, and for a random join an open seat chosen by [pick]. *)
Definition joinTarget (e : Env) (req : JoinReq) g : option string :=
  let c := askedColor req in
  if bool_decide (c = "white") then
    if bool_decide (is_Some (whitePlayer g)) then None else Some "white"
  else if bool_decide (c = "black") then
    if bool_decide (is_Some (blackPlayer g)) then None else Some "black"
  else if bool_decide (c = "random") then
    match whitePlayer g, blackPlayer g with
    | None, None => Some (if bool_decide (pick e mod 2 = 0)%nat then "white" else "black")
    | None, Some _ => Some "white"
    | Some _, None => Some "black"
    | Some _, Some _ => None
    end
  else None.

(** The refusal when no seat is taken: the colour is checked first, then a
    full table, then the seat asked for. *)
Definition joinRefusal (req : JoinReq) g : JoinResponse :=
  let c := askedColor req in
  if negb (bool_decide (c = "white") || bool_decide (c = "black") || bool_decide (c = "random"))
  then JoinInvalidColor
  else if bool_decide (is_Some (whitePlayer g)) && bool_decide (is_Some (blackPlayer g))
  then JoinFull
  else if bool_decide (c = "white") then JoinWhiteTaken
  else JoinBlackTaken.

(** The session that a frame request addresses. *)
Definition frameGameId (e : Env) (req : FrameReq) : string :=
  or_default (fr_stateGameId req) (or_default (fr_queryGameId req) (uuid e)).

(** The player that the frame seats for [fid]. *)
Definition framePlayer (e : Env) (req : FrameReq) : Player :=
  let fid := or_default (fr_fid req) "unknown" in
  createPlayer e fid ("FID " +:+ fid) None FRAME.

(** The request asks for a new game: New Game on an active session, or on a
    finished one. *)
Definition startsNewGame (req : FrameReq) g : Prop :=
  (status g = "active" /\ fr_buttonIndex req = Some 3)
  \/ (status g = "finished" /\ fr_buttonIndex req = Some 1).

(** The values that the fields of a session take: the three statuses, the
    two colour codes, the selection never used, and a last move exactly when
    the history is not empty. *)
Definition session_shape g : Prop :=
  (status g = "waiting" \/ status g = "active" \/ status g = "finished")
  /\ (currentPlayer g = "w" \/ currentPlayer g = "b")
  /\ selectedSquare g = None /\ validMoves g = []
  /\ (lastMove g = None <-> moveHistory g = []).

(** The session id that a request addresses, if any. *)
Definition addressed (e : Env) (op : Op) : option string :=
  match op with
  | GetRoot q => Some (or_default q (uuid e))
  | PostFrame req => Some (frameGameId e req)
  | PostMove req => mr_gameId req
  | GetGame _ _ _ => None
  | PostGames => Some (uuid e)
  | PostJoin gameId _ => Some gameId
  | PostSolo gameId _ => Some gameId
  | Restart => None
  end.

(** What one request does to the position of a session: nothing, one move
    that the oracle accepted, or a reset to the initial position. *)
Definition position_step g g' : Prop :=
  (chess g' = chess g /\ currentPlayer g' = currentPlayer g
   /\ moveHistory g' = moveHistory g /\ lastMove g' = lastMove g)
  \/ (exists from to promotion c' move,
        chess_move (chess g) from to promotion = Moved c' move
        /\ chess g' = c' /\ currentPlayer g' = color_code (chess_turn c')
        /\ moveHistory g' = moveHistory g ++ [m_san move]
        /\ lastMove g' = Some (from, to))
  \/ (chess g' = newChess /\ currentPlayer g' = "w"
      /\ moveHistory g' = [] /\ lastMove g' = None).

(** The request ends with [persistGamesToDisk]. *)
Definition persists (e : Env) (op : Op) w : Prop :=
  match op with
  | PostGames => True
  | PostSolo _ _ => True
  | PostMove req => exists move fen st hist, (post_move req w).1 = MoveOk move fen st hist
  | PostJoin gameId req => exists color tok pj, (post_join e gameId req w).1 = JoinOk color tok pj
  | PostFrame req => startsNewGame req (getOrCreateGame e (frameGameId e req) w).1
  | _ => False
  end.

(** [move.captured] is truthy. *)
Definition has_capture (m : Move) : bool :=
  match m_captured m with
  | Some x => truthy x
  | None => false
  end.

End RouteWords.

(** ** Concrete frame requests for the examples *)

Module FrameDemo.

Definition press (buttonIndex : Z) (inputText : option string) : FrameReq :=
  {| fr_buttonIndex := Some buttonIndex; fr_inputText := inputText;
     fr_stateGameId := Some "0b6f7c1e"; fr_queryGameId := None;
     fr_fid := Some "4242" |}.

(** Make Move with the text e2e4. *)
Definition makeMove : FrameReq := press 1 (Some "e2e4").

Definition joinWhite : FrameReq := press 1 None.
Definition playSolo : FrameReq := press 3 None.
Definition newGame : FrameReq := press 3 None.
Definition resign : FrameReq := press 4 None.

Definition whitePawn : Piece := {| p_color := White; p_type := "p" |}.

Definition joinAsWhite : JoinReq := {| jr_color := Shown "white"; jr_name := Some "Alice" |}.

End FrameDemo.

(** * Properties

    ** The token check and the move handler *)

Section MoveProofs.
Context {Chess : Type} {O : RulesOracle Chess} {J : StringOracle}.
Implicit Types (g game : Game Chess) (w : World Chess).

Lemma truthy_true (s : string) : truthy s = true <-> s <> "".
Proof.
  unfold truthy. rewrite negb_true_iff, bool_decide_eq_false. reflexivity.
Qed.

Lemma has_token_carries (p : Player) : has_token (Some p) = true <-> carries_token p.
Proof.
  unfold has_token, carries_token, truthy_opt. split.
  - destruct (token p) as [t|]; [|discriminate].
    intros Ht. exists t. split; [reflexivity|]. by apply truthy_true.
  - intros (t & -> & Hne). by apply truthy_true.
Qed.

Lemma hasWebPlayers_token_bearing (game : Game Chess) :
  hasWebPlayers game = true <-> token_bearing game.
Proof.
  unfold hasWebPlayers, token_bearing, bound. rewrite orb_true_iff. split.
  - intros [H|H].
    + destruct (whitePlayer game) as [p|] eqn:E; [|discriminate].
      exists p. split; [by left | by apply has_token_carries].
    + destruct (blackPlayer game) as [p|] eqn:E; [|discriminate].
      exists p. split; [by right | by apply has_token_carries].
  - intros (p & [E|E] & Hc); rewrite E; [left | right]; by apply has_token_carries.
Qed.

Lemma token_is_true (player : option Player) (tok : string) :
  token_is player tok = true <-> exists p, player = Some p /\ token p = Some tok.
Proof.
  unfold token_is. destruct player as [p|].
  - rewrite bool_decide_eq_true. split; [eauto | by intros (? & [= ->] & ?)].
  - split; [discriminate | by intros (? & ? & ?)].
Qed.

Lemma allowedColors_white (game : Game Chess) (tok : string) :
  "white" ∈ allowedColors game tok <-> token_is (whitePlayer game) tok = true.
Proof.
  unfold allowedColors.
  destruct (token_is (whitePlayer game) tok), (token_is (blackPlayer game) tok); cbn;
    rewrite ?elem_of_cons, ?elem_of_nil; split; intros; try done; try tauto;
    destruct_or?; try discriminate; done.
Qed.

Lemma allowedColors_black (game : Game Chess) (tok : string) :
  "black" ∈ allowedColors game tok <-> token_is (blackPlayer game) tok = true.
Proof.
  unfold allowedColors.
  destruct (token_is (whitePlayer game) tok), (token_is (blackPlayer game) tok); cbn;
    rewrite ?elem_of_cons, ?elem_of_nil; split; intros; try done; try tauto;
    destruct_or?; try discriminate; done.
Qed.

Lemma allowedColors_nil (game : Game Chess) (tok : string) :
  allowedColors game tok = [] <-> ~ recognized game tok.
Proof.
  unfold allowedColors, recognized, bound. split.
  - intros Hnil (p & [E|E] & Ht).
    + assert (token_is (whitePlayer game) tok = true) as Hw
        by (apply token_is_true; eauto).
      rewrite Hw in Hnil. discriminate.
    + assert (token_is (blackPlayer game) tok = true) as Hb
        by (apply token_is_true; eauto).
      rewrite Hb in Hnil. destruct (token_is (whitePlayer game) tok); discriminate.
  - intros Hno.
    destruct (token_is (whitePlayer game) tok) eqn:Hw.
    { apply token_is_true in Hw as (p & ? & ?). exfalso. apply Hno. eauto. }
    destruct (token_is (blackPlayer game) tok) eqn:Hb.
    { apply token_is_true in Hb as (p & ? & ?). exfalso. apply Hno. eauto. }
    reflexivity.
Qed.

Lemma turn_color_allowed (game : Game Chess) (tok : string) :
  (if bool_decide (currentPlayer game = "w") then "white" else "black")
    ∈ allowedColors game tok <-> authorizes_turn game tok.
Proof.
  unfold authorizes_turn, seat_to_move.
  destruct (bool_decide (currentPlayer game = "w")).
  - rewrite allowedColors_white. apply token_is_true.
  - rewrite allowedColors_black. apply token_is_true.
Qed.

(** The token check, case by case, in the words of the specification. *)
Lemma checkToken_free (game : Game Chess) (playerToken : option string) :
  ~ token_bearing game -> checkToken game playerToken = None.
Proof.
  intros Hno. unfold checkToken.
  destruct (hasWebPlayers game) eqn:E; [|reflexivity].
  apply hasWebPlayers_token_bearing in E. contradiction.
Qed.

Lemma checkToken_missing (game : Game Chess) (playerToken : option string) :
  token_bearing game -> truthy_opt playerToken = false ->
  checkToken game playerToken = Some MissingPlayerToken.
Proof.
  intros Hb Hm. apply hasWebPlayers_token_bearing in Hb.
  unfold checkToken. rewrite Hb.
  destruct playerToken as [tok|]; [|reflexivity].
  cbn in Hm. by rewrite Hm.
Qed.

Lemma checkToken_unrecognized (game : Game Chess) (tok : string) :
  token_bearing game -> tok <> "" -> ~ recognized game tok ->
  checkToken game (Some tok) = Some InvalidPlayerToken.
Proof.
  intros Hb Hne Hno. apply hasWebPlayers_token_bearing in Hb.
  apply truthy_true in Hne. apply allowedColors_nil in Hno.
  unfold checkToken. rewrite Hb, Hne, Hno. reflexivity.
Qed.

Lemma checkToken_wrong_side (game : Game Chess) (tok : string) :
  token_bearing game -> tok <> "" -> recognized game tok -> ~ authorizes_turn game tok ->
  checkToken game (Some tok) = Some NotYourTurn.
Proof.
  intros Hb Hne Hrec Hno. apply hasWebPlayers_token_bearing in Hb.
  apply truthy_true in Hne.
  unfold checkToken. rewrite Hb, Hne. cbn.
  rewrite bool_decide_eq_false_2 by (rewrite allowedColors_nil; tauto).
  rewrite bool_decide_eq_false_2 by (rewrite turn_color_allowed; exact Hno).
  reflexivity.
Qed.

Lemma checkToken_both_seats (game : Game Chess) (tok : string) (white black : Player) :
  whitePlayer game = Some white -> blackPlayer game = Some black ->
  token white = Some tok -> token black = Some tok ->
  checkToken game (Some tok) = None.
Proof.
  intros Hw Hb Htw Htb. unfold checkToken.
  destruct (hasWebPlayers game) eqn:E; [|reflexivity].
  assert (truthy tok = true) as Ht.
  { unfold hasWebPlayers, has_token in E. rewrite Hw, Hb, Htw, Htb in E.
    cbn in E. by destruct (truthy tok). }
  rewrite Ht. cbn.
  assert (allowedColors game tok = ["white"; "black"]) as ->.
  { unfold allowedColors, token_is. rewrite Hw, Hb, Htw, Htb.
    rewrite !bool_decide_eq_true_2 by reflexivity. reflexivity. }
  rewrite bool_decide_eq_false_2 by discriminate.
  destruct (bool_decide (currentPlayer game = "w"));
    rewrite bool_decide_eq_true_2; try reflexivity;
    rewrite !elem_of_cons; tauto.
Qed.

Lemma checkToken_authorized (game : Game Chess) (playerToken : option string) :
  checkToken game playerToken = None <-> authorized game playerToken.
Proof.
  unfold authorized. split.
  - unfold checkToken.
    destruct (hasWebPlayers game) eqn:Hweb.
    + destruct playerToken as [tok|]; [|discriminate].
      destruct (truthy tok) eqn:Htok; [|discriminate]. cbn.
      case_bool_decide; [discriminate|].
      case_bool_decide as Hturn; [|discriminate].
      intros _. right. exists tok. split_and!; [reflexivity | by apply truthy_true |].
      by apply turn_color_allowed.
    + intros _. left. rewrite <- hasWebPlayers_token_bearing. by rewrite Hweb.
  - intros [Hfree|(tok & -> & Hne & Hturn)]; [by apply checkToken_free|].
    unfold checkToken. destruct (hasWebPlayers game); [|reflexivity].
    apply truthy_true in Hne. rewrite Hne. cbn.
    apply turn_color_allowed in Hturn.
    rewrite bool_decide_eq_false_2 by (intros Hnil; rewrite Hnil in Hturn; by inversion Hturn).
    by rewrite bool_decide_eq_true_2.
Qed.

(** A request that reaches the token check. *)
Lemma post_move_reaches_check (w : World Chess) (req : MoveReq) (gameId from to : string) (game : Game Chess) :
  mr_gameId req = Some gameId -> mr_from req = Some from -> mr_to req = Some to ->
  gameId <> "" -> from <> "" -> to <> "" ->
  games w !! gameId = Some game ->
  post_move req w =
    match checkToken game (mr_playerToken req) with
    | Some refusal => (refusal, w)
    | None => tryMove gameId from to (mr_promotion req) game w
    end.
Proof.
  intros Hg Hf Ht Hgn Hfn Htn Hl. unfold post_move.
  rewrite Hg, Hf, Ht.
  apply truthy_true in Hgn, Hfn, Htn. rewrite Hgn, Hfn, Htn. cbn.
  rewrite Hl. reflexivity.
Qed.

(** A request that does not answer [MoveOk] leaves the world as it was. *)
Lemma tryMove_failure_unchanged gameId from to promotion (game : Game Chess) (w : World Chess) :
  (forall c' m, chess_move (chess game) from to (or_default promotion "q") <> Moved c' m) ->
  (tryMove gameId from to promotion game w).2 = w /\
  IllegalMoveError (tryMove gameId from to promotion game w).1.
Proof.
  intros Hrej. unfold tryMove, IllegalMoveError.
  destruct (chess_move (chess game) from to (or_default promotion "q")) as [c' m| |msg] eqn:E.
  - exfalso. by apply (Hrej c' m).
  - cbn. auto.
  - cbn. eauto.
Qed.

End MoveProofs.

Section MoveClaims.
Context {Chess : Type} {O : RulesOracle Chess} {J : StringOracle}.
Implicit Types (g game : Game Chess) (w : World Chess).

(** The fields of the session after [commitMove]. *)
Lemma commitMove_chess (game : Game Chess) c' move from to :
  chess (commitMove game c' move from to) = c'.
Proof. unfold commitMove. by destruct (chess_isCheckmate c' || chess_isDraw c'). Qed.

Lemma commitMove_currentPlayer (game : Game Chess) c' move from to :
  currentPlayer (commitMove game c' move from to) = color_code (chess_turn c').
Proof. unfold commitMove. by destruct (chess_isCheckmate c' || chess_isDraw c'). Qed.

Lemma commitMove_moveHistory (game : Game Chess) c' move from to :
  moveHistory (commitMove game c' move from to) = moveHistory game ++ [m_san move].
Proof. unfold commitMove. by destruct (chess_isCheckmate c' || chess_isDraw c'). Qed.

Lemma commitMove_lastMove (game : Game Chess) c' move from to :
  lastMove (commitMove game c' move from to) = Some (from, to).
Proof. unfold commitMove. by destruct (chess_isCheckmate c' || chess_isDraw c'). Qed.

Lemma commitMove_status (game : Game Chess) c' move from to :
  status (commitMove game c' move from to)
  = if terminal c' then "finished" else status game.
Proof. unfold commitMove, terminal. by destruct (chess_isCheckmate c' || chess_isDraw c'). Qed.

Lemma commitMove_terminalReached (game : Game Chess) c' move from to :
  terminalReached (commitMove game c' move from to)
  = if terminal c' then true else terminalReached game.
Proof. unfold commitMove, terminal. by destruct (chess_isCheckmate c' || chess_isDraw c'). Qed.

Lemma commitMove_seats (game : Game Chess) c' move from to :
  whitePlayer (commitMove game c' move from to) = whitePlayer game
  /\ blackPlayer (commitMove game c' move from to) = blackPlayer game.
Proof. unfold commitMove. by destruct (chess_isCheckmate c' || chess_isDraw c'). Qed.

(** C1, as amended: POST /move never looks at the status. Whatever the status
    of the session (waiting, active or finished), a request that passes the
    token check and whose move the oracle accepts is applied: the position,
    the history and [lastMove] are updated, and the status is left as it was
    unless the oracle reports a checkmate or a draw. *)
Theorem post_move_applies_whatever_status (w : World Chess) (req : MoveReq)
    (gameId from to : string) (game : Game Chess) (c' : Chess) (move : Move) :
  mr_gameId req = Some gameId -> mr_from req = Some from -> mr_to req = Some to ->
  gameId <> "" -> from <> "" -> to <> "" ->
  games w !! gameId = Some game ->
  authorized game (mr_playerToken req) ->
  chess_move (chess game) from to (or_default (mr_promotion req) "q") = Moved c' move ->
  exists game',
    post_move req w =
      (MoveOk move (chess_fen c') (status game') (moveHistory game'),
       persistGamesToDisk (games_set gameId game' w))
    /\ chess game' = c'
    /\ currentPlayer game' = color_code (chess_turn c')
    /\ moveHistory game' = moveHistory game ++ [m_san move]
    /\ lastMove game' = Some (from, to)
    /\ status game' = (if terminal c' then "finished" else status game).
Proof.
  intros Hg Hf Ht Hgn Hfn Htn Hl Hcheck Hmove.
  apply checkToken_authorized in Hcheck.
  exists (commitMove game c' move from to).
  rewrite (post_move_reaches_check w req gameId from to game) by assumption.
  rewrite Hcheck. unfold tryMove. rewrite Hmove.
  rewrite commitMove_chess, commitMove_currentPlayer, commitMove_moveHistory,
    commitMove_lastMove, commitMove_status.
  repeat split.
Qed.

(** C2: on a session where at least one binding carries a token, a move
    request with a missing token is refused with "Missing player token", one
    with an unrecognized token with "Invalid player token", one whose token
    does not authorize the side to move with "Not your turn", and the world
    (so [moveHistory], the position and [turn]) is unchanged each time; on a
    session where no binding carries a token the request goes straight to
    the oracle, whose answer alone decides. *)
Theorem token_required_for_move (w : World Chess) (req : MoveReq)
    (gameId from to : string) (game : Game Chess) :
  mr_gameId req = Some gameId -> mr_from req = Some from -> mr_to req = Some to ->
  gameId <> "" -> from <> "" -> to <> "" ->
  games w !! gameId = Some game ->
  (token_bearing game ->
     (truthy_opt (mr_playerToken req) = false ->
        post_move req w = (MissingPlayerToken, w))
     /\ (forall tok, mr_playerToken req = Some tok -> tok <> "" ->
           ~ recognized game tok ->
           post_move req w = (InvalidPlayerToken, w))
     /\ (forall tok, mr_playerToken req = Some tok -> tok <> "" ->
           recognized game tok -> ~ authorizes_turn game tok ->
           post_move req w = (NotYourTurn, w)))
  /\ (~ token_bearing game ->
        post_move req w = tryMove gameId from to (mr_promotion req) game w).
Proof.
  intros Hg Hf Ht Hgn Hfn Htn Hl.
  rewrite (post_move_reaches_check w req gameId from to game) by assumption.
  split; [intros Hb; repeat split|].
  - intros Hm. by rewrite checkToken_missing.
  - intros tok -> Hne Hno. by rewrite checkToken_unrecognized.
  - intros tok -> Hne Hrec Hno. by rewrite checkToken_wrong_side.
  - intros Hno. by rewrite checkToken_free.
Qed.

(** C3: after a POST /move that succeeds, [turn] is the side to move that the
    oracle reports for the new position, [moveHistory] is the old history
    with the SAN of the move appended (one entry longer), [lastMove] is the
    [from] and [to] of the request, and the status is finished exactly when
    the oracle reports a checkmate or a draw (or it was finished before);
    otherwise it is unchanged. *)
Theorem move_success_effect (w w' : World Chess) (req : MoveReq) (move : Move)
    (fen st : string) (hist : list string) :
  post_move req w = (MoveOk move fen st hist, w') ->
  exists gameId from to game game',
    mr_gameId req = Some gameId /\ mr_from req = Some from /\ mr_to req = Some to
    /\ games w !! gameId = Some game
    /\ games w' !! gameId = Some game'
    /\ chess_move (chess game) from to (or_default (mr_promotion req) "q")
       = Moved (chess game') move
    /\ currentPlayer game' = color_code (chess_turn (chess game'))
    /\ moveHistory game' = moveHistory game ++ [m_san move]
    /\ length (moveHistory game') = S (length (moveHistory game))
    /\ lastMove game' = Some (from, to)
    /\ status game' = (if terminal (chess game') then "finished" else status game)
    /\ (status game' = "finished" <-> terminal (chess game') = true \/ status game = "finished")
    /\ fen = chess_fen (chess game') /\ st = status game' /\ hist = moveHistory game'.
Proof.
  unfold post_move.
  destruct (mr_gameId req) as [gameId|]; [|discriminate].
  destruct (mr_from req) as [from|]; [|discriminate].
  destruct (mr_to req) as [to|]; [|discriminate].
  destruct (negb (truthy gameId) || negb (truthy from) || negb (truthy to));
    [discriminate|].
  destruct (games w !! gameId) as [game|] eqn:Hl; [|discriminate].
  destruct (checkToken game (mr_playerToken req)) as [refusal|] eqn:Hc.
  { intros H. injection H as Hr Hw. subst refusal. unfold checkToken in Hc.
    repeat (match type of Hc with context [if ?b then _ else _] => destruct b
                             | context [match ?o with Some _ => _ | None => _ end] => destruct o
            end; try discriminate). }
  unfold tryMove.
  destruct (chess_move (chess game) from to (or_default (mr_promotion req) "q"))
    as [c' m| |msg] eqn:Hm; [|discriminate..].
  intros H. injection H as Hmv Hfen Hst Hhist Hw. subst move fen st hist w'.
  exists gameId, from, to, game, (commitMove game c' m from to).
  rewrite commitMove_chess, commitMove_currentPlayer, commitMove_moveHistory,
    commitMove_lastMove, commitMove_status.
  split_and!; try reflexivity; try assumption.
  - cbn. apply lookup_insert_eq.
  - rewrite length_app. cbn. lia.
  - fold (terminal c'). destruct (terminal c'); split; auto.
    intros [?|?]; [discriminate|assumption].
Qed.

(** C4: when the oracle rejects the move of a request, the world is left as
    it was, so every field of the session is unchanged and GET /game shows
    the state from before the call; and the response, once the token check
    is passed, is the 400 of an illegal move. *)
Theorem rejected_move_no_mutation (w : World Chess) (req : MoveReq)
    (gameId from to : string) (game : Game Chess) :
  mr_gameId req = Some gameId -> mr_from req = Some from -> mr_to req = Some to ->
  gameId <> "" -> from <> "" -> to <> "" ->
  games w !! gameId = Some game ->
  (forall c' m,
     chess_move (chess game) from to (or_default (mr_promotion req) "q") <> Moved c' m) ->
  (post_move req w).2 = w
  /\ (authorized game (mr_playerToken req) -> IllegalMoveError (post_move req w).1)
  /\ (forall protocol host,
        get_game protocol host gameId (post_move req w).2 = get_game protocol host gameId w).
Proof.
  intros Hg Hf Ht Hgn Hfn Htn Hl Hrej.
  assert ((post_move req w).2 = w) as Hsame.
  { rewrite (post_move_reaches_check w req gameId from to game) by assumption.
    destruct (checkToken game (mr_playerToken req)); [reflexivity|].
    by apply tryMove_failure_unchanged. }
  split; [exact Hsame|]. split.
  - intros Hc. apply checkToken_authorized in Hc.
    rewrite (post_move_reaches_check w req gameId from to game) by assumption.
    rewrite Hc. by apply tryMove_failure_unchanged.
  - intros protocol host. by rewrite Hsame.
Qed.

End MoveClaims.

(** ** The move handler on concrete requests *)

Lemma created_lookup : games Demo.created !! "0b6f7c1e" = Some Demo.createdGame.
Proof. vm_compute. reflexivity. Qed.

Lemma whiteJoined_lookup : games Demo.whiteJoined !! "0b6f7c1e" = Some Demo.joinedGame.
Proof. vm_compute. reflexivity. Qed.

Lemma whiteMoved_lookup : games Demo.whiteMoved !! "0b6f7c1e" = Some Demo.movedGame.
Proof. vm_compute. reflexivity. Qed.

Lemma solo_lookup : games Demo.solo !! "0b6f7c1e" = Some Demo.soloGame.
Proof. vm_compute. reflexivity. Qed.

Lemma joinedGame_seats :
  whitePlayer Demo.joinedGame = Some Demo.alice /\ blackPlayer Demo.joinedGame = None.
Proof. vm_compute. auto. Qed.

Lemma movedGame_seats :
  whitePlayer Demo.movedGame = Some Demo.alice /\ blackPlayer Demo.movedGame = None
  /\ currentPlayer Demo.movedGame = "b".
Proof. vm_compute. auto. Qed.

Lemma alice_carries_token : carries_token Demo.alice.
Proof. exists "77aa01d2". split; [reflexivity | discriminate]. Qed.

Lemma joinedGame_token_bearing : token_bearing Demo.joinedGame.
Proof.
  exists Demo.alice. split; [left; apply joinedGame_seats | apply alice_carries_token].
Qed.

Lemma movedGame_token_bearing : token_bearing Demo.movedGame.
Proof.
  exists Demo.alice. split; [left; apply movedGame_seats | apply alice_carries_token].
Qed.

Lemma joinedGame_guess : ~ recognized Demo.joinedGame "guess".
Proof.
  intros (p & [E|E] & Ht).
  - rewrite (proj1 joinedGame_seats) in E. injection E as <-. discriminate Ht.
  - rewrite (proj2 joinedGame_seats) in E. discriminate E.
Qed.

Lemma movedGame_recognized : recognized Demo.movedGame "77aa01d2".
Proof. exists Demo.alice. split; [left; apply movedGame_seats | reflexivity]. Qed.

Lemma movedGame_not_white's_turn : ~ authorizes_turn Demo.movedGame "77aa01d2".
Proof.
  intros (p & E & _). unfold seat_to_move in E.
  rewrite (proj2 (proj2 movedGame_seats)) in E.
  rewrite bool_decide_eq_false_2 in E by discriminate.
  rewrite (proj1 (proj2 movedGame_seats)) in E. discriminate E.
Qed.

Lemma createdGame_free : ~ token_bearing Demo.createdGame.
Proof. intros (p & [E|E] & _); discriminate E. Qed.

Lemma post_move_applies_whatever_status_witness :
  exists game',
    post_move (O:=PawnOracle.oracle) (Demo.moveReq "0b6f7c1e" "e2" "e4" None) Demo.created
    = (MoveOk Demo.move_e4 (PawnOracle.fen Demo.after_e4) (status game') (moveHistory game'),
       persistGamesToDisk (games_set "0b6f7c1e" game' Demo.created))
    /\ chess game' = Demo.after_e4
    /\ currentPlayer game' = "b"
    /\ moveHistory game' = ["e4"]
    /\ lastMove game' = Some ("e2", "e4")
    /\ status game' = "waiting".
Proof.
  exact (post_move_applies_whatever_status (O:=PawnOracle.oracle)
           Demo.created (Demo.moveReq "0b6f7c1e" "e2" "e4" None)
           "0b6f7c1e" "e2" "e4" Demo.createdGame Demo.after_e4 Demo.move_e4
           eq_refl eq_refl eq_refl
           ltac:(discriminate) ltac:(discriminate) ltac:(discriminate)
           created_lookup (or_introl createdGame_free) eq_refl).
Defined.

(** C1, as stated, fails: on a session that was just created, with status
    waiting and no player, POST /move e2-e4 is answered with success and the
    move is in the history. *)
Lemma move_applied_on_waiting_session :
  (status <$> games Demo.created !! "0b6f7c1e") = Some "waiting"
  /\ (whitePlayer <$> games Demo.created !! "0b6f7c1e") = Some None
  /\ (post_move (Demo.moveReq "0b6f7c1e" "e2" "e4" None) Demo.created).1
     = MoveOk Demo.move_e4 (PawnOracle.fen Demo.after_e4) "waiting" ["e4"]
  /\ (moveHistory <$>
        games (post_move (Demo.moveReq "0b6f7c1e" "e2" "e4" None) Demo.created).2
          !! "0b6f7c1e") = Some ["e4"].
Proof. vm_compute. auto. Qed.

Lemma token_required_for_move_witness :
  post_move (O:=PawnOracle.oracle) (Demo.moveReq "0b6f7c1e" "e2" "e4" None) Demo.whiteJoined
    = (MissingPlayerToken, Demo.whiteJoined)
  /\ post_move (O:=PawnOracle.oracle) (Demo.moveReq "0b6f7c1e" "e2" "e4" (Some "guess"))
       Demo.whiteJoined
     = (InvalidPlayerToken, Demo.whiteJoined)
  /\ post_move (O:=PawnOracle.oracle) (Demo.moveReq "0b6f7c1e" "e7" "e5" (Some "77aa01d2"))
       Demo.whiteMoved
     = (NotYourTurn, Demo.whiteMoved)
  /\ post_move (O:=PawnOracle.oracle) (Demo.moveReq "0b6f7c1e" "e2" "e4" None) Demo.created
     = tryMove "0b6f7c1e" "e2" "e4" None Demo.createdGame Demo.created.
Proof.
  split; [|split; [|split]].
  - exact (proj1 (proj1 (token_required_for_move (O:=PawnOracle.oracle)
      Demo.whiteJoined (Demo.moveReq "0b6f7c1e" "e2" "e4" None)
      "0b6f7c1e" "e2" "e4" Demo.joinedGame eq_refl eq_refl eq_refl
      ltac:(discriminate) ltac:(discriminate) ltac:(discriminate) whiteJoined_lookup)
      joinedGame_token_bearing) eq_refl).
  - exact (proj1 (proj2 (proj1 (token_required_for_move (O:=PawnOracle.oracle)
      Demo.whiteJoined (Demo.moveReq "0b6f7c1e" "e2" "e4" (Some "guess"))
      "0b6f7c1e" "e2" "e4" Demo.joinedGame eq_refl eq_refl eq_refl
      ltac:(discriminate) ltac:(discriminate) ltac:(discriminate) whiteJoined_lookup)
      joinedGame_token_bearing)) "guess" eq_refl ltac:(discriminate) joinedGame_guess).
  - exact (proj2 (proj2 (proj1 (token_required_for_move (O:=PawnOracle.oracle)
      Demo.whiteMoved (Demo.moveReq "0b6f7c1e" "e7" "e5" (Some "77aa01d2"))
      "0b6f7c1e" "e7" "e5" Demo.movedGame eq_refl eq_refl eq_refl
      ltac:(discriminate) ltac:(discriminate) ltac:(discriminate) whiteMoved_lookup)
      movedGame_token_bearing)) "77aa01d2" eq_refl ltac:(discriminate)
      movedGame_recognized movedGame_not_white's_turn).
  - exact (proj2 (token_required_for_move (O:=PawnOracle.oracle)
      Demo.created (Demo.moveReq "0b6f7c1e" "e2" "e4" None)
      "0b6f7c1e" "e2" "e4" Demo.createdGame eq_refl eq_refl eq_refl
      ltac:(discriminate) ltac:(discriminate) ltac:(discriminate) created_lookup)
      createdGame_free).
Defined.

Lemma solo_e4_response :
  post_move (O:=PawnOracle.oracle)
    (Demo.moveReq "0b6f7c1e" "e2" "e4" (Some "77aa01d2")) Demo.solo
  = (MoveOk Demo.move_e4 (PawnOracle.fen Demo.after_e4) "active" ["e4"],
     (post_move (O:=PawnOracle.oracle)
        (Demo.moveReq "0b6f7c1e" "e2" "e4" (Some "77aa01d2")) Demo.solo).2).
Proof. vm_compute. reflexivity. Qed.

Lemma move_success_effect_witness :
  exists game game',
    games Demo.solo !! "0b6f7c1e" = Some game
    /\ games (post_move (O:=PawnOracle.oracle)
                (Demo.moveReq "0b6f7c1e" "e2" "e4" (Some "77aa01d2")) Demo.solo).2
         !! "0b6f7c1e" = Some game'
    /\ currentPlayer game' = color_code (PawnOracle.side (chess game'))
    /\ moveHistory game' = moveHistory game ++ ["e4"]
    /\ length (moveHistory game') = S (length (moveHistory game))
    /\ lastMove game' = Some ("e2", "e4")
    /\ status game' = (if terminal (chess game') then "finished" else status game).
Proof.
  destruct (move_success_effect (O:=PawnOracle.oracle) Demo.solo _
              (Demo.moveReq "0b6f7c1e" "e2" "e4" (Some "77aa01d2")) Demo.move_e4
              (PawnOracle.fen Demo.after_e4) "active" ["e4"] solo_e4_response)
    as (gameId & from & to & game & game' & Hid & Hfrom & Hto & Hl & Hl' & _
        & Hturn & Hhist & Hlen & Hlast & Hstatus & _).
  injection Hid as <-. injection Hfrom as <-. injection Hto as <-.
  exists game, game'. repeat (split; [assumption|]). assumption.
Defined.

Lemma solo_rejects_e2_e5 c' m :
  PawnOracle.move (chess Demo.soloGame) "e2" "e5" "q" <> Moved c' m.
Proof. vm_compute. discriminate. Qed.

Lemma rejected_move_no_mutation_witness :
  (post_move (O:=PawnOracle.oracle)
     (Demo.moveReq "0b6f7c1e" "e2" "e5" (Some "77aa01d2")) Demo.solo).2 = Demo.solo
  /\ forall protocol host,
       get_game protocol host "0b6f7c1e"
         (post_move (O:=PawnOracle.oracle)
            (Demo.moveReq "0b6f7c1e" "e2" "e5" (Some "77aa01d2")) Demo.solo).2
       = get_game protocol host "0b6f7c1e" Demo.solo.
Proof.
  destruct (rejected_move_no_mutation (O:=PawnOracle.oracle) Demo.solo
              (Demo.moveReq "0b6f7c1e" "e2" "e5" (Some "77aa01d2"))
              "0b6f7c1e" "e2" "e5" Demo.soloGame eq_refl eq_refl eq_refl
              ltac:(discriminate) ltac:(discriminate) ltac:(discriminate)
              solo_lookup solo_rejects_e2_e5)
    as (Hsame & _ & Hview).
  split; [exact Hsame | exact Hview].
Defined.

(** ** Seats and resets *)

Section Seats.
Context {Chess : Type} {O : RulesOracle Chess} {J : StringOracle}.
Implicit Types (g game : Game Chess) (w : World Chess).

(** [assignPlayer] writes a seat, the status and [updatedAt], nothing else. *)
Lemma assignPlayer_frame e color player g :
  chess (assignPlayer e color player g) = chess g
  /\ currentPlayer (assignPlayer e color player g) = currentPlayer g
  /\ moveHistory (assignPlayer e color player g) = moveHistory g
  /\ lastMove (assignPlayer e color player g) = lastMove g
  /\ terminalReached (assignPlayer e color player g) = terminalReached g.
Proof. unfold assignPlayer. repeat case_bool_decide; cbn; done. Qed.

Lemma assignPlayer_not_finished e color player g :
  status g <> "finished" -> status (assignPlayer e color player g) <> "finished".
Proof.
  intros Hs. unfold assignPlayer.
  repeat case_bool_decide; cbn in *; congruence.
Qed.

Lemma assignPlayer_white e player g :
  whitePlayer (assignPlayer e "white" player g) = Some player
  /\ blackPlayer (assignPlayer e "white" player g) = blackPlayer g.
Proof. unfold assignPlayer. repeat case_bool_decide; cbn in *; done. Qed.

Lemma assignPlayer_black e player g :
  blackPlayer (assignPlayer e "black" player g) = Some player
  /\ whitePlayer (assignPlayer e "black" player g) = whitePlayer g.
Proof. unfold assignPlayer. repeat case_bool_decide; cbn in *; done. Qed.

Lemma set_status_fields (s : string) g :
  status (set_status s g) = s
  /\ whitePlayer (set_status s g) = whitePlayer g
  /\ blackPlayer (set_status s g) = blackPlayer g
  /\ chess (set_status s g) = chess g
  /\ currentPlayer (set_status s g) = currentPlayer g
  /\ moveHistory (set_status s g) = moveHistory g
  /\ lastMove (set_status s g) = lastMove g
  /\ terminalReached (set_status s g) = terminalReached g.
Proof. by destruct g. Qed.

Lemma resetGameState_fields g :
  chess (resetGameState g) = newChess
  /\ currentPlayer (resetGameState g) = "w"
  /\ moveHistory (resetGameState g) = []
  /\ lastMove (resetGameState g) = None
  /\ terminalReached (resetGameState g) = false.
Proof. by destruct g. Qed.

(** The session that POST /api/games/:gameId/solo stores. *)
Lemma solo_session_fields e white black g :
  let s := set_status "active"
             (assignPlayer e "black" black
                (assignPlayer e "white" white (resetGameState g))) in
  status s = "active"
  /\ whitePlayer s = Some white
  /\ blackPlayer s = Some black
  /\ chess s = newChess
  /\ currentPlayer s = "w"
  /\ moveHistory s = []
  /\ lastMove s = None
  /\ terminalReached s = false.
Proof.
  intros s. subst s.
  match goal with |- context [set_status "active" ?x] =>
    destruct (set_status_fields "active" x) as (-> & -> & -> & -> & -> & -> & -> & ->)
  end.
  match goal with |- context [assignPlayer e "black" black ?x] =>
    destruct (assignPlayer_frame e "black" black x) as (-> & -> & -> & -> & ->);
    destruct (assignPlayer_black e black x) as [-> ->]
  end.
  destruct (assignPlayer_frame e "white" white (resetGameState g))
    as (-> & -> & -> & -> & ->).
  destruct (assignPlayer_white e white (resetGameState g)) as [-> _].
  destruct (resetGameState_fields g) as (-> & -> & -> & -> & ->).
  repeat split.
Qed.

End Seats.

(** ** Invariants of the runs

    A property of sessions that the elementary updates keep holds of every
    session of every reachable world, in the Map and in the file. *)
Section Invariant.
Context {Chess : Type} {O : RulesOracle Chess} {J : StringOracle}.
Implicit Types (g game : Game Chess) (w : World Chess).
Variable P : Game Chess -> Prop.

Hypothesis P_new : forall e, P (createNewGame e).
Hypothesis P_render : forall g, P g -> P (renderStatus g).
Hypothesis P_assign : forall e color player g,
  token_ok player -> P g -> P (assignPlayer e color player g).
Hypothesis P_commit : forall g c' move from to, P g -> P (commitMove g c' move from to).
Hypothesis P_resign : forall g,
  P g -> status g = "active" -> P (set_terminalReached true (set_status "finished" g)).
Hypothesis P_activate : forall g,
  P g -> is_Some (whitePlayer g) -> is_Some (blackPlayer g) -> status g <> "finished" ->
  P (set_status "active" g).
Hypothesis P_solo : forall e white black g,
  token_ok white -> token_ok black ->
  P (set_status "active"
       (assignPlayer e "black" black (assignPlayer e "white" white (resetGameState g)))).
Hypothesis P_restore : forall e g, P g -> P (restoreGame e (serializeGame g)).

Lemma world_ok_initial : world_ok P initial.
Proof.
  split.
  - intros gameId g H. cbn in H. by rewrite lookup_empty in H.
  - intros parsed gameId data H. discriminate.
Qed.

Lemma world_ok_games_set gameId g w :
  world_ok P w -> P g -> world_ok P (games_set gameId g w).
Proof.
  intros [Hmem Hdisk] Hg. split; [|exact Hdisk].
  intros i g' H. cbn in H.
  destruct (decide (gameId = i)) as [->|Hne].
  - rewrite lookup_insert_eq in H. by injection H as <-.
  - rewrite lookup_insert_ne in H by done. by eapply Hmem.
Qed.

Lemma world_ok_persist w : world_ok P w -> world_ok P (persistGamesToDisk w).
Proof.
  intros [Hmem Hdisk]. split; [exact Hmem|].
  intros parsed gameId data [= <-] H.
  rewrite lookup_fmap in H.
  destruct (delete "__proto__" (games w) !! gameId) as [g|] eqn:E; [|discriminate].
  injection H as <-. exists g. split; [reflexivity|].
  apply lookup_delete_Some in E as [_ E]. by eapply Hmem.
Qed.

Lemma world_ok_getOrCreateGame e gameId w :
  world_ok P w ->
  P (getOrCreateGame e gameId w).1 /\ world_ok P (getOrCreateGame e gameId w).2.
Proof.
  intros Hw. unfold getOrCreateGame.
  destruct (games w !! gameId) as [g|] eqn:E; cbn.
  - split; [|exact Hw]. destruct Hw as [Hmem _]. by eapply Hmem.
  - split; [apply P_new|]. by apply world_ok_games_set.
Qed.

Lemma world_ok_restart e w : world_ok P w -> world_ok P (restart e w).
Proof.
  intros [Hmem Hdisk]. unfold restart, loadGamesFromDisk. cbn.
  destruct (disk w) as [parsed|] eqn:E; cbn.
  - split.
    + intros gameId g H. cbn in H.
      rewrite lookup_union_l in H by apply lookup_empty.
      rewrite lookup_fmap in H.
      destruct (parsed !! gameId) as [data|] eqn:Ed; [|discriminate].
      injection H as <-.
      destruct (Hdisk parsed gameId data eq_refl Ed) as (g & -> & Hg).
      by apply P_restore.
    + intros parsed' gameId data H. cbn in H. by apply Hdisk.
  - split.
    + intros gameId g H. cbn in H. by rewrite lookup_empty in H.
    + intros parsed gameId data H. cbn in H. congruence.
Qed.

Lemma P_frameMove g text : P g -> P (frameMove g text).
Proof.
  intros Hg. unfold frameMove.
  destruct (parseMove (trim text)) as [[[from to] promotion]|]; [|exact Hg].
  destruct (chess_get (chess g) from) as [piece|]; [|exact Hg].
  destruct (match piece with Some p => _ | None => true end); [|exact Hg].
  destruct (chess_move (chess g) from to (or_default promotion "q")); try exact Hg.
  by apply P_commit.
Qed.

Lemma token_ok_createPlayer e (id name : string) (tok : option string) (source : string) :
  (forall t, tok = Some t -> t <> "") -> token_ok (createPlayer e id name tok source).
Proof. intros H t Ht. by apply H. Qed.

Lemma P_frameButton e fid b text g g' :
  P g -> frameButton e fid b text g = SameGame g' -> P g'.
Proof.
  intros Hg. unfold frameButton.
  assert (token_ok (createPlayer e fid ("FID " +:+ fid) None FRAME)) as Hok
    by (apply token_ok_createPlayer; discriminate).
  set (player := createPlayer e fid ("FID " +:+ fid) None FRAME) in *.
  destruct (bool_decide (status g = "waiting")) eqn:Hw.
  { apply bool_decide_eq_true in Hw.
    assert (status g <> "finished") as Hnf by (rewrite Hw; discriminate).
    repeat case_bool_decide; intros [= <-]; try done; try by apply P_assign.
    - apply P_activate; try done; [by apply P_assign| |by apply assignPlayer_not_finished].
      rewrite (proj1 (assignPlayer_white _ _ _)). by eexists.
    - apply P_activate; try done; [by apply P_assign| |by apply assignPlayer_not_finished].
      rewrite (proj1 (assignPlayer_black _ _ _)). by eexists.
    - apply P_activate.
      + apply P_assign; [exact Hok|]. by apply P_assign.
      + rewrite (proj2 (assignPlayer_black _ _ _)), (proj1 (assignPlayer_white _ _ _)).
        by eexists.
      + rewrite (proj1 (assignPlayer_black _ _ _)). by eexists.
      + by do 2 apply assignPlayer_not_finished. }
  destruct (bool_decide (status g = "active")) eqn:Ha.
  { apply bool_decide_eq_true in Ha.
    destruct (bool_decide (b = 1) && truthy_opt text).
    { intros [= <-]. by apply P_frameMove. }
    repeat case_bool_decide; intros [= <-]; try done.
    by apply P_resign. }
  repeat case_bool_decide; intros [= <-]; done.
Qed.

Lemma world_ok_run e op w :
  uuid e <> "" -> world_ok P w -> world_ok P (run e op w).
Proof.
  intros Hu Hw.
  assert (forall id name source, token_ok (createPlayer e id name (Some (uuid e)) source))
    as Hok by (intros; apply token_ok_createPlayer; by intros t [= <-]).
  destruct op as [q|req|req|protocol host gameId| |gameId req|gameId name|]; cbn.
  - unfold get_root.
    set (gameId := or_default q (uuid e)).
    destruct (world_ok_getOrCreateGame e gameId w Hw) as [Hg Hw1].
    destruct (getOrCreateGame e gameId w) as [game w1]. cbn in *.
    apply world_ok_games_set; [done | by apply P_render].
  - unfold post_frame.
    set (gameId := or_default (fr_stateGameId req) _).
    destruct (world_ok_getOrCreateGame e gameId w Hw) as [Hg Hw1].
    destruct (getOrCreateGame e gameId w) as [game w1]. cbn in *.
    match goal with |- world_ok P (match ?x with _ => _ end) =>
      destruct x as [g'|] eqn:Hp end.
    + apply world_ok_games_set; [done|]. apply P_render.
      destruct (fr_buttonIndex req) as [b|].
      * destruct (bool_decide (b = 0)); [by injection Hp as <-|].
        by eapply P_frameButton.
      * by injection Hp as <-.
    + apply world_ok_persist. by apply world_ok_games_set.
  - unfold post_move.
    destruct (mr_gameId req) as [gameId|]; [|done].
    destruct (mr_from req) as [from|]; [|done].
    destruct (mr_to req) as [to|]; [|done].
    destruct (negb (truthy gameId) || negb (truthy from) || negb (truthy to)); [done|].
    destruct (games w !! gameId) as [game|] eqn:Hl; [|done].
    destruct (checkToken game (mr_playerToken req)); [done|].
    unfold tryMove.
    destruct (chess_move (chess game) from to (or_default (mr_promotion req) "q")); try done.
    cbn. apply world_ok_persist, world_ok_games_set; [done|].
    apply P_commit. destruct Hw as [Hmem _]. by eapply Hmem.
  - unfold get_game. by destruct (games w !! gameId).
  - apply world_ok_persist, world_ok_games_set; [done | apply P_new].
  - unfold post_join.
    destruct (games w !! gameId) as [game|] eqn:Hl; [|done].
    repeat (match goal with |- context [if ?c then _ else _] => destruct c end; try done).
    all: cbn; apply world_ok_persist, world_ok_games_set; [done|];
      (apply P_assign; [apply Hok|]); destruct Hw as [Hmem _]; by eapply Hmem.
  - apply world_ok_persist, world_ok_games_set; [done | apply P_solo; apply Hok].
  - by apply world_ok_restart.
Qed.

Lemma world_ok_reachable w : reachable w -> world_ok P w.
Proof.
  induction 1 as [|e op w Hu _ IH]; [apply world_ok_initial | by apply world_ok_run].
Qed.

End Invariant.

(** ** The invariants are kept by the elementary updates *)

Section StatusInvariant.
Context {Chess : Type} {O : RulesOracle Chess} {J : StringOracle}.
Implicit Types (g game : Game Chess) (w : World Chess).










End StatusInvariant.

Section FieldInvariants.
Context {Chess : Type} {O : RulesOracle Chess} {J : StringOracle}.
Implicit Types (g game : Game Chess) (w : World Chess).

Ltac crush_fields :=
  intros;
  repeat match goal with
         | g : Game _ |- _ => destruct g
         end;
  cbn in *;
  repeat (case_bool_decide; cbn in * );
  repeat match goal with
         | |- context [if ?b then _ else _] => destruct b eqn:?; cbn in *
         | |- context [color_code ?c] => destruct c; cbn in *
         end;
  cbn in *; subst; intuition (try congruence; try discriminate; eauto).

Lemma or_default_nonempty (o : option string) (d : string) :
  d <> "" -> or_default o d <> "".
Proof.
  intros Hd. unfold or_default. destruct o as [s|]; [|exact Hd].
  destruct (truthy s) eqn:E; [|exact Hd]. by apply truthy_true.
Qed.

Lemma or_default_some (s d : string) : s <> "" -> or_default (Some s) d = s.
Proof. intros Hs. cbn. apply truthy_true in Hs. by rewrite Hs. Qed.

Lemma named_fields_new e : named_fields (createNewGame e).
Proof. unfold named_fields, createNewGame. crush_fields. Qed.

Lemma named_fields_render g : named_fields g -> named_fields (renderStatus g).
Proof. unfold named_fields, renderStatus. crush_fields. Qed.

Lemma named_fields_assign e color player g :
  token_ok player -> named_fields g -> named_fields (assignPlayer e color player g).
Proof. unfold named_fields, assignPlayer. crush_fields. Qed.

Lemma named_fields_commit g c' move from to :
  named_fields g -> named_fields (commitMove g c' move from to).
Proof. unfold named_fields, commitMove. crush_fields. Qed.

Lemma named_fields_resign g :
  named_fields g -> status g = "active" ->
  named_fields (set_terminalReached true (set_status "finished" g)).
Proof. unfold named_fields. crush_fields. Qed.

Lemma named_fields_activate g :
  named_fields g -> is_Some (whitePlayer g) -> is_Some (blackPlayer g) ->
  status g <> "finished" -> named_fields (set_status "active" g).
Proof. unfold named_fields. crush_fields. Qed.

Lemma named_fields_solo e white black g :
  token_ok white -> token_ok black ->
  named_fields (set_status "active"
     (assignPlayer e "black" black (assignPlayer e "white" white (resetGameState g)))).
Proof.
  destruct (solo_session_fields e white black g) as (Hs & _ & _ & _ & Hp & _).
  unfold named_fields.
  rewrite Hs, Hp. split; discriminate.
Qed.

Lemma named_fields_restore e g :
  named_fields g -> named_fields (restoreGame e (serializeGame g)).
Proof.
  intros _. unfold named_fields, restoreGame. cbn [status currentPlayer].
  split; by apply or_default_nonempty.
Qed.

Lemma named_fields_reachable w gameId g :
  reachable w -> games w !! gameId = Some g -> named_fields g.
Proof.
  intros Hr Hl.
  destruct (world_ok_reachable named_fields named_fields_new named_fields_render
              named_fields_assign named_fields_commit named_fields_resign
              named_fields_activate named_fields_solo named_fields_restore w Hr)
    as [Hmem _].
  by eapply Hmem.
Qed.

Context {L : OracleLaws O}.

Lemma turn_mirrors_new e : turn_mirrors (createNewGame e).
Proof. unfold turn_mirrors. cbn. by rewrite turn_newChess. Qed.

Lemma turn_mirrors_render g : turn_mirrors g -> turn_mirrors (renderStatus g).
Proof. unfold turn_mirrors, renderStatus. crush_fields. Qed.

Lemma turn_mirrors_assign e color player g :
  token_ok player -> turn_mirrors g -> turn_mirrors (assignPlayer e color player g).
Proof. unfold turn_mirrors, assignPlayer. crush_fields. Qed.

Lemma turn_mirrors_commit g c' move from to :
  turn_mirrors g -> turn_mirrors (commitMove g c' move from to).
Proof.
  intros _. unfold turn_mirrors.
  by rewrite commitMove_chess, commitMove_currentPlayer.
Qed.

Lemma turn_mirrors_resign g :
  turn_mirrors g -> status g = "active" ->
  turn_mirrors (set_terminalReached true (set_status "finished" g)).
Proof. unfold turn_mirrors. by destruct g. Qed.

Lemma turn_mirrors_activate g :
  turn_mirrors g -> is_Some (whitePlayer g) -> is_Some (blackPlayer g) ->
  status g <> "finished" -> turn_mirrors (set_status "active" g).
Proof. unfold turn_mirrors. by destruct g. Qed.

Lemma turn_mirrors_solo e white black g :
  token_ok white -> token_ok black ->
  turn_mirrors (set_status "active"
     (assignPlayer e "black" black (assignPlayer e "white" white (resetGameState g)))).
Proof.
  destruct (solo_session_fields e white black g) as (_ & _ & _ & Hc & Hp & _).
  unfold turn_mirrors.
  by rewrite Hc, Hp, turn_newChess.
Qed.

(** The position that [restoreGame] loads from a snapshot taken by
    [serializeGame]. *)
Lemma restoreGame_serializeGame_chess e g :
  chess_fen (chess (restoreGame e (serializeGame g))) = chess_fen (chess g)
  /\ chess_turn (chess (restoreGame e (serializeGame g))) = chess_turn (chess g).
Proof.
  unfold restoreGame. cbn.
  assert (truthy (chess_fen (chess g)) = true) as ->
    by (apply truthy_true, fen_nonempty).
  destruct (load_fen (chess g)) as (c' & -> & Hfen & Hturn). by split.
Qed.

Lemma turn_mirrors_restore e g :
  turn_mirrors g -> turn_mirrors (restoreGame e (serializeGame g)).
Proof.
  unfold turn_mirrors. intros Hg.
  rewrite (proj2 (restoreGame_serializeGame_chess e g)).
  unfold restoreGame. cbn [currentPlayer serializeGame s_currentPlayer].
  rewrite or_default_some; [exact Hg|].
  rewrite Hg. by destruct (chess_turn (chess g)).
Qed.

(** On every reachable world [turn] mirrors the side to move. *)
Lemma turn_mirrors_reachable w gameId g :
  reachable w -> games w !! gameId = Some g -> turn_mirrors g.
Proof.
  intros Hr Hl.
  destruct (world_ok_reachable turn_mirrors turn_mirrors_new turn_mirrors_render
              turn_mirrors_assign turn_mirrors_commit turn_mirrors_resign
              turn_mirrors_activate turn_mirrors_solo turn_mirrors_restore w Hr)
    as [Hmem _].
  by eapply Hmem.
Qed.

End FieldInvariants.

(** ** The stand-in oracle keeps the laws *)

Lemma PawnOracle_load_print (l : list PawnOracle.Cell) (s : Color) :
  PawnOracle.load (PawnOracle.printCells l (String " "%char (color_code s)))
  = Some {| PawnOracle.cells := l; PawnOracle.side := s |}.
Proof.
  induction l as [|c l IH]; cbn.
  - by destruct s.
  - rewrite IH. by destruct c.
Qed.

Lemma PawnOracle_laws : OracleLaws PawnOracle.oracle.
Proof.
  split.
  - reflexivity.
  - intros [l s]. unfold chess_fen; cbn. unfold PawnOracle.fen; cbn.
    destruct l; discriminate.
  - intros [l s]. exists {| PawnOracle.cells := l; PawnOracle.side := s |}.
    split; [apply PawnOracle_load_print | done].
Qed.

(** ** Tokens on reachable worlds are not empty *)

Section Tokens.
Context {Chess : Type} {O : RulesOracle Chess} {J : StringOracle}.
Implicit Types (g game : Game Chess) (w : World Chess).

(** A property of the two seats is kept by an update that keeps the seats. *)
Lemma tokens_nonempty_same_seats g g' :
  whitePlayer g' = whitePlayer g -> blackPlayer g' = blackPlayer g ->
  tokens_nonempty g -> tokens_nonempty g'.
Proof.
  intros Hw Hb Hg p [E|E]; apply Hg; [left | right]; congruence.
Qed.

Lemma tokens_nonempty_new e : tokens_nonempty (createNewGame e).
Proof. intros p [E|E]; discriminate E. Qed.

Lemma tokens_nonempty_render g : tokens_nonempty g -> tokens_nonempty (renderStatus g).
Proof.
  apply tokens_nonempty_same_seats; unfold renderStatus;
    repeat (match goal with |- context [if ?b then _ else _] => destruct b end);
    reflexivity.
Qed.

Lemma tokens_nonempty_assign e color player g :
  token_ok player -> tokens_nonempty g -> tokens_nonempty (assignPlayer e color player g).
Proof.
  intros Hp Hg p. unfold bound, assignPlayer.
  repeat case_bool_decide; cbn; intros [E|E];
    try (injection E as <-; exact Hp); apply Hg; first [by left | by right].
Qed.

Lemma tokens_nonempty_commit g c' move from to :
  tokens_nonempty g -> tokens_nonempty (commitMove g c' move from to).
Proof.
  apply tokens_nonempty_same_seats; apply commitMove_seats.
Qed.

Lemma tokens_nonempty_resign g :
  tokens_nonempty g -> status g = "active" ->
  tokens_nonempty (set_terminalReached true (set_status "finished" g)).
Proof. intros Hg _. by apply (tokens_nonempty_same_seats g). Qed.

Lemma tokens_nonempty_activate g :
  tokens_nonempty g -> is_Some (whitePlayer g) -> is_Some (blackPlayer g) ->
  status g <> "finished" -> tokens_nonempty (set_status "active" g).
Proof. intros Hg _ _ _. by apply (tokens_nonempty_same_seats g). Qed.

Lemma tokens_nonempty_solo e white black g :
  token_ok white -> token_ok black ->
  tokens_nonempty (set_status "active"
     (assignPlayer e "black" black (assignPlayer e "white" white (resetGameState g)))).
Proof.
  intros Hw Hb p.
  destruct (solo_session_fields e white black g) as (_ & Ew & Eb & _).
  unfold bound. rewrite Ew, Eb. by intros [[= <-]|[= <-]].
Qed.

Lemma tokens_nonempty_restore e g :
  tokens_nonempty g -> tokens_nonempty (restoreGame e (serializeGame g)).
Proof. by apply tokens_nonempty_same_seats. Qed.

Lemma tokens_nonempty_reachable w (gameId : string) g :
  reachable w -> games w !! gameId = Some g -> tokens_nonempty g.
Proof.
  intros Hr Hl.
  destruct (world_ok_reachable tokens_nonempty tokens_nonempty_new tokens_nonempty_render
              tokens_nonempty_assign tokens_nonempty_commit tokens_nonempty_resign
              tokens_nonempty_activate tokens_nonempty_solo tokens_nonempty_restore w Hr)
    as [Hmem _].
  by eapply Hmem.
Qed.

(** On a reachable world a binding carries a token as soon as its token is
    not [null]. *)
Lemma token_bearing_reachable w (gameId : string) g :
  reachable w -> games w !! gameId = Some g ->
  (token_bearing g <-> exists p, bound g p /\ token p <> None).
Proof.
  intros Hr Hl. pose proof (tokens_nonempty_reachable w gameId g Hr Hl) as Hne.
  split.
  - intros (p & Hb & t & Ht & _). exists p. split; [assumption | congruence].
  - intros (p & Hb & Ht). exists p. split; [assumption|].
    destruct (token p) as [t|] eqn:E; [|done].
    exists t. split; [assumption|]. by apply (Hne p Hb).
Qed.

End Tokens.

(** ** The store, solo mode, snapshots and the public view *)

Section StoreClaims.
Context {Chess : Type} {O : RulesOracle Chess} {J : StringOracle}.
Implicit Types (g game : Game Chess) (w : World Chess).

Lemma lookup_stored (gameId : string) g w :
  games (persistGamesToDisk (games_set gameId g w)) !! gameId = Some g.
Proof. cbn. apply lookup_insert_eq. Qed.

(** An accepted move, whatever the status. *)
Lemma post_move_accepted w (req : MoveReq) (gameId from to : string) game
    (c' : Chess) (move : Move) :
  mr_gameId req = Some gameId -> mr_from req = Some from -> mr_to req = Some to ->
  gameId <> "" -> from <> "" -> to <> "" ->
  games w !! gameId = Some game ->
  checkToken game (mr_playerToken req) = None ->
  chess_move (chess game) from to (or_default (mr_promotion req) "q") = Moved c' move ->
  post_move req w =
    (MoveOk move (chess_fen c') (status (commitMove game c' move from to))
       (moveHistory (commitMove game c' move from to)),
     persistGamesToDisk (games_set gameId (commitMove game c' move from to) w)).
Proof.
  intros Hg Hf Ht Hgn Hfn Htn Hl Hcheck Hmove.
  rewrite (post_move_reaches_check w req gameId from to game) by assumption.
  rewrite Hcheck. unfold tryMove. by rewrite Hmove.
Qed.

(** C5: POST /api/games/:gameId/solo answers with the generated token and
    stores a session whose two seats carry that token, at the initial
    position, with an empty history, no last move, White to move and status
    active, whatever the session was before. A move request that presents
    this token passes the token check whichever side is to move; so, with an
    oracle that plays e2-e4 as "e4" and then e7-e5 as "e5", the two requests
    succeed and the history is ["e4", "e5"]. *)
Theorem solo_resets_and_authorizes (e : Env) (gameId : string) (name : option string)
    w (c1 c2 : Chess) (m1 m2 : Move) :
  gameId <> "" ->
  chess_move newChess "e2" "e4" "q" = Moved c1 m1 -> m_san m1 = "e4" ->
  chess_move c1 "e7" "e5" "q" = Moved c2 m2 -> m_san m2 = "e5" ->
  let tok := uuid e in
  let e4 := {| mr_gameId := Some gameId; mr_from := Some "e2"; mr_to := Some "e4";
               mr_promotion := None; mr_playerToken := Some tok |} in
  let e5 := {| mr_gameId := Some gameId; mr_from := Some "e7"; mr_to := Some "e5";
               mr_promotion := None; mr_playerToken := Some tok |} in
  let w1 := (post_solo e gameId name w).2 in
  let w2 := (post_move e4 w1).2 in
  let w3 := (post_move e5 w2).2 in
  (exists soloName, (post_solo e gameId name w).1 = SoloOk tok soloName)
  /\ (exists game white black,
        games w1 !! gameId = Some game
        /\ whitePlayer game = Some white /\ blackPlayer game = Some black
        /\ token white = Some tok /\ token black = Some tok
        /\ chess game = newChess /\ moveHistory game = [] /\ lastMove game = None
        /\ status game = "active" /\ currentPlayer game = "w"
        /\ (forall g, whitePlayer g = Some white -> blackPlayer g = Some black ->
              checkToken g (Some tok) = None))
  /\ (exists fen st, (post_move e4 w1).1 = MoveOk m1 fen st ["e4"])
  /\ (exists fen st, (post_move e5 w2).1 = MoveOk m2 fen st ["e4"; "e5"])
  /\ (exists game3, games w3 !! gameId = Some game3 /\ moveHistory game3 = ["e4"; "e5"]).
Proof.
  intros Hid Hm1 Hs1 Hm2 Hs2 tok e4 e5 w1 w2 w3.
  set (soloName := formatPlayerName name "Solo Player").
  set (white := createPlayer e (tok +:+ "-white") (soloName +:+ " (White)") (Some tok) WEB).
  set (black := createPlayer e (tok +:+ "-black") (soloName +:+ " (Black)") (Some tok) WEB).
  set (before := match games w !! gameId with Some g => g | None => createNewGame e end).
  pose (game1 := set_status "active"
          (assignPlayer e "black" black (assignPlayer e "white" white (resetGameState before)))).
  assert (w1 = persistGamesToDisk (games_set gameId game1 w)) as Hw1 by reflexivity.
  destruct (solo_session_fields e white black before)
    as (Hst & Hwh & Hbl & Hch & Hcp & Hh & Hlm & _).
  fold game1 in Hst, Hwh, Hbl, Hch, Hcp, Hh, Hlm.
  clearbody game1. clearbody w1.
  assert (forall g, whitePlayer g = Some white -> blackPlayer g = Some black ->
                    checkToken g (Some tok) = None) as Hauth.
  { intros g Hw Hb. by apply (checkToken_both_seats g tok white black). }
  assert (games w1 !! gameId = Some game1) as Hl1 by (rewrite Hw1; apply lookup_stored).
  pose (game2 := commitMove game1 c1 m1 "e2" "e4").
  assert (post_move e4 w1 =
            (MoveOk m1 (chess_fen c1) (status game2) (moveHistory game2),
             persistGamesToDisk (games_set gameId game2 w1))) as He4.
  { apply (post_move_accepted w1 e4 gameId "e2" "e4" game1 c1 m1);
      try reflexivity; try discriminate; try assumption.
    - by apply Hauth.
    - by rewrite Hch. }
  assert (moveHistory game2 = ["e4"]) as Hh2.
  { unfold game2. by rewrite commitMove_moveHistory, Hh, Hs1. }
  destruct (commitMove_seats game1 c1 m1 "e2" "e4") as [Hw2 Hb2].
  fold game2 in Hw2, Hb2.
  assert (chess game2 = c1) as Hc2 by apply commitMove_chess.
  clearbody game2.
  assert (w2 = persistGamesToDisk (games_set gameId game2 w1)) as Hw2eq
    by (unfold w2; by rewrite He4).
  clearbody w2.
  assert (games w2 !! gameId = Some game2) as Hl2 by (rewrite Hw2eq; apply lookup_stored).
  pose (game3 := commitMove game2 c2 m2 "e7" "e5").
  assert (post_move e5 w2 =
            (MoveOk m2 (chess_fen c2) (status game3) (moveHistory game3),
             persistGamesToDisk (games_set gameId game3 w2))) as He5.
  { apply (post_move_accepted w2 e5 gameId "e7" "e5" game2 c2 m2);
      try reflexivity; try discriminate; try assumption.
    - apply Hauth; congruence.
    - by rewrite Hc2. }
  assert (moveHistory game3 = ["e4"; "e5"]) as Hh3.
  { unfold game3. by rewrite commitMove_moveHistory, Hh2, Hs2. }
  clearbody game3.
  split_and!.
  - by exists soloName.
  - exists game1, white, black. split_and!; try assumption; reflexivity.
  - exists (chess_fen c1), (status game2). by rewrite He4, Hh2.
  - exists (chess_fen c2), (status game3). by rewrite He5, Hh3.
  - exists game3. split; [|assumption].
    unfold w3. rewrite He5. apply lookup_stored.
Qed.

(** C6: [getOrCreateGame] is idempotent. A second call, at any later time,
    returns the session of the first call and the same store; on an id that
    is already there the session is returned as it is and the store is not
    touched; on an absent id the session stored is a new one: status
    waiting, the oracle's initial position, no player on either seat. *)
Theorem getOrCreateGame_idempotent (e e' : Env) (gameId : string) w :
  let r := getOrCreateGame e gameId w in
  getOrCreateGame e' gameId r.2 = r
  /\ games r.2 !! gameId = Some r.1
  /\ (forall g, games w !! gameId = Some g -> r = (g, w))
  /\ (games w !! gameId = None ->
        r.1 = createNewGame e
        /\ status r.1 = "waiting" /\ chess r.1 = newChess
        /\ whitePlayer r.1 = None /\ blackPlayer r.1 = None
        /\ moveHistory r.1 = []
        /\ games r.2 = <[gameId := r.1]> (games w) /\ disk r.2 = disk w).
Proof.
  intros r. subst r. unfold getOrCreateGame.
  destruct (games w !! gameId) as [g|] eqn:E; cbn.
  - rewrite E. split_and!; try done. by intros g' [= <-].
  - rewrite lookup_insert_eq. split_and!; try done.
Qed.

(** C10: GET /game/:gameId on a session that exists answers with the public
    view and leaves the world, so every field of every session, as it was;
    in the view, [players.white] and [players.black] are [null] or objects
    with no [token] key. *)
Theorem inspect_is_a_pure_read (protocol host gameId : string) w game :
  games w !! gameId = Some game ->
  exists body,
    get_game protocol host gameId w = (InspectOk body, w)
    /\ body = viewGame protocol host gameId game
    /\ exists players white black,
         get_key "players" body = Some players
         /\ get_key "white" players = Some white
         /\ get_key "black" players = Some black
         /\ has_key "token" white = false
         /\ has_key "token" black = false.
Proof.
  intros Hl. exists (viewGame protocol host gameId game).
  unfold get_game. rewrite Hl. split_and!; try reflexivity.
  exists (JObj [("white", getPlayerDisplay game "white");
                ("black", getPlayerDisplay game "black")]),
         (sanitizePlayer (whitePlayer game)), (sanitizePlayer (blackPlayer game)).
  split_and!; try reflexivity.
  - by destruct (whitePlayer game).
  - by destruct (blackPlayer game).
Qed.


(** C9 fails on the code: when the file holds a record whose [fen] the
    oracle refuses and whose [currentPlayer] is ['b'], the session that a
    restart loads has the initial position, where White is to move, next to
    [currentPlayer = 'b']. *)
Theorem restore_invalid_position_diverges (e : Env) w (parsed : gmap string Saved)
    (gameId fen : string) (data : Saved) :
  chess_turn newChess = White ->
  disk w = Some parsed -> parsed !! gameId = Some data ->
  s_fen data = Some fen -> chess_load fen = None ->
  s_currentPlayer data = Some "b" ->
  exists g,
    games (restart e w) !! gameId = Some g
    /\ chess g = newChess
    /\ currentPlayer g = "b"
    /\ color_code (chess_turn (chess g)) = "w".
Proof.
  intros Hturn Hdisk Hdata Hfen Hload Hcp.
  exists (restoreGame e data). split_and!.
  - unfold restart, loadGamesFromDisk. cbn. rewrite Hdisk. cbn.
    rewrite lookup_union_l by apply lookup_empty.
    by rewrite lookup_fmap, Hdata.
  - unfold restoreGame. cbn. rewrite Hfen, Hload. by destruct (truthy fen).
  - unfold restoreGame. cbn. by rewrite Hcp.
  - unfold restoreGame. cbn. rewrite Hfen, Hload.
    destruct (truthy fen); by rewrite Hturn.
Qed.

(** What a restart finds under an id: the record of the file, restored. *)
Lemma restart_lookup (e : Env) w (parsed : gmap string Saved) (gameId : string) :
  disk w = Some parsed ->
  games (restart e w) !! gameId = restoreGame e <$> parsed !! gameId.
Proof.
  intros Hd. unfold restart, loadGamesFromDisk. cbn. rewrite Hd. cbn.
  rewrite lookup_union_l by apply lookup_empty. by rewrite lookup_fmap.
Qed.

(** The record that the snapshot holds under an id. *)
Lemma snapshot_lookup w (gameId : string) :
  (serializeGame <$> delete "__proto__" (games w)) !! gameId
  = if bool_decide (gameId = "__proto__") then None
    else serializeGame <$> games w !! gameId.
Proof.
  rewrite lookup_fmap. case_bool_decide as Hp.
  - subst gameId. by rewrite lookup_delete_eq.
  - by rewrite lookup_delete_ne.
Qed.

(** C7 fails on the code for a session whose id is ["__proto__"]: the
    snapshot that [persistGamesToDisk] writes has no record for it, and a
    process that starts from that file has no session under the id, so its
    position, status, turn and move history are not restored. *)
Theorem snapshot_drops_proto_session (e : Env) w (w' : World Chess) game :
  games w !! "__proto__" = Some game ->
  disk w' = disk (persistGamesToDisk w) ->
  (exists parsed,
     disk (persistGamesToDisk w) = Some parsed /\ parsed !! "__proto__" = None)
  /\ games (restart e w') !! "__proto__" = None.
Proof.
  intros Hl Hd. split.
  - eexists. split; [reflexivity|]. rewrite snapshot_lookup.
    by rewrite bool_decide_eq_true_2.
  - rewrite (restart_lookup e w' _ "__proto__" Hd), snapshot_lookup.
    by rewrite bool_decide_eq_true_2.
Qed.

End StoreClaims.

(** ** The store on concrete requests *)

Lemma created_reachable : reachable Demo.created.
Proof. exact (reach_step Demo.env0 PostGames _ ltac:(discriminate) reach_initial). Qed.

Lemma solo_reachable : reachable Demo.solo.
Proof.
  exact (reach_step Demo.env1 (PostSolo "0b6f7c1e" (Some "Solo")) _
           ltac:(discriminate) created_reachable).
Qed.

Lemma start_e4 : PawnOracle.move PawnOracle.start "e2" "e4" "q" = Moved Demo.after_e4 Demo.move_e4.
Proof. vm_compute. reflexivity. Qed.

Lemma e4_then_e5 : PawnOracle.move Demo.after_e4 "e7" "e5" "q" = Moved Demo.after_e4_e5 Demo.move_e5.
Proof. vm_compute. reflexivity. Qed.

Lemma solo_resets_and_authorizes_witness :
  (exists game white black,
     games Demo.solo !! "0b6f7c1e" = Some game
     /\ whitePlayer game = Some white /\ blackPlayer game = Some black
     /\ token white = Some "77aa01d2" /\ token black = Some "77aa01d2"
     /\ chess game = PawnOracle.start /\ moveHistory game = [] /\ lastMove game = None
     /\ status game = "active" /\ currentPlayer game = "w")
  /\ exists game3,
       games (post_move (O:=PawnOracle.oracle)
                (Demo.moveReq "0b6f7c1e" "e7" "e5" (Some "77aa01d2"))
                (post_move (O:=PawnOracle.oracle)
                   (Demo.moveReq "0b6f7c1e" "e2" "e4" (Some "77aa01d2")) Demo.solo).2).2
         !! "0b6f7c1e" = Some game3
       /\ moveHistory game3 = ["e4"; "e5"].
Proof.
  destruct (solo_resets_and_authorizes (O:=PawnOracle.oracle) Demo.env1 "0b6f7c1e"
              (Some "Solo") Demo.created Demo.after_e4 Demo.after_e4_e5
              Demo.move_e4 Demo.move_e5
              ltac:(discriminate) start_e4 eq_refl e4_then_e5 eq_refl)
    as (_ & (game & white & black & Hl & Hw & Hb & Htw & Htb & Hc & Hh & Hlm & Hs & Hp & _)
        & _ & _ & Hlast).
  split; [|exact Hlast].
  exists game, white, black. repeat (split; [assumption|]). assumption.
Defined.

(** A session under the id ["__proto__"], started in solo mode on a fresh
    deployment, is in the Map and is gone after a restart. *)
Lemma proto_reachable : reachable ProtoDemo.solo.
Proof.
  exact (reach_step Demo.env1 (PostSolo "__proto__" (Some "Solo")) _
           ltac:(discriminate) reach_initial).
Qed.

Lemma proto_lookup : games ProtoDemo.solo !! "__proto__" = Some ProtoDemo.soloGame.
Proof. vm_compute. reflexivity. Qed.

Lemma snapshot_drops_proto_session_witness :
  reachable ProtoDemo.solo
  /\ games ProtoDemo.solo !! "__proto__" = Some ProtoDemo.soloGame
  /\ status ProtoDemo.soloGame = "active"
  /\ (exists parsed,
        disk (persistGamesToDisk ProtoDemo.solo) = Some parsed
        /\ parsed !! "__proto__" = None)
  /\ games (restart Demo.env0 (persistGamesToDisk ProtoDemo.solo)) !! "__proto__" = None.
Proof.
  split; [exact proto_reachable|]. split; [exact proto_lookup|].
  split; [vm_compute; reflexivity|].
  exact (snapshot_drops_proto_session (O:=PawnOracle.oracle) Demo.env0 ProtoDemo.solo
           (persistGamesToDisk ProtoDemo.solo) ProtoDemo.soloGame proto_lookup eq_refl).
Defined.


Lemma restore_invalid_position_diverges_witness :
  exists g,
    games (restart (O:=PawnOracle.oracle) Demo.env0
             {| games := ∅; disk := Some {[ "0b6f7c1e" := Demo.corrupt ]} |})
      !! "0b6f7c1e" = Some g
    /\ chess g = PawnOracle.start
    /\ currentPlayer g = "b"
    /\ color_code (PawnOracle.side (chess g)) = "w".
Proof.
  refine (restore_invalid_position_diverges (O:=PawnOracle.oracle) Demo.env0
            {| games := ∅; disk := Some {[ "0b6f7c1e" := Demo.corrupt ]} |}
            {[ "0b6f7c1e" := Demo.corrupt ]} "0b6f7c1e" "not a position" Demo.corrupt
            eq_refl eq_refl _ eq_refl _ eq_refl).
  - vm_compute. reflexivity.
  - vm_compute. reflexivity.
Defined.

Lemma inspect_is_a_pure_read_witness :
  exists body,
    get_game "https" "chessgrid.example" "0b6f7c1e" Demo.solo = (InspectOk body, Demo.solo)
    /\ body = viewGame "https" "chessgrid.example" "0b6f7c1e" Demo.soloGame
    /\ exists players white black,
         get_key "players" body = Some players
         /\ get_key "white" players = Some white
         /\ get_key "black" players = Some black
         /\ has_key "token" white = false
         /\ has_key "token" black = false.
Proof.
  exact (inspect_is_a_pure_read (O:=PawnOracle.oracle) "https" "chessgrid.example"
           "0b6f7c1e" Demo.solo Demo.soloGame solo_lookup).
Defined.

(** * More of the server

    Properties of the routes and helpers that the claims above leave out. *)

(** ** Move texts and the cells of the board *)

(** Case folding on one character. *)
Lemma lower_idempotent (c : ascii) : lower (lower c) = lower c.
Proof. by destruct c as [[] [] [] [] [] [] [] []]. Qed.

Lemma is_rank_lower (c : ascii) : is_rank c = true -> lower c = c.
Proof. destruct c as [[] [] [] [] [] [] [] []]; vm_compute; done. Qed.

Lemma is_file_lower (c : ascii) : is_file (lower c) = is_file c.
Proof. unfold is_file. by rewrite lower_idempotent. Qed.

Lemma is_rank_of_lower (c : ascii) : is_rank (lower c) = is_rank c.
Proof. by destruct c as [[] [] [] [] [] [] [] []]. Qed.

Lemma is_promotion_lower (c : ascii) : is_promotion (lower c) = is_promotion c.
Proof. unfold is_promotion. by rewrite lower_idempotent. Qed.

Lemma is_promotion_letter_lower (c : ascii) :
  is_promotion c = true -> is_promotion_letter (String (lower c) EmptyString) = true.
Proof. destruct c as [[] [] [] [] [] [] [] []]; vm_compute; done. Qed.

Lemma is_square_chars (f r : ascii) :
  is_file f = true -> is_rank r = true ->
  is_square (String (lower f) (String r EmptyString)) = true.
Proof.
  unfold is_file, is_rank, is_square. intros Hf Hr.
  apply andb_true_iff in Hf as [Hf1 Hf2]. apply andb_true_iff in Hr as [Hr1 Hr2].
  by rewrite Hf1, Hf2, Hr1, Hr2.
Qed.

(** X2: a text that the move pattern of the frame accepts has four or five
    characters; the squares read from it are lower-case squares, the
    promotion is one of q, r, b, n, and together they spell the text in
    lower case. Upper and lower case are read alike. *)
Theorem parseMove_reads_squares (text from to : string) (promotion : option string) :
  parseMove text = Some (from, to, promotion) ->
  is_square from = true /\ is_square to = true
  /\ (forall p, promotion = Some p -> is_promotion_letter p = true)
  /\ lowerAscii text = from +:+ to +:+ default "" promotion
  /\ parseMove (lowerAscii text) = Some (from, to, promotion).
Proof.
  unfold parseMove.
  destruct text as [|f1 [|r1 [|f2 [|r2 rest]]]]; try discriminate.
  destruct (is_file f1) eqn:Hf1; cbn; [|discriminate].
  destruct (is_rank r1) eqn:Hr1; cbn; [|discriminate].
  destruct (is_file f2) eqn:Hf2; cbn; [|discriminate].
  destruct (is_rank r2) eqn:Hr2; cbn; [|discriminate].
  rewrite !is_file_lower, !is_rank_of_lower, Hf1, Hr1, Hf2, Hr2. cbn.
  rewrite !lower_idempotent, (is_rank_lower r1 Hr1), (is_rank_lower r2 Hr2).
  destruct rest as [|p [|q rest]].
  - intros [= <- <- <-]. cbn.
    split_and!; try done; by apply is_square_chars.
  - destruct (is_promotion p) eqn:Hp; [|discriminate].
    intros [= <- <- <-]. cbn. rewrite is_promotion_lower, Hp, lower_idempotent.
    split_and!; try done; try by apply is_square_chars.
    intros ? [= <-]. by apply is_promotion_letter_lower.
  - discriminate.
Qed.

Lemma is_square_inv (s : string) :
  is_square s = true ->
  exists f r, s = String f (String r EmptyString)
    /\ (97 <= nat_of_ascii f <= 104)%nat /\ (49 <= nat_of_ascii r <= 56)%nat.
Proof.
  destruct s as [|f [|r [|]]]; try discriminate. unfold is_square. cbv zeta.
  rewrite !andb_true_iff, !Nat.leb_le. intros. exists f, r. split; [done | lia].
Qed.

Lemma file_char (f : ascii) :
  (97 <= nat_of_ascii f <= 104)%nat -> is_file f = true /\ lower f = f.
Proof. destruct f as [[] [] [] [] [] [] [] []]; vm_compute; intros; (done || lia). Qed.

Lemma rank_char (r : ascii) :
  (49 <= nat_of_ascii r <= 56)%nat -> is_rank r = true.
Proof. destruct r as [[] [] [] [] [] [] [] []]; vm_compute; intros; (done || lia). Qed.

(** X3: every move written as a from-square, a to-square and an optional
    promotion letter, in lower case, is read back by the move pattern as
    exactly these. *)
Theorem parseMove_roundtrip (from to : string) :
  is_square from = true -> is_square to = true ->
  parseMove (from +:+ to) = Some (from, to, None)
  /\ forall p, is_promotion_letter p = true ->
       parseMove (from +:+ to +:+ p) = Some (from, to, Some p).
Proof.
  intros Hf Ht.
  apply is_square_inv in Hf as (f1 & r1 & -> & Hf1 & Hr1).
  apply is_square_inv in Ht as (f2 & r2 & -> & Hf2 & Hr2).
  destruct (file_char f1 Hf1) as [Ef1 Lf1]. destruct (file_char f2 Hf2) as [Ef2 Lf2].
  pose proof (rank_char r1 Hr1) as Er1. pose proof (rank_char r2 Hr2) as Er2.
  split.
  - cbv [String.append parseMove]. cbv beta iota zeta.
    by rewrite Ef1, Er1, Ef2, Er2, Lf1, Lf2.
  - intros p Hp. unfold is_promotion_letter in Hp. apply bool_decide_eq_true in Hp.
    repeat (apply elem_of_cons in Hp as [->|Hp];
            [cbv [String.append parseMove]; cbv beta iota zeta;
             by rewrite Ef1, Er1, Ef2, Er2, Lf1, Lf2|]).
    by apply elem_of_nil in Hp.
Qed.

Lemma squareName_is_square (row col : nat) :
  (row < 8)%nat -> (col < 8)%nat -> is_square (squareName row col) = true.
Proof.
  intros Hr Hc. unfold squareName, is_square.
  rewrite !nat_ascii_embedding by lia.
  rewrite !andb_true_iff, !Nat.leb_le. lia.
Qed.

(** X4: the 64 cells of the drawing carry the 64 squares: a cell inside the
    board is named by a square, two different cells have different names,
    and every square (so every square a frame move can name) is the name of
    a cell. *)
Theorem squareName_bijective :
  (forall row col, (row < 8)%nat -> (col < 8)%nat -> is_square (squareName row col) = true)
  /\ (forall row col row' col',
        (row < 8)%nat -> (col < 8)%nat -> (row' < 8)%nat -> (col' < 8)%nat ->
        squareName row col = squareName row' col' -> row = row' /\ col = col')
  /\ (forall s, is_square s = true ->
        exists row col, (row < 8)%nat /\ (col < 8)%nat /\ squareName row col = s).
Proof.
  split_and!.
  - apply squareName_is_square.
  - intros row col row' col' Hr Hc Hr' Hc'. unfold squareName. intros [= E1 E2].
    apply (f_equal nat_of_ascii) in E1, E2.
    rewrite !nat_ascii_embedding in E1, E2 by lia. lia.
  - intros s Hs. apply is_square_inv in Hs as (f & r & -> & Hf & Hr).
    exists (56 - nat_of_ascii r)%nat, (nat_of_ascii f - 97)%nat.
    split_and!; try lia. unfold squareName.
    replace (97 + (nat_of_ascii f - 97))%nat with (nat_of_ascii f) by lia.
    replace (48 + (8 - (56 - nat_of_ascii r)))%nat with (nat_of_ascii r) by lia.
    by rewrite !ascii_nat_embedding.
Qed.

(** X5: the fill of a cell: the highlight colour when the cell is among the
    highlighted squares, whatever else holds; otherwise the last-move colour
    when the cell is the from or the to of the last move; otherwise the
    board colour, which differs between a cell and its right and lower
    neighbours. *)
Theorem squareFill_precedence (row col : nat) (highlightedSquares : list string)
    (lastMove : option (string * string)) :
  (squareName row col ∈ highlightedSquares ->
     squareFill row col highlightedSquares lastMove = "#f6f769")
  /\ (squareName row col ∉ highlightedSquares ->
      forall from to, lastMove = Some (from, to) ->
        from = squareName row col \/ to = squareName row col ->
        squareFill row col highlightedSquares lastMove = "#cdd26a")
  /\ (squareName row col ∉ highlightedSquares ->
      (forall from to, lastMove = Some (from, to) ->
         from <> squareName row col /\ to <> squareName row col) ->
      squareFill row col highlightedSquares lastMove
        = (if isLight row col then "#f0d9b5" else "#b58863"))
  /\ isLight row (S col) = negb (isLight row col)
  /\ isLight (S row) col = negb (isLight row col).
Proof.
  unfold squareFill. split_and!.
  - intros Hin. by rewrite bool_decide_eq_true_2.
  - intros Hout from to -> Hor. rewrite (bool_decide_eq_false_2 _ Hout).
    destruct Hor as [->| ->].
    + by rewrite bool_decide_eq_true_2.
    + rewrite (bool_decide_eq_true_2 (squareName row col = squareName row col)) by done.
      by rewrite orb_true_r.
  - intros Hout Hno. rewrite (bool_decide_eq_false_2 _ Hout).
    destruct lastMove as [[from to]|]; [|done].
    destruct (Hno from to eq_refl) as [H1 H2].
    by rewrite !bool_decide_eq_false_2.
  - unfold isLight. replace (row + S col)%nat with (S (row + col)) by lia.
    generalize (row + col)%nat. intros n.
    rewrite <- Nat.add_1_r, Nat.Div0.add_mod by lia.
    pose proof (Nat.mod_upper_bound n 2 ltac:(lia)).
    destruct (n mod 2)%nat as [|[|k]] eqn:E; cbn; (done || lia).
  - unfold isLight. replace (S row + col)%nat with (S (row + col)) by lia.
    generalize (row + col)%nat. intros n.
    rewrite <- Nat.add_1_r, Nat.Div0.add_mod by lia.
    pose proof (Nat.mod_upper_bound n 2 ltac:(lia)).
    destruct (n mod 2)%nat as [|[|k]] eqn:E; cbn; (done || lia).
Qed.

(** ** POST /api/games/:gameId/join *)

Section JoinProofs.
Context {Chess : Type} {O : RulesOracle Chess} {J : StringOracle}.
Implicit Types (g game : Game Chess) (w : World Chess).

Lemma post_join_by_target e (gameId : string) (req : JoinReq) w g :
  games w !! gameId = Some g ->
  match joinTarget e req g with
  | Some color =>
      post_join e gameId req w
      = (JoinOk color (uuid e) (sanitizePlayer (Some (joiner e req color))),
         persistGamesToDisk (games_set gameId (assignPlayer e color (joiner e req color) g) w))
  | None => post_join e gameId req w = (joinRefusal req g, w)
  end.
Proof.
  intros Hl. unfold joinTarget, joinRefusal, post_join, joiner, askedColor. rewrite Hl.
  generalize (toLowerCase (shown_or (jr_color req) "random")). intros c.
  assert (forall o : option Player, bool_decide (is_Some o) = match o with Some _ => true | None => false end)
    as Hsome.
  { intros [p|]; [by rewrite bool_decide_eq_true_2 | rewrite bool_decide_eq_false_2; [done|]].
    by intros [? ?]. }
  rewrite !Hsome.
  assert (bool_decide (c ∈ ["white"; "black"; "random"])
          = bool_decide (c = "white") || bool_decide (c = "black") || bool_decide (c = "random"))
    as ->.
  { repeat case_bool_decide; cbn; try done; subst;
      rewrite ?elem_of_cons, ?elem_of_nil in *; tauto. }
  pose proof (Nat.mod_upper_bound (pick e) 2 ltac:(lia)) as Hpick.
  destruct (whitePlayer g) as [pw|], (blackPlayer g) as [pb|];
    cbn [app length nth negb andb orb];
    rewrite ?Nat.mod_1_r;
    destruct (decide (c = "white")) as [->|Hw];
    try (rewrite !(bool_decide_eq_true_2 ("white" = "white")) by done);
    try (rewrite !(bool_decide_eq_false_2 (c = "white")) by done);
    cbn [app length nth negb andb orb];
    try (rewrite !(bool_decide_eq_false_2 ("white" = "black")) by done);
    try (rewrite !(bool_decide_eq_false_2 ("white" = "random")) by done);
    cbn [app length nth negb andb orb]; try done;
    destruct (decide (c = "black")) as [->|Hb];
    try (rewrite !(bool_decide_eq_true_2 ("black" = "black")) by done);
    try (rewrite !(bool_decide_eq_false_2 (c = "black")) by done);
    try (rewrite !(bool_decide_eq_false_2 ("black" = "white")) by done);
    try (rewrite !(bool_decide_eq_false_2 ("black" = "random")) by done);
    cbn [app length nth negb andb orb]; try done;
    destruct (decide (c = "random")) as [->|Hr];
    try (rewrite !(bool_decide_eq_true_2 ("random" = "random")) by done);
    try (rewrite !(bool_decide_eq_false_2 (c = "random")) by done);
    cbn [app length nth negb andb orb]; try done.
  all: try (rewrite !(bool_decide_eq_true_2 ("white" = "white")) by done);
       try (rewrite !(bool_decide_eq_true_2 ("black" = "black")) by done);
       try (rewrite !(bool_decide_eq_false_2 ("black" = "white")) by done);
       try (rewrite !(bool_decide_eq_false_2 ([_] = [])) by done);
       try (rewrite !(bool_decide_eq_false_2 ([_; _] = [])) by done);
       cbn [app length nth negb andb orb]; try done.
  all: try (rewrite !(bool_decide_eq_true_2 ([] = [])) by done; done).
  destruct (pick e mod 2)%nat as [|[|k]] eqn:E; [| |lia];
    cbn [nth]; [rewrite (bool_decide_eq_true_2 (0 = 0)%nat) by done
               |rewrite (bool_decide_eq_false_2 (1 = 0)%nat) by done];
    try (rewrite !(bool_decide_eq_true_2 ("white" = "white")) by done);
    try (rewrite !(bool_decide_eq_true_2 ("black" = "black")) by done);
    try (rewrite !(bool_decide_eq_false_2 ("black" = "white")) by done);
    cbn [app length nth negb andb orb]; done.
Qed.

Lemma joinTarget_color e (req : JoinReq) g (color : string) :
  joinTarget e req g = Some color ->
  (color = "white" /\ whitePlayer g = None) \/ (color = "black" /\ blackPlayer g = None).
Proof.
  unfold joinTarget.
  destruct (whitePlayer g) as [pw|], (blackPlayer g) as [pb|];
    rewrite ?(bool_decide_eq_true_2 (is_Some (Some _))) by (by eexists);
    rewrite ?(bool_decide_eq_false_2 (is_Some None)) by (by intros [? ?]);
    repeat case_bool_decide; intros [= <-]; auto.
Qed.

Lemma joinRefusal_not_ok (req : JoinReq) g c t p : joinRefusal req g <> JoinOk c t p.
Proof.
  unfold joinRefusal.
  repeat (match goal with |- context [if ?b then _ else _] => destruct b end); discriminate.
Qed.

Lemma joiner_name e (req : JoinReq) (color : string) :
  name (joiner e req color) <> "".
Proof.
  unfold joiner, createPlayer. cbn [name].
  destruct (truthy (formatPlayerName (jr_name req) _)) eqn:Ht; [|discriminate].
  by apply truthy_true.
Qed.

(** X6: the refusals of a join, in the order the handler tests them: an
    unknown session, a colour that is not white, black or random (in any
    case), a table with both seats taken, the seat asked for taken. A join
    that is refused leaves the world as it was. *)
Theorem join_refusals e (gameId : string) (req : JoinReq) w :
  (games w !! gameId = None -> post_join e gameId req w = (JoinNotFound, w))
  /\ (forall g, games w !! gameId = Some g ->
        (askedColor req ∉ ["white"; "black"; "random"] ->
           post_join e gameId req w = (JoinInvalidColor, w))
        /\ (askedColor req ∈ ["white"; "black"; "random"] ->
            is_Some (whitePlayer g) -> is_Some (blackPlayer g) ->
            post_join e gameId req w = (JoinFull, w))
        /\ (askedColor req = "white" -> is_Some (whitePlayer g) -> blackPlayer g = None ->
            post_join e gameId req w = (JoinWhiteTaken, w))
        /\ (askedColor req = "black" -> is_Some (blackPlayer g) -> whitePlayer g = None ->
            post_join e gameId req w = (JoinBlackTaken, w)))
  /\ ((forall c t p, (post_join e gameId req w).1 <> JoinOk c t p) ->
      (post_join e gameId req w).2 = w).
Proof.
  split_and!.
  - intros Hl. unfold post_join. by rewrite Hl.
  - intros g Hl. pose proof (post_join_by_target e gameId req w g Hl) as H.
    unfold joinTarget, joinRefusal in H.
    split_and!.
    + intros Hc. rewrite !elem_of_cons, elem_of_nil in Hc.
      rewrite !(bool_decide_eq_false_2 (askedColor req = _)) in H by tauto. exact H.
    + intros Hc [pw Ew] [pb Eb]. rewrite !elem_of_cons, elem_of_nil in Hc.
      rewrite Ew, Eb in H.
      rewrite !(bool_decide_eq_true_2 (is_Some (Some _))) in H by (by eexists).
      repeat case_bool_decide; cbn in H; try exact H; tauto.
    + intros Hc [pw Ew] Eb. rewrite Hc, Ew, Eb in H.
      rewrite (bool_decide_eq_true_2 (is_Some (Some _))) in H by (by eexists).
      rewrite (bool_decide_eq_false_2 (is_Some None)) in H by (by intros [? ?]).
      exact H.
    + intros Hc [pb Eb] Ew. rewrite Hc, Ew, Eb in H.
      rewrite (bool_decide_eq_true_2 (is_Some (Some _))) in H by (by eexists).
      rewrite (bool_decide_eq_false_2 (is_Some None)) in H by (by intros [? ?]).
      exact H.
  - intros Hno. destruct (games w !! gameId) as [g|] eqn:Hl.
    + pose proof (post_join_by_target e gameId req w g Hl) as H.
      destruct (joinTarget e req g) as [color|]; [|by rewrite H].
      exfalso. eapply Hno. by rewrite H.
    + unfold post_join. by rewrite Hl.
Qed.

(** X7: a join that succeeds answers with the colour taken and the generated
    token; the seat of that colour was open and now holds the new player,
    whose token is the one returned and whose name is not empty; the player
    object in the response has no [token] key; the other seat, the
    position, the turn, the history and the last move are as before; the
    status stays finished if it was, and otherwise is active when the other
    seat is bound and waiting when it is not; the file holds the snapshot of
    the new Map, without the session under ["__proto__"] if there is one. *)
Theorem join_seats_the_player e (gameId : string) (req : JoinReq) w
    (color tok : string) (pj : JSON) (w' : World Chess) :
  post_join e gameId req w = (JoinOk color tok pj, w') ->
  exists g g' player,
    games w !! gameId = Some g /\ games w' !! gameId = Some g'
    /\ tok = uuid e /\ token player = Some tok
    /\ name player <> ""
    /\ pj = sanitizePlayer (Some player) /\ has_key "token" pj = false
    /\ ((color = "white" /\ whitePlayer g = None
         /\ whitePlayer g' = Some player /\ blackPlayer g' = blackPlayer g
         /\ status g' = (if bool_decide (status g = "finished") then "finished"
                         else if bool_decide (is_Some (blackPlayer g)) then "active"
                         else "waiting"))
        \/ (color = "black" /\ blackPlayer g = None
            /\ blackPlayer g' = Some player /\ whitePlayer g' = whitePlayer g
            /\ status g' = (if bool_decide (status g = "finished") then "finished"
                            else if bool_decide (is_Some (whitePlayer g)) then "active"
                            else "waiting")))
    /\ chess g' = chess g /\ currentPlayer g' = currentPlayer g
    /\ moveHistory g' = moveHistory g /\ lastMove g' = lastMove g
    /\ disk w' = Some (serializeGame <$> delete "__proto__" (games w')).
Proof.
  intros Hj.
  destruct (games w !! gameId) as [g|] eqn:Hl;
    [|unfold post_join in Hj; rewrite Hl in Hj; discriminate].
  pose proof (post_join_by_target e gameId req w g Hl) as H.
  destruct (joinTarget e req g) as [c|] eqn:Ht.
  2:{ rewrite H in Hj. injection Hj as Hj _. by apply joinRefusal_not_ok in Hj. }
  rewrite H in Hj. injection Hj as <- <- <- <-.
  exists g, (assignPlayer e c (joiner e req c) g), (joiner e req c).
  destruct (assignPlayer_frame e c (joiner e req c) g) as (Hc & Hp & Hh & Hm & _).
  pose proof (joiner_name e req c) as Hn1.
  split_and!; try done.
  - cbn. apply lookup_insert_eq.
  - destruct (joinTarget_color e req g c Ht) as [[-> Hw]|[-> Hb]]; [left | right].
    + destruct (assignPlayer_white e (joiner e req "white") g) as [E1 E2].
      split_and!; try done.
      unfold assignPlayer. rewrite (bool_decide_eq_true_2 ("white" = "white")) by done.
      cbn [status set_whitePlayer whitePlayer blackPlayer].
      rewrite (bool_decide_eq_true_2 (is_Some (Some _))) by (by eexists).
      repeat case_bool_decide; cbn; try done.
    + destruct (assignPlayer_black e (joiner e req "black") g) as [E1 E2].
      split_and!; try done.
      unfold assignPlayer. rewrite (bool_decide_eq_false_2 ("black" = "white")) by done.
      cbn [status set_blackPlayer whitePlayer blackPlayer].
      rewrite (bool_decide_eq_true_2 (is_Some (Some _))) by (by eexists).
      repeat case_bool_decide; cbn; try done.
Qed.

(** X8: on a session that exists, a join succeeds exactly when the colour
    it asks for, in lower case, is white and white's seat is open, or is
    black and black's seat is open, or is random and some seat is open. The
    colour asked for is [String(color)], and random when the body has no
    [color] key. A seat that is bound is never given to another player by a
    join. *)
Theorem join_succeeds_iff e (gameId : string) (req : JoinReq) w g :
  games w !! gameId = Some g ->
  (exists color tok pj w', post_join e gameId req w = (JoinOk color tok pj, w'))
  <-> (askedColor req = "white" /\ whitePlayer g = None)
      \/ (askedColor req = "black" /\ blackPlayer g = None)
      \/ (askedColor req = "random" /\ (whitePlayer g = None \/ blackPlayer g = None)).
Proof.
  intros Hl. pose proof (post_join_by_target e gameId req w g Hl) as H.
  assert (is_Some (joinTarget e req g)
          <-> (askedColor req = "white" /\ whitePlayer g = None)
              \/ (askedColor req = "black" /\ blackPlayer g = None)
              \/ (askedColor req = "random"
                  /\ (whitePlayer g = None \/ blackPlayer g = None))) as Hiff.
  { unfold joinTarget.
    destruct (whitePlayer g) as [pw|], (blackPlayer g) as [pb|];
      repeat case_bool_decide; rewrite ?is_Some_alt in *;
      intuition (try congruence; try discriminate). }
  rewrite <- Hiff. split.
  - intros (color & tok & pj & w' & Hj).
    destruct (joinTarget e req g); [by eexists|].
    rewrite H in Hj. injection Hj as Hj _. by apply joinRefusal_not_ok in Hj.
  - intros [c Hc]. rewrite Hc in H. eauto.
Qed.

End JoinProofs.

(** ** POST /frame and GET / *)

Section FrameProofs.
Context {Chess : Type} {O : RulesOracle Chess} {J : StringOracle}.
Implicit Types (g game : Game Chess) (w : World Chess).

Lemma post_frame_on e (req : FrameReq) w g :
  games w !! frameGameId e req = Some g ->
  post_frame e req w =
    match
      match fr_buttonIndex req with
      | Some b => if bool_decide (b = 0) then SameGame g
                  else frameButton e (or_default (fr_fid req) "unknown") b (fr_inputText req) g
      | None => SameGame g
      end
    with
    | SameGame g' => games_set (frameGameId e req) (renderStatus g') w
    | NewGameSet => persistGamesToDisk (games_set (frameGameId e req) (createNewGame e) w)
    end.
Proof.
  intros Hl. unfold post_frame. fold (frameGameId e req).
  unfold getOrCreateGame. by rewrite Hl.
Qed.

Lemma renderStatus_fields g :
  chess (renderStatus g) = chess g
  /\ whitePlayer (renderStatus g) = whitePlayer g
  /\ blackPlayer (renderStatus g) = blackPlayer g
  /\ currentPlayer (renderStatus g) = currentPlayer g
  /\ moveHistory (renderStatus g) = moveHistory g
  /\ lastMove (renderStatus g) = lastMove g
  /\ selectedSquare (renderStatus g) = selectedSquare g
  /\ validMoves (renderStatus g) = validMoves g
  /\ createdAt (renderStatus g) = createdAt g
  /\ updatedAt (renderStatus g) = updatedAt g.
Proof.
  unfold renderStatus.
  repeat (match goal with |- context [if ?b then _ else _] => destruct b end); done.
Qed.

Lemma renderStatus_status g :
  status (renderStatus g)
  = if bool_decide (status g = "active") && terminal (chess g) then "finished" else status g.
Proof.
  unfold renderStatus, terminal. case_bool_decide; [|done].
  by destruct (chess_isCheckmate (chess g)), (chess_isDraw (chess g)).
Qed.

Lemma renderStatus_idempotent g : renderStatus (renderStatus g) = renderStatus g.
Proof.
  destruct (bool_decide (status g = "active")) eqn:Ha;
    destruct (chess_isCheckmate (chess g)) eqn:E1;
    destruct (chess_isDraw (chess g)) eqn:E2;
    unfold renderStatus; rewrite Ha, ?E1, ?E2; cbn [status chess set_status set_terminalReached];
    rewrite ?(bool_decide_eq_false_2 ("finished" = "active")) by done;
    rewrite ?Ha, ?E1, ?E2; done.
Qed.

Lemma renderStatus_commitMove g c' move from to :
  renderStatus (commitMove g c' move from to) = commitMove g c' move from to.
Proof.
  unfold renderStatus. rewrite commitMove_status, commitMove_chess. unfold terminal.
  destruct (chess_isCheckmate c') eqn:E1; cbn; [done|].
  destruct (chess_isDraw c') eqn:E2; cbn; [done|].
  by case_bool_decide.
Qed.

(** X10: a frame move needs no token and no seat. On an active session,
    Make Move with a text that the pattern reads, naming an empty square or
    a piece of the side to move, and a move that the oracle accepts, is
    applied as by POST /move, for any [fid] and any bindings; the file is not
    written. *)
Theorem frame_move_applied e (req : FrameReq) w g (text from to : string)
    (promotion : option string) (piece : option Piece) (c' : Chess) (move : Move) :
  games w !! frameGameId e req = Some g ->
  status g = "active" ->
  fr_buttonIndex req = Some 1 -> fr_inputText req = Some text -> text <> "" ->
  parseMove (trim text) = Some (from, to, promotion) ->
  chess_get (chess g) from = inl piece ->
  (forall p, piece = Some p -> color_code (p_color p) = currentPlayer g) ->
  chess_move (chess g) from to (or_default promotion "q") = Moved c' move ->
  games (post_frame e req w) !! frameGameId e req = Some (commitMove g c' move from to)
  /\ disk (post_frame e req w) = disk w.
Proof.
  intros Hl Ha Hb Ht Hne Hparse Hget Hmine Hmove.
  rewrite (post_frame_on e req w g Hl), Hb.
  rewrite (bool_decide_eq_false_2 (1 = 0)) by done.
  unfold frameButton. rewrite Ha.
  rewrite (bool_decide_eq_false_2 ("active" = "waiting")) by done.
  rewrite (bool_decide_eq_true_2 ("active" = "active")) by done.
  rewrite (bool_decide_eq_true_2 (1 = 1)) by done.
  rewrite Ht. cbn [truthy_opt andb].
  apply truthy_true in Hne. rewrite Hne.
  change (default "" (Some text)) with text.
  assert (frameMove g text = commitMove g c' move from to) as Hfm.
  { unfold frameMove. rewrite Hparse, Hget.
    destruct piece as [p|]; [rewrite bool_decide_eq_true_2 by (by apply Hmine)|];
      by rewrite Hmove. }
  rewrite Hfm, renderStatus_commitMove. split; [apply lookup_insert_eq | done].
Qed.

Lemma frameMove_cases g (text : string) :
  frameMove g text = g
  \/ exists from to promotion piece c' move,
       parseMove (trim text) = Some (from, to, promotion)
       /\ chess_get (chess g) from = inl piece
       /\ (forall p, piece = Some p -> color_code (p_color p) = currentPlayer g)
       /\ chess_move (chess g) from to (or_default promotion "q") = Moved c' move
       /\ frameMove g text = commitMove g c' move from to.
Proof.
  unfold frameMove.
  destruct (parseMove (trim text)) as [[[from to] promotion]|]; [|by left].
  destruct (chess_get (chess g) from) as [piece|] eqn:Hget; [|by left].
  destruct piece as [p|].
  - case_bool_decide as Hc; [|by left].
    destruct (chess_move (chess g) from to (or_default promotion "q")) as [c' m| |msg] eqn:Hm;
      [|by left..].
    right. exists from, to, promotion, (Some p), c', m. split_and!; try done.
    by intros ? [= <-].
  - destruct (chess_move (chess g) from to (or_default promotion "q")) as [c' m| |msg] eqn:Hm;
      [|by left..].
    right. exists from, to, promotion, None, c', m. split_and!; done.
Qed.

(** X11: Make Move on an active session either changes nothing but the
    rendered status (a text the pattern does not read, a piece of the side
    not to move, a move the oracle refuses: no error is reported), or plays
    a move the oracle accepted from a square that is empty or holds a piece
    of the side to move. *)
Theorem frame_move_or_nothing e (req : FrameReq) w g (text : string) :
  games w !! frameGameId e req = Some g ->
  status g = "active" ->
  fr_buttonIndex req = Some 1 -> fr_inputText req = Some text -> text <> "" ->
  exists g',
    games (post_frame e req w) !! frameGameId e req = Some g'
    /\ disk (post_frame e req w) = disk w
    /\ (g' = renderStatus g
        \/ exists from to promotion piece c' move,
             parseMove (trim text) = Some (from, to, promotion)
             /\ chess_get (chess g) from = inl piece
             /\ (forall p, piece = Some p -> color_code (p_color p) = currentPlayer g)
             /\ chess_move (chess g) from to (or_default promotion "q") = Moved c' move
             /\ g' = commitMove g c' move from to).
Proof.
  intros Hl Ha Hb Ht Hne.
  rewrite (post_frame_on e req w g Hl), Hb.
  rewrite (bool_decide_eq_false_2 (1 = 0)) by done.
  unfold frameButton. rewrite Ha.
  rewrite (bool_decide_eq_false_2 ("active" = "waiting")) by done.
  rewrite (bool_decide_eq_true_2 ("active" = "active")) by done.
  rewrite (bool_decide_eq_true_2 (1 = 1)) by done.
  rewrite Ht. cbn [truthy_opt andb].
  apply truthy_true in Hne. rewrite Hne.
  change (default "" (Some text)) with text.
  exists (renderStatus (frameMove g text)).
  split_and!; [apply lookup_insert_eq | done |].
  destruct (frameMove_cases g text)
    as [->|(from & to & promotion & piece & c' & move & H1 & H2 & H3 & H4 & ->)];
    [by left | right].
  exists from, to, promotion, piece, c', move.
  by rewrite renderStatus_commitMove.
Qed.

Lemma frameButton_NewGameSet e (fid : string) (b : Z) (text : option string) g :
  frameButton e fid b text g = NewGameSet <->
  (status g = "active" /\ b = 3) \/ (status g = "finished" /\ b = 1).
Proof.
  unfold frameButton. split.
  - repeat case_bool_decide; try discriminate;
      try (destruct (truthy_opt text); cbn; try discriminate);
      intros _; subst; auto; try lia; try discriminate.
  - intros [[Hs ->]|[Hs ->]]; rewrite Hs.
    + rewrite (bool_decide_eq_false_2 ("active" = "waiting")) by done.
      rewrite (bool_decide_eq_true_2 ("active" = "active")) by done.
      by rewrite (bool_decide_eq_false_2 (3 = 1)) by done.
    + rewrite (bool_decide_eq_false_2 ("finished" = "waiting")) by done.
      rewrite (bool_decide_eq_false_2 ("finished" = "active")) by done.
      by rewrite (bool_decide_eq_true_2 ("finished" = "finished")) by done.
Qed.

Lemma restart_same_disk e w (w' : World Chess) : disk w = disk w' -> restart e w = restart e w'.
Proof. intros H. unfold restart. by rewrite H. Qed.

(** X12: POST /frame writes the file only when it starts a new game. A seat
    taken, a move played or a resignation made through the frame stays in
    memory: the file is as before, so a restart brings back the store of
    the last write. *)
Theorem frame_writes_file_only_for_new_game e e' (req : FrameReq) w :
  ~ startsNewGame req (getOrCreateGame e (frameGameId e req) w).1 ->
  disk (post_frame e req w) = disk w
  /\ restart e' (post_frame e req w) = restart e' w.
Proof.
  intros Hno.
  assert (disk (post_frame e req w) = disk w) as Hd.
  { unfold post_frame. fold (frameGameId e req).
    assert (disk (getOrCreateGame e (frameGameId e req) w).2 = disk w) as Hd1.
    { unfold getOrCreateGame. by destruct (games w !! frameGameId e req). }
    destruct (getOrCreateGame e (frameGameId e req) w) as [game w1]. cbn [fst snd] in *.
    destruct (fr_buttonIndex req) as [b|] eqn:Hb; [|done].
    destruct (bool_decide (b = 0)); [done|].
    destruct (frameButton e _ b (fr_inputText req) game) eqn:Hf; [done|].
    apply frameButton_NewGameSet in Hf. exfalso. apply Hno. unfold startsNewGame.
    destruct Hf as [[? ->]|[? ->]]; auto. }
  split; [exact Hd | by apply restart_same_disk].
Qed.

(** X13: New Game, on an active session or on a finished one, puts a new
    session under the id (waiting, no players, the initial position, empty
    history) whoever presses it, leaves the other sessions alone, and writes
    the file: the snapshot of the new Map, without the session under
    ["__proto__"] if there is one. *)
Theorem frame_new_game e (req : FrameReq) w g :
  games w !! frameGameId e req = Some g ->
  startsNewGame req g ->
  post_frame e req w
  = persistGamesToDisk (games_set (frameGameId e req) (createNewGame e) w)
  /\ games (post_frame e req w) !! frameGameId e req = Some (createNewGame e)
  /\ (forall other, other <> frameGameId e req ->
        games (post_frame e req w) !! other = games w !! other)
  /\ disk (post_frame e req w)
     = Some (serializeGame <$> delete "__proto__" (games (post_frame e req w))).
Proof.
  intros Hl Hnew.
  assert (post_frame e req w
          = persistGamesToDisk (games_set (frameGameId e req) (createNewGame e) w)) as ->.
  { rewrite (post_frame_on e req w g Hl).
    destruct Hnew as [[Hs Hb]|[Hs Hb]]; rewrite Hb;
      rewrite bool_decide_eq_false_2 by done;
      by rewrite (proj2 (frameButton_NewGameSet e _ _ (fr_inputText req) g)) by auto. }
  split_and!; try done.
  - apply lookup_insert_eq.
  - intros other Hne. cbn. by rewrite lookup_insert_ne.
Qed.

Lemma post_frame_waiting e (req : FrameReq) w g (b : Z) :
  games w !! frameGameId e req = Some g ->
  status g = "waiting" -> fr_buttonIndex req = Some b -> b <> 0 ->
  forall g', frameButton e (or_default (fr_fid req) "unknown") b (fr_inputText req) g
             = SameGame g' ->
  games (post_frame e req w) !! frameGameId e req = Some (renderStatus g').
Proof.
  intros Hl Hs Hb Hnz g' Hf.
  rewrite (post_frame_on e req w g Hl), Hb.
  rewrite bool_decide_eq_false_2 by done. rewrite Hf. apply lookup_insert_eq.
Qed.

Lemma assignPlayer_waiting_status e (p : Player) g :
  status g = "waiting" ->
  status (assignPlayer e "white" p g)
  = (if bool_decide (is_Some (blackPlayer g)) then "active" else "waiting")
  /\ status (assignPlayer e "black" p g)
    = (if bool_decide (is_Some (whitePlayer g)) then "active" else "waiting").
Proof.
  intros Hs. unfold assignPlayer.
  rewrite (bool_decide_eq_true_2 ("white" = "white")) by done.
  rewrite (bool_decide_eq_false_2 ("black" = "white")) by done.
  cbn. rewrite Hs.
  rewrite (bool_decide_eq_false_2 ("waiting" = "finished")) by done.
  cbn. rewrite ?andb_true_r.
  split; by case_bool_decide.
Qed.

(** X14: on a waiting session, Join as White (or Black) through the frame
    seats the frame player whether or not the seat was bound: the earlier
    binding, and its token, are gone. The other seat is kept; the session is
    waiting if that seat is open, and otherwise active (finished when the
    oracle reports a checkmate or a draw on the position). *)
Theorem frame_join_replaces_seat e (req : FrameReq) w g :
  games w !! frameGameId e req = Some g ->
  status g = "waiting" ->
  token (framePlayer e req) = None
  /\ (fr_buttonIndex req = Some 1 ->
      exists g', games (post_frame e req w) !! frameGameId e req = Some g'
        /\ whitePlayer g' = Some (framePlayer e req) /\ blackPlayer g' = blackPlayer g
        /\ status g' = (if bool_decide (is_Some (blackPlayer g))
                        then if terminal (chess g) then "finished" else "active"
                        else "waiting"))
  /\ (fr_buttonIndex req = Some 2 ->
      exists g', games (post_frame e req w) !! frameGameId e req = Some g'
        /\ blackPlayer g' = Some (framePlayer e req) /\ whitePlayer g' = whitePlayer g
        /\ status g' = (if bool_decide (is_Some (whitePlayer g))
                        then if terminal (chess g) then "finished" else "active"
                        else "waiting")).
Proof.
  intros Hl Hs. split_and!; [done| |].
  - intros Hb.
    destruct (assignPlayer_white e (framePlayer e req) g) as [E1 E2].
    destruct (assignPlayer_frame e "white" (framePlayer e req) g) as (Ech & _).
    pose proof (proj1 (assignPlayer_waiting_status e (framePlayer e req) g Hs)) as Est.
    set (g1 := assignPlayer e "white" (framePlayer e req) g) in *.
    eexists. split.
    { eapply (post_frame_waiting e req w g 1); try done.
      unfold frameButton. rewrite Hs.
      rewrite (bool_decide_eq_true_2 ("waiting" = "waiting")) by done.
      by rewrite (bool_decide_eq_true_2 (1 = 1)) by done. }
    fold (framePlayer e req). fold g1.
    destruct (renderStatus_fields
                (if bool_decide (is_Some (blackPlayer g1)) then set_status "active" g1 else g1))
      as (Hc & Hw & Hbl & _).
    rewrite Hw, Hbl, renderStatus_status. clear Hw Hbl.
    rewrite E2. destruct (bool_decide (is_Some (blackPlayer g))) eqn:Hbb.
    + destruct (set_status_fields "active" g1) as (-> & -> & -> & -> & _).
      rewrite E1, E2, Ech. rewrite (bool_decide_eq_true_2 ("active" = "active")) by done.
      by destruct (terminal (chess g)).
    + rewrite E1, E2, Est.
      by rewrite (bool_decide_eq_false_2 ("waiting" = "active")) by done.
  - intros Hb.
    destruct (assignPlayer_black e (framePlayer e req) g) as [E1 E2].
    destruct (assignPlayer_frame e "black" (framePlayer e req) g) as (Ech & _).
    pose proof (proj2 (assignPlayer_waiting_status e (framePlayer e req) g Hs)) as Est.
    set (g1 := assignPlayer e "black" (framePlayer e req) g) in *.
    eexists. split.
    { eapply (post_frame_waiting e req w g 2); try done.
      unfold frameButton. rewrite Hs.
      rewrite (bool_decide_eq_true_2 ("waiting" = "waiting")) by done.
      rewrite (bool_decide_eq_false_2 (2 = 1)) by done.
      by rewrite (bool_decide_eq_true_2 (2 = 2)) by done. }
    fold (framePlayer e req). fold g1.
    destruct (renderStatus_fields
                (if bool_decide (is_Some (whitePlayer g1)) then set_status "active" g1 else g1))
      as (Hc & Hw & Hbl & _).
    rewrite Hw, Hbl, renderStatus_status. clear Hw Hbl.
    rewrite E2. destruct (bool_decide (is_Some (whitePlayer g))) eqn:Hbb.
    + destruct (set_status_fields "active" g1) as (-> & -> & -> & -> & _).
      rewrite E1, E2, Ech. rewrite (bool_decide_eq_true_2 ("active" = "active")) by done.
      by destruct (terminal (chess g)).
    + rewrite E1, E2, Est.
      by rewrite (bool_decide_eq_false_2 ("waiting" = "active")) by done.
Qed.

(** X15: Play Solo through the frame, on a waiting session, seats the frame
    player on both sides without a token and without resetting the game: the
    position and the history are kept, the session is active (finished when
    the oracle reports a checkmate or a draw), and POST /move then asks for
    no token. *)
Theorem frame_solo_keeps_position e (req : FrameReq) w g :
  games w !! frameGameId e req = Some g ->
  status g = "waiting" -> fr_buttonIndex req = Some 3 ->
  exists g',
    games (post_frame e req w) !! frameGameId e req = Some g'
    /\ whitePlayer g' = Some (framePlayer e req)
    /\ blackPlayer g' = Some (framePlayer e req)
    /\ chess g' = chess g /\ moveHistory g' = moveHistory g
    /\ currentPlayer g' = currentPlayer g
    /\ status g' = (if terminal (chess g) then "finished" else "active")
    /\ forall playerToken, checkToken g' playerToken = None.
Proof.
  intros Hl Hs Hb.
  set (p := framePlayer e req).
  set (g1 := assignPlayer e "white" p g).
  set (g2 := assignPlayer e "black" p g1).
  assert (games (post_frame e req w) !! frameGameId e req
          = Some (renderStatus (set_status "active" g2))) as Hl'.
  { eapply (post_frame_waiting e req w g 3); try done.
    unfold frameButton. rewrite Hs.
    rewrite (bool_decide_eq_true_2 ("waiting" = "waiting")) by done.
    rewrite (bool_decide_eq_false_2 (3 = 1)) by done.
    rewrite (bool_decide_eq_false_2 (3 = 2)) by done.
    by rewrite (bool_decide_eq_true_2 (3 = 3)) by done. }
  exists (renderStatus (set_status "active" g2)). split; [exact Hl'|].
  destruct (renderStatus_fields (set_status "active" g2))
    as (-> & -> & -> & -> & -> & _).
  rewrite renderStatus_status.
  destruct (set_status_fields "active" g2) as (-> & -> & -> & -> & -> & -> & _).
  destruct (assignPlayer_black e p g1) as [Eb Ew].
  destruct (assignPlayer_white e p g) as [Ew1 _].
  destruct (assignPlayer_frame e "black" p g1) as (Ec2 & Ep2 & Eh2 & _).
  destruct (assignPlayer_frame e "white" p g) as (Ec1 & Ep1 & Eh1 & _).
  fold g1 in Ew1, Ec1, Ep1, Eh1. fold g2 in Eb, Ew, Ec2, Ep2, Eh2.
  rewrite Ew, Ew1, Eb, Ec2, Ec1, Eh2, Eh1, Ep2, Ep1.
  rewrite (bool_decide_eq_true_2 ("active" = "active")) by done.
  split_and!; try done.
  intros playerToken. unfold checkToken, hasWebPlayers, has_token.
  destruct (renderStatus_fields (set_status "active" g2)) as (_ & -> & -> & _).
  destruct (set_status_fields "active" g2) as (_ & -> & -> & _).
  by rewrite Ew, Ew1, Eb.
Qed.

(** X16: Resign through the frame finishes an active session, whoever
    presses it (the [fid] is not compared with the players): the status is
    finished, the position, the seats and the history are kept, and the
    file is not written. *)
Theorem frame_resign_by_anyone e (req : FrameReq) w g :
  games w !! frameGameId e req = Some g ->
  status g = "active" -> fr_buttonIndex req = Some 4 ->
  exists g',
    games (post_frame e req w) !! frameGameId e req = Some g'
    /\ status g' = "finished"
    /\ chess g' = chess g /\ whitePlayer g' = whitePlayer g /\ blackPlayer g' = blackPlayer g
    /\ moveHistory g' = moveHistory g /\ lastMove g' = lastMove g
    /\ disk (post_frame e req w) = disk w.
Proof.
  intros Hl Hs Hb.
  rewrite (post_frame_on e req w g Hl), Hb.
  rewrite (bool_decide_eq_false_2 (4 = 0)) by done.
  unfold frameButton. rewrite Hs.
  rewrite (bool_decide_eq_false_2 ("active" = "waiting")) by done.
  rewrite (bool_decide_eq_true_2 ("active" = "active")) by done.
  rewrite (bool_decide_eq_false_2 (4 = 1)) by done. cbn [andb].
  rewrite (bool_decide_eq_false_2 (4 = 2)) by done.
  rewrite (bool_decide_eq_false_2 (4 = 3)) by done.
  rewrite (bool_decide_eq_true_2 (4 = 4)) by done.
  eexists. split; [apply lookup_insert_eq|].
  unfold renderStatus. cbn [status set_status set_terminalReached].
  rewrite (bool_decide_eq_false_2 ("finished" = "active")) by done.
  by destruct g.
Qed.

(** X17: GET / with a game id creates the session when it is missing and
    otherwise changes at most its status, from active to finished when the
    oracle reports a checkmate or a draw; it never writes the file, and a
    second GET / changes nothing more. *)
Theorem get_root_idempotent e e' (gameId : string) w :
  gameId <> "" ->
  get_root e' (Some gameId) (get_root e (Some gameId) w) = get_root e (Some gameId) w
  /\ disk (get_root e (Some gameId) w) = disk w
  /\ (games w !! gameId = None ->
        games (get_root e (Some gameId) w) !! gameId = Some (createNewGame e))
  /\ (forall g, games w !! gameId = Some g ->
        exists g', games (get_root e (Some gameId) w) !! gameId = Some g'
          /\ chess g' = chess g /\ whitePlayer g' = whitePlayer g
          /\ blackPlayer g' = blackPlayer g /\ currentPlayer g' = currentPlayer g
          /\ moveHistory g' = moveHistory g /\ lastMove g' = lastMove g
          /\ status g' = (if bool_decide (status g = "active") && terminal (chess g)
                          then "finished" else status g)).
Proof.
  intros Hne.
  assert (or_default (Some gameId) (uuid e) = gameId
          /\ or_default (Some gameId) (uuid e') = gameId) as [E1 E2].
  { apply truthy_true in Hne. cbn. by rewrite Hne. }
  assert (forall w0 : World Chess, forall e0 g0, games w0 !! gameId = Some g0 ->
            get_root e0 (Some gameId) w0 = games_set gameId (renderStatus g0) w0) as Hfound.
  { intros w0 e0 g0 Hl0. unfold get_root.
    assert (or_default (Some gameId) (uuid e0) = gameId) as ->
      by (apply truthy_true in Hne; cbn; by rewrite Hne).
    unfold getOrCreateGame. by rewrite Hl0. }
  assert (forall g0, exists r, get_root e (Some gameId) w = games_set gameId (renderStatus r) w
                     /\ (games w !! gameId = Some g0 -> r = g0)
                     /\ (games w !! gameId = None -> r = createNewGame e)) as Hshape.
  { intros g0. destruct (games w !! gameId) as [g|] eqn:Hl.
    - exists g. split; [by apply Hfound|]. split; [by intros [= <-] | done].
    - exists (createNewGame e). split; [|done].
      unfold get_root. rewrite E1. unfold getOrCreateGame. rewrite Hl.
      unfold games_set. cbn. by rewrite insert_insert_eq. }
  destruct (Hshape (createNewGame e)) as (r & Hr & Hsome & Hnone).
  split_and!.
  - rewrite Hr. rewrite (Hfound _ e' (renderStatus r)) by apply lookup_insert_eq.
    rewrite renderStatus_idempotent. unfold games_set. cbn. by rewrite insert_insert_eq.
  - by rewrite Hr.
  - intros Hl. rewrite Hr, (Hnone Hl). cbn. by rewrite lookup_insert_eq.
  - intros g Hl. rewrite (Hfound w e g Hl). exists (renderStatus g).
    split; [apply lookup_insert_eq|].
    destruct (renderStatus_fields g) as (-> & -> & -> & -> & -> & -> & _).
    by rewrite renderStatus_status.
Qed.

End FrameProofs.

Section RunProofs.
Context {Chess : Type} {O : RulesOracle Chess} {J : StringOracle}.
Implicit Types (g game : Game Chess) (w : World Chess).

(** ** The shape of the sessions *)

Ltac crush_shape :=
  intros;
  repeat match goal with
         | g : Game _ |- _ => destruct g
         end;
  cbn in *;
  repeat (case_bool_decide; cbn in * );
  repeat match goal with
         | |- context [if ?b then _ else _] => destruct b eqn:?; cbn in *
         | |- context [color_code ?c] => destruct c; cbn in *
         end;
  cbn in *; subst;
  intuition (try congruence; try discriminate; eauto).

Lemma app_single_not_nil {A : Type} (l : list A) (x : A) : l ++ [x] <> [].
Proof. by destruct l. Qed.

Lemma assignPlayer_selection e color player g :
  selectedSquare (assignPlayer e color player g) = selectedSquare g
  /\ validMoves (assignPlayer e color player g) = validMoves g.
Proof. unfold assignPlayer. repeat case_bool_decide; cbn; done. Qed.

Lemma set_status_selection (s : string) g :
  selectedSquare (set_status s g) = selectedSquare g
  /\ validMoves (set_status s g) = validMoves g.
Proof. by destruct g. Qed.

Lemma session_shape_new e : session_shape (createNewGame e).
Proof. unfold session_shape, createNewGame. crush_shape. Qed.

Lemma session_shape_render g : session_shape g -> session_shape (renderStatus g).
Proof. unfold session_shape, renderStatus. crush_shape. Qed.

Lemma session_shape_assign e color player g :
  token_ok player -> session_shape g -> session_shape (assignPlayer e color player g).
Proof. unfold session_shape, assignPlayer. crush_shape. Qed.

Lemma session_shape_commit g c' move from to :
  session_shape g -> session_shape (commitMove g c' move from to).
Proof.
  unfold session_shape. intros (Hs & _ & Hq & Hv & _).
  rewrite commitMove_currentPlayer, commitMove_moveHistory, commitMove_lastMove,
    commitMove_status.
  assert (selectedSquare (commitMove g c' move from to) = None
          /\ validMoves (commitMove g c' move from to) = []) as [-> ->].
  { unfold commitMove. by destruct (chess_isCheckmate c' || chess_isDraw c'). }
  split; [by destruct (terminal c'); auto|].
  split; [by destruct (chess_turn c'); auto|].
  do 2 (split; [reflexivity|]).
  split; [discriminate|]. intros H. by apply app_single_not_nil in H.
Qed.

Lemma session_shape_resign g :
  session_shape g -> status g = "active" ->
  session_shape (set_terminalReached true (set_status "finished" g)).
Proof. unfold session_shape. crush_shape. Qed.

Lemma session_shape_activate g :
  session_shape g -> is_Some (whitePlayer g) -> is_Some (blackPlayer g) ->
  status g <> "finished" -> session_shape (set_status "active" g).
Proof. unfold session_shape. crush_shape. Qed.

Lemma session_shape_solo e white black g :
  token_ok white -> token_ok black ->
  session_shape (set_status "active"
     (assignPlayer e "black" black (assignPlayer e "white" white (resetGameState g)))).
Proof.
  intros _ _.
  destruct (solo_session_fields e white black g) as (Hs & _ & _ & _ & Hp & Hh & Hl & _).
  unfold session_shape. rewrite Hs, Hp, Hh, Hl.
  match goal with |- context [set_status "active" ?x] =>
    destruct (set_status_selection "active" x) as [-> ->]
  end.
  match goal with |- context [assignPlayer e "black" black ?x] =>
    destruct (assignPlayer_selection e "black" black x) as [-> ->]
  end.
  destruct (assignPlayer_selection e "white" white (resetGameState g)) as [-> ->].
  split_and!; auto; by destruct g.
Qed.

Lemma session_shape_restore e g :
  session_shape g -> session_shape (restoreGame e (serializeGame g)).
Proof.
  unfold session_shape. intros (Hs & Hp & _ & _ & Hl).
  unfold restoreGame.
  cbn [status currentPlayer selectedSquare validMoves lastMove moveHistory serializeGame
       s_status s_currentPlayer s_lastMove s_moveHistory default].
  rewrite !or_default_some.
  - done.
  - destruct Hp as [-> | ->]; discriminate.
  - destruct Hs as [-> | [-> | ->]]; discriminate.
Qed.

(** X18: in every world reachable from a fresh deployment, every session
    has one of the three statuses waiting, active and finished, a turn that
    is "w" or "b", no selected square and no listed valid moves (the two
    fields are never written after creation), and a last move exactly when
    its move history is not empty. *)
Theorem session_shape_reachable w (gameId : string) g :
  reachable w -> games w !! gameId = Some g -> session_shape g.
Proof.
  intros Hr Hl.
  destruct (world_ok_reachable session_shape session_shape_new session_shape_render
              session_shape_assign session_shape_commit session_shape_resign
              session_shape_activate session_shape_solo session_shape_restore w Hr)
    as [Hmem _].
  by eapply Hmem.
Qed.

(** ** One request, one session *)

Lemma getOrCreateGame_elsewhere e (gameId id : string) w :
  gameId <> id -> games (getOrCreateGame e gameId w).2 !! id = games w !! id.
Proof.
  intros Hne. unfold getOrCreateGame.
  destruct (games w !! gameId); cbn; [done | by rewrite lookup_insert_ne].
Qed.

Lemma getOrCreateGame_found e (gameId : string) w g :
  games w !! gameId = Some g -> getOrCreateGame e gameId w = (g, w).
Proof. intros Hl. unfold getOrCreateGame. by rewrite Hl. Qed.

Lemma run_elsewhere e op w (id : string) :
  op <> Restart -> addressed e op <> Some id ->
  games (run e op w) !! id = games w !! id.
Proof.
  intros Hop Hid.
  destruct op as [q|req|req|protocol host gameId| |gameId req|gameId name|];
    cbn [run addressed] in *; try done.
  - assert (or_default q (uuid e) <> id) as Hne by congruence.
    unfold get_root.
    pose proof (getOrCreateGame_elsewhere e _ id w Hne) as Hw1.
    destruct (getOrCreateGame e (or_default q (uuid e)) w) as [game w1]. cbn [snd] in Hw1.
    cbn. by rewrite lookup_insert_ne.
  - assert (frameGameId e req <> id) as Hne by congruence.
    unfold post_frame. fold (frameGameId e req).
    pose proof (getOrCreateGame_elsewhere e _ id w Hne) as Hw1.
    destruct (getOrCreateGame e (frameGameId e req) w) as [game w1]. cbn [snd] in Hw1.
    match goal with |- games (match ?x with _ => _ end) !! _ = _ => destruct x end;
      cbn; by rewrite lookup_insert_ne.
  - unfold post_move.
    destruct (mr_gameId req) as [gameId|]; [|done].
    destruct (mr_from req) as [from|]; [|done].
    destruct (mr_to req) as [to|]; [|done].
    destruct (negb (truthy gameId) || negb (truthy from) || negb (truthy to)); [done|].
    destruct (games w !! gameId) as [game|] eqn:Hl; [|done].
    destruct (checkToken game (mr_playerToken req)); [done|].
    unfold tryMove.
    destruct (chess_move (chess game) from to (or_default (mr_promotion req) "q")); try done.
    cbn. rewrite lookup_insert_ne; [done | congruence].
  - unfold get_game. by destruct (games w !! gameId).
  - cbn. rewrite lookup_insert_ne; [done | congruence].
  - unfold post_join.
    destruct (games w !! gameId) as [game|] eqn:Hl; [|done].
    repeat (match goal with |- context [if ?c then _ else _] => destruct c end; try done).
    all: cbn; rewrite lookup_insert_ne; [done | congruence].
  - cbn. rewrite lookup_insert_ne; [done | congruence].
Qed.

Lemma position_step_refl g : position_step g g.
Proof. by left. Qed.

Lemma position_step_same g g1 g2 :
  position_step g g1 ->
  chess g2 = chess g1 -> currentPlayer g2 = currentPlayer g1 ->
  moveHistory g2 = moveHistory g1 -> lastMove g2 = lastMove g1 ->
  position_step g g2.
Proof.
  intros [H|[H|H]] E1 E2 E3 E4; unfold position_step; rewrite E1, E2, E3, E4; auto.
Qed.

Lemma position_step_commit g c' move from to promotion :
  chess_move (chess g) from to promotion = Moved c' move ->
  position_step g (commitMove g c' move from to).
Proof.
  intros Hm. right; left. exists from, to, promotion, c', move.
  by rewrite commitMove_chess, commitMove_currentPlayer, commitMove_moveHistory,
    commitMove_lastMove.
Qed.

Lemma position_step_new g e : position_step g (createNewGame e).
Proof. right; right. done. Qed.

Lemma position_step_assign e color player g g1 :
  position_step g g1 -> position_step g (assignPlayer e color player g1).
Proof.
  intros H. destruct (assignPlayer_frame e color player g1) as (E1 & E2 & E3 & E4 & _).
  by eapply position_step_same.
Qed.

Lemma position_step_status (s : string) g g1 :
  position_step g g1 -> position_step g (set_status s g1).
Proof.
  intros H. destruct (set_status_fields s g1) as (_ & _ & _ & E1 & E2 & E3 & E4 & _).
  by eapply position_step_same.
Qed.

Lemma position_step_render g g1 :
  position_step g g1 -> position_step g (renderStatus g1).
Proof.
  intros H. destruct (renderStatus_fields g1) as (E1 & _ & _ & E2 & E3 & E4 & _).
  by eapply position_step_same.
Qed.

Lemma position_step_frameMove g (text : string) : position_step g (frameMove g text).
Proof.
  destruct (frameMove_cases g text)
    as [->|(from & to & promotion & piece & c' & move & _ & _ & _ & Hm & ->)].
  - apply position_step_refl.
  - by eapply position_step_commit.
Qed.

Lemma position_step_frameButton e (fid : string) (b : Z) (text : option string) g g1 :
  frameButton e fid b text g = SameGame g1 -> position_step g g1.
Proof.
  unfold frameButton.
  destruct (bool_decide (status g = "waiting")).
  { repeat case_bool_decide; intros [= <-];
      repeat first [ apply position_step_status | apply position_step_assign ];
      apply position_step_refl. }
  destruct (bool_decide (status g = "active")).
  { destruct (bool_decide (b = 1) && truthy_opt text).
    { intros [= <-]. apply position_step_frameMove. }
    repeat case_bool_decide; intros [= <-]; try apply position_step_refl.
    eapply position_step_same; [apply position_step_refl|..]; by destruct g. }
  repeat case_bool_decide; intros [= <-]; apply position_step_refl.
Qed.

(** X19: a request other than a restart changes at most the session it
    addresses, and removes none. To the position of a session it does one of
    three things: nothing (position, turn, history and last move are as
    before), one move that the oracle accepted (the history grows by the SAN
    of that move), or a reset to the initial position with an empty
    history. *)
Theorem request_changes_one_session e op w (id : string) :
  op <> Restart ->
  (addressed e op <> Some id -> games (run e op w) !! id = games w !! id)
  /\ (forall g, games w !! id = Some g ->
        exists g', games (run e op w) !! id = Some g' /\ position_step g g').
Proof.
  intros Hop. split; [by apply run_elsewhere|].
  intros g Hl.
  destruct (decide (addressed e op = Some id)) as [Hid|Hid].
  2:{ exists g. split; [by rewrite run_elsewhere | apply position_step_refl]. }
  destruct op as [q|req|req|protocol host gameId| |gameId req|gameId name|];
    cbn [run addressed] in *; try done.
  - injection Hid as Hid. unfold get_root. rewrite Hid.
    rewrite (getOrCreateGame_found e id w g Hl).
    eexists. split; [apply lookup_insert_eq|].
    apply position_step_render, position_step_refl.
  - injection Hid as Hid. rewrite <- Hid in Hl.
    rewrite (post_frame_on e req w g Hl). rewrite <- Hid.
    destruct (fr_buttonIndex req) as [b|].
    2:{ eexists. split; [apply lookup_insert_eq|].
        apply position_step_render, position_step_refl. }
    destruct (bool_decide (b = 0)).
    { eexists. split; [apply lookup_insert_eq|].
      apply position_step_render, position_step_refl. }
    destruct (frameButton e _ b (fr_inputText req) g) as [g1|] eqn:Hf.
    + eexists. split; [apply lookup_insert_eq|].
      apply position_step_render. by eapply position_step_frameButton.
    + eexists. split; [apply lookup_insert_eq|]. apply position_step_new.
  - unfold post_move. rewrite Hid.
    destruct (mr_from req) as [from|]; [|by exists g; split; [|apply position_step_refl]].
    destruct (mr_to req) as [to|]; [|by exists g; split; [|apply position_step_refl]].
    destruct (negb (truthy id) || negb (truthy from) || negb (truthy to));
      [by exists g; split; [|apply position_step_refl]|].
    rewrite Hl.
    destruct (checkToken g (mr_playerToken req));
      [by exists g; split; [|apply position_step_refl]|].
    unfold tryMove.
    destruct (chess_move (chess g) from to (or_default (mr_promotion req) "q")) eqn:Hm;
      [|by exists g; split; [|apply position_step_refl]..].
    eexists. split; [apply lookup_insert_eq|]. by eapply position_step_commit.
  - injection Hid as <-.
    eexists. split; [apply lookup_insert_eq|]. apply position_step_new.
  - injection Hid as ->. unfold post_join. rewrite Hl.
    repeat (match goal with |- context [if ?c then _ else _] => destruct c end;
            try by exists g; split; [|apply position_step_refl]).
    all: eexists; (split; [apply lookup_insert_eq|]);
      apply position_step_assign, position_step_refl.
  - injection Hid as ->.
    eexists. split; [apply lookup_insert_eq|].
    match goal with |- position_step _ (set_status _ (assignPlayer _ _ ?b (assignPlayer _ _ ?a (resetGameState ?x)))) =>
      destruct (solo_session_fields e a b x) as (_ & _ & _ & E1 & E2 & E3 & E4 & _)
    end.
    right; right. by rewrite E1, E2, E3, E4.
Qed.

(** ** When the file is written *)

Lemma getOrCreateGame_disk e (gameId : string) w :
  disk (getOrCreateGame e gameId w).2 = disk w.
Proof. unfold getOrCreateGame. by destruct (games w !! gameId). Qed.

(** X20: the file is written exactly by the requests that end with
    [persistGamesToDisk]: POST /api/games, the solo route, a move or a join
    that succeeds, and New Game in the frame. The file then holds the
    snapshot of every session of the Map but the one under ["__proto__"],
    which is never written; after any other request, and after a restart,
    the file is as before. *)
Theorem file_written_iff_persists e op w :
  (persists e op w ->
     disk (run e op w)
     = Some (serializeGame <$> delete "__proto__" (games (run e op w))))
  /\ (~ persists e op w -> disk (run e op w) = disk w).
Proof.
  destruct op as [q|req|req|protocol host gameId| |gameId req|gameId name|];
    cbn [run persists].
  - split; [done|]. intros _. unfold get_root.
    pose proof (getOrCreateGame_disk e (or_default q (uuid e)) w) as Hd.
    by destruct (getOrCreateGame e (or_default q (uuid e)) w).
  - unfold post_frame. fold (frameGameId e req).
    pose proof (getOrCreateGame_disk e (frameGameId e req) w) as Hd.
    destruct (getOrCreateGame e (frameGameId e req) w) as [game w1]. cbn [fst snd] in *.
    unfold startsNewGame.
    destruct (fr_buttonIndex req) as [b|] eqn:Hb.
    2:{ split; [by intros [[_ ?]|[_ ?]] | done]. }
    destruct (bool_decide (b = 0)) eqn:Hz.
    { apply bool_decide_eq_true in Hz. subst b.
      split; [by intros [[_ ?]|[_ ?]] | done]. }
    destruct (frameButton e _ b (fr_inputText req) game) as [g1|] eqn:Hf.
    + split; [|done]. intros Hp. exfalso.
      assert (frameButton e (or_default (fr_fid req) "unknown") b (fr_inputText req) game
              = NewGameSet) as Hn.
      { apply frameButton_NewGameSet. destruct Hp as [[? [= <-]]|[? [= <-]]]; auto. }
      congruence.
    + split; [done|]. intros Hp. exfalso. apply Hp.
      apply frameButton_NewGameSet in Hf. destruct Hf as [[? ->]|[? ->]]; auto.
  - unfold post_move.
    destruct (mr_gameId req) as [gameId|]; [|by split; [intros (?&?&?&?&?)|]].
    destruct (mr_from req) as [from|]; [|by split; [intros (?&?&?&?&?)|]].
    destruct (mr_to req) as [to|]; [|by split; [intros (?&?&?&?&?)|]].
    destruct (negb (truthy gameId) || negb (truthy from) || negb (truthy to));
      [by split; [intros (?&?&?&?&?)|]|].
    destruct (games w !! gameId) as [game|] eqn:Hl; [|by split; [intros (?&?&?&?&?)|]].
    destruct (checkToken game (mr_playerToken req)) as [r|] eqn:Hc.
    { split; [|done]. intros (?&?&?&?&Hr). cbn in Hr. subst r.
      unfold checkToken in Hc.
      repeat (match type of Hc with context [if ?c then _ else _] => destruct c end;
              try discriminate).
      all: destruct (mr_playerToken req); try discriminate.
      all: repeat (match type of Hc with context [if ?c then _ else _] => destruct c end;
              try discriminate). }
    unfold tryMove.
    destruct (chess_move (chess game) from to (or_default (mr_promotion req) "q")) eqn:Hm.
    + split; [done|]. intros Hn. exfalso. apply Hn. by eexists _, _, _, _.
    + split; [by intros (?&?&?&?&?) | done].
    + split; [by intros (?&?&?&?&?) | done].
  - unfold get_game. destruct (games w !! gameId); split; [by intros [] | done..].
  - split; [done|]. intros Hn. by destruct Hn.
  - unfold post_join.
    destruct (games w !! gameId) as [game|] eqn:Hl; [|by split; [intros (?&?&?&?)|]].
    repeat (match goal with |- context [if ?c then _ else _] => destruct c end;
            try by split; [intros (?&?&?&?)|]).
    all: split; [done|]; intros Hn; exfalso; apply Hn; by eexists _, _, _.
  - split; [done|]. intros Hn. by destruct Hn.
  - split; [by intros [] |]. intros _. unfold restart, loadGamesFromDisk. cbn.
    by destruct (disk w).
Qed.

(** ** Restart *)

Lemma checkToken_same_seats g g' (playerToken : option string) :
  whitePlayer g' = whitePlayer g -> blackPlayer g' = blackPlayer g ->
  currentPlayer g' = currentPlayer g ->
  checkToken g' playerToken = checkToken g playerToken.
Proof.
  intros Hw Hb Hp. unfold checkToken, hasWebPlayers, allowedColors.
  by rewrite Hw, Hb, Hp.
Qed.

(** ** The captured pieces *)

Lemma captured_by_length (history : list Move) :
  (length (omap (fun m => if bool_decide (m_color m = White)
                          then match m_captured m with
                               | Some x => if truthy x then Some x else None
                               | None => None
                               end
                          else None) history)
   + length (omap (fun m => if bool_decide (m_color m = Black)
                            then match m_captured m with
                                 | Some x => if truthy x then Some x else None
                                 | None => None
                                 end
                            else None) history)
   = length (filter (fun m => has_capture m = true) history))%nat.
Proof.
  induction history as [|m l IH]; [done|].
  destruct (has_capture m) eqn:Hc.
  - rewrite filter_cons_True by done.
    unfold has_capture in Hc. cbn [omap list_omap] in *.
    destruct (m_captured m) as [x|]; [|done]. rewrite Hc.
    destruct (m_color m); repeat case_bool_decide; try done; cbn in *; lia.
  - rewrite filter_cons_False by (by rewrite Hc).
    unfold has_capture in Hc. cbn [omap list_omap] in *.
    destruct (m_captured m) as [x|]; [rewrite Hc|];
      destruct (m_color m); repeat case_bool_decide; try done; cbn in *; lia.
Qed.

(** X23: [getCapturedPieces] sorts the captures of the verbose history by
    the colour of the capturing move: the two lists together have one entry
    for each move with a capture, the white list holds exactly the pieces
    captured by White's moves and the black list those captured by
    Black's. *)
Theorem getCapturedPieces_partition g :
  (length (getCapturedPieces g).1 + length (getCapturedPieces g).2
   = length (filter (fun m => has_capture m = true) (chess_history (chess g))))%nat
  /\ (forall x, x ∈ (getCapturedPieces g).1 <->
        exists m, m ∈ chess_history (chess g) /\ m_color m = White
                  /\ m_captured m = Some x /\ x <> "")
  /\ (forall x, x ∈ (getCapturedPieces g).2 <->
        exists m, m ∈ chess_history (chess g) /\ m_color m = Black
                  /\ m_captured m = Some x /\ x <> "").
Proof.
  unfold getCapturedPieces. cbn [fst snd]. split_and!.
  - apply captured_by_length.
  - intros x. rewrite list_elem_of_omap. split.
    + intros (m & Hin & Hm). exists m.
      case_bool_decide; [|done]. destruct (m_captured m) as [y|]; [|done].
      destruct (truthy y) eqn:Ht; [|done]. injection Hm as ->.
      by apply truthy_true in Ht.
    + intros (m & Hin & Hc & Hcap & Hne). exists m. split; [done|].
      rewrite bool_decide_eq_true_2 by done. rewrite Hcap.
      apply truthy_true in Hne. by rewrite Hne.
  - intros x. rewrite list_elem_of_omap. split.
    + intros (m & Hin & Hm). exists m.
      case_bool_decide; [|done]. destruct (m_captured m) as [y|]; [|done].
      destruct (truthy y) eqn:Ht; [|done]. injection Hm as ->.
      by apply truthy_true in Ht.
    + intros (m & Hin & Hc & Hcap & Hne). exists m. split; [done|].
      rewrite bool_decide_eq_true_2 by done. rewrite Hcap.
      apply truthy_true in Hne. by rewrite Hne.
Qed.

End RunProofs.

Section TurnProofs.
Context {Chess : Type} {O : RulesOracle Chess} {J : StringOracle} {L : OracleLaws O}.
Implicit Types (g game : Game Chess) (w : World Chess).

(** X22: the snapshot brings back every session but the one under
    ["__proto__"]. For a session of a reachable world under another id,
    a process that starts from the file written by [persistGamesToDisk],
    whatever its memory held, has a session under the id with the same
    position (the same FEN), status, turn, move history, last move and
    seats, and the token check of POST /move answers every token as before;
    and it has no session under an id that had none. *)
Theorem tokens_survive_restart e w (w' : World Chess) (gameId : string) g :
  reachable w -> games w !! gameId = Some g -> gameId <> "__proto__" ->
  disk w' = disk (persistGamesToDisk w) ->
  (exists g',
     games (restart e w') !! gameId = Some g'
     /\ chess_fen (chess g') = chess_fen (chess g)
     /\ status g' = status g /\ currentPlayer g' = currentPlayer g
     /\ moveHistory g' = moveHistory g /\ lastMove g' = lastMove g
     /\ whitePlayer g' = whitePlayer g /\ blackPlayer g' = blackPlayer g
     /\ forall playerToken, checkToken g' playerToken = checkToken g playerToken)
  /\ (forall other, games w !! other = None -> games (restart e w') !! other = None).
Proof.
  intros Hr Hl Hne Hd. split.
  - destruct (named_fields_reachable w gameId g Hr Hl) as [Hs Hp].
    exists (restoreGame e (serializeGame g)).
    assert (currentPlayer (restoreGame e (serializeGame g)) = currentPlayer g) as Hcp.
    { unfold restoreGame. cbn [currentPlayer serializeGame s_currentPlayer].
      by apply or_default_some. }
    split_and!; try done.
    + rewrite (restart_lookup e w' _ gameId Hd), snapshot_lookup.
      rewrite bool_decide_eq_false_2 by done. by rewrite Hl.
    + apply restoreGame_serializeGame_chess.
    + unfold restoreGame. cbn [status serializeGame s_status]. by apply or_default_some.
    + intros playerToken. by apply checkToken_same_seats.
  - intros other Hno.
    rewrite (restart_lookup e w' _ other Hd), snapshot_lookup.
    rewrite Hno. by case_bool_decide.
Qed.

(** X24: in every reachable world [currentPlayer] is the colour code of
    the side to move of the position, so the seat whose token POST /move
    asks for is the seat of that side. *)
Theorem turn_follows_position w (gameId : string) g :
  reachable w -> games w !! gameId = Some g ->
  currentPlayer g = color_code (chess_turn (chess g))
  /\ seat_to_move g = match chess_turn (chess g) with
                      | White => whitePlayer g
                      | Black => blackPlayer g
                      end.
Proof.
  intros Hr Hl.
  pose proof (turn_mirrors_reachable w gameId g Hr Hl) as Ht.
  unfold turn_mirrors in Ht. split; [exact Ht|].
  unfold seat_to_move. rewrite Ht. by destruct (chess_turn (chess g)).
Qed.

End TurnProofs.

(** ** The extras on concrete requests *)

Lemma parseMove_reads_squares_witness :
  is_square "e7" = true /\ is_square "e8" = true
  /\ (forall p, Some "q" = Some p -> is_promotion_letter p = true)
  /\ lowerAscii "E7e8Q" = "e7" +:+ "e8" +:+ default "" (Some "q")
  /\ parseMove (lowerAscii "E7e8Q") = Some ("e7", "e8", Some "q").
Proof. exact (parseMove_reads_squares "E7e8Q" "e7" "e8" (Some "q") eq_refl). Defined.

Lemma parseMove_roundtrip_witness :
  parseMove ("g7" +:+ "g8") = Some ("g7", "g8", None)
  /\ forall p, is_promotion_letter p = true ->
       parseMove ("g7" +:+ "g8" +:+ p) = Some ("g7", "g8", Some p).
Proof. exact (parseMove_roundtrip "g7" "g8" eq_refl eq_refl). Defined.

Lemma whiteJoin_response :
  post_join (O:=PawnOracle.oracle) Demo.env1 "0b6f7c1e" FrameDemo.joinAsWhite Demo.created
  = (JoinOk "white" "77aa01d2" (sanitizePlayer (Some Demo.alice)), Demo.whiteJoined).
Proof. vm_compute. reflexivity. Qed.

Lemma join_seats_the_player_witness :
  exists g g' player,
    games Demo.created !! "0b6f7c1e" = Some g /\ games Demo.whiteJoined !! "0b6f7c1e" = Some g'
    /\ "77aa01d2" = uuid Demo.env1 /\ token player = Some "77aa01d2"
    /\ name player <> ""
    /\ sanitizePlayer (Some Demo.alice) = sanitizePlayer (Some player)
    /\ has_key "token" (sanitizePlayer (Some Demo.alice)) = false
    /\ (("white" = "white" /\ whitePlayer g = None
         /\ whitePlayer g' = Some player /\ blackPlayer g' = blackPlayer g
         /\ status g' = (if bool_decide (status g = "finished") then "finished"
                         else if bool_decide (is_Some (blackPlayer g)) then "active"
                         else "waiting"))
        \/ ("white" = "black" /\ blackPlayer g = None
            /\ blackPlayer g' = Some player /\ whitePlayer g' = whitePlayer g
            /\ status g' = (if bool_decide (status g = "finished") then "finished"
                            else if bool_decide (is_Some (whitePlayer g)) then "active"
                            else "waiting")))
    /\ chess g' = chess g /\ currentPlayer g' = currentPlayer g
    /\ moveHistory g' = moveHistory g /\ lastMove g' = lastMove g
    /\ disk Demo.whiteJoined
       = Some (serializeGame <$> delete "__proto__" (games Demo.whiteJoined)).
Proof.
  exact (join_seats_the_player (O:=PawnOracle.oracle) Demo.env1 "0b6f7c1e"
           FrameDemo.joinAsWhite Demo.created "white" "77aa01d2"
           (sanitizePlayer (Some Demo.alice)) Demo.whiteJoined whiteJoin_response).
Defined.

Lemma join_succeeds_iff_witness :
  (exists color tok pj w',
     post_join (O:=PawnOracle.oracle) Demo.env1 "0b6f7c1e" FrameDemo.joinAsWhite Demo.created
     = (JoinOk color tok pj, w'))
  <-> (askedColor FrameDemo.joinAsWhite = "white" /\ whitePlayer Demo.createdGame = None)
      \/ (askedColor FrameDemo.joinAsWhite = "black" /\ blackPlayer Demo.createdGame = None)
      \/ (askedColor FrameDemo.joinAsWhite = "random"
          /\ (whitePlayer Demo.createdGame = None \/ blackPlayer Demo.createdGame = None)).
Proof.
  exact (join_succeeds_iff (O:=PawnOracle.oracle) Demo.env1 "0b6f7c1e"
           FrameDemo.joinAsWhite Demo.created Demo.createdGame created_lookup).
Defined.

Lemma frame_solo_lookup (e : Env) (b : Z) (text : option string) :
  games Demo.solo !! frameGameId e (FrameDemo.press b text) = Some Demo.soloGame.
Proof. exact solo_lookup. Qed.

Lemma frame_whiteJoined_lookup (e : Env) (b : Z) (text : option string) :
  games Demo.whiteJoined !! frameGameId e (FrameDemo.press b text) = Some Demo.joinedGame.
Proof. exact whiteJoined_lookup. Qed.

Lemma soloGame_active : status Demo.soloGame = "active".
Proof. vm_compute. reflexivity. Qed.

Lemma joinedGame_waiting : status Demo.joinedGame = "waiting".
Proof. vm_compute. reflexivity. Qed.

Lemma soloGame_e2 : PawnOracle.get (chess Demo.soloGame) "e2" = inl (Some FrameDemo.whitePawn).
Proof. vm_compute. reflexivity. Qed.

Lemma soloGame_e4 :
  PawnOracle.move (chess Demo.soloGame) "e2" "e4" (or_default None "q")
  = Moved Demo.after_e4 Demo.move_e4.
Proof. vm_compute. reflexivity. Qed.

Lemma whitePawn_to_move (p : Piece) :
  Some FrameDemo.whitePawn = Some p -> color_code (p_color p) = currentPlayer Demo.soloGame.
Proof. intros [= <-]. vm_compute. reflexivity. Qed.

Lemma frame_move_applied_witness :
  games (post_frame Demo.env0 FrameDemo.makeMove Demo.solo)
    !! frameGameId Demo.env0 FrameDemo.makeMove
  = Some (commitMove Demo.soloGame Demo.after_e4 Demo.move_e4 "e2" "e4")
  /\ disk (post_frame Demo.env0 FrameDemo.makeMove Demo.solo) = disk Demo.solo.
Proof.
  exact (frame_move_applied (O:=PawnOracle.oracle) Demo.env0 FrameDemo.makeMove Demo.solo
           Demo.soloGame "e2e4" "e2" "e4" None (Some FrameDemo.whitePawn)
           Demo.after_e4 Demo.move_e4
           (frame_solo_lookup _ _ _) soloGame_active eq_refl eq_refl ltac:(discriminate)
           eq_refl soloGame_e2 whitePawn_to_move soloGame_e4).
Defined.

Lemma frame_move_or_nothing_witness :
  exists g',
    games (post_frame Demo.env0 FrameDemo.makeMove Demo.solo)
      !! frameGameId Demo.env0 FrameDemo.makeMove = Some g'
    /\ disk (post_frame Demo.env0 FrameDemo.makeMove Demo.solo) = disk Demo.solo
    /\ (g' = renderStatus Demo.soloGame
        \/ exists from to promotion piece c' move,
             parseMove (trim "e2e4") = Some (from, to, promotion)
             /\ chess_get (chess Demo.soloGame) from = inl piece
             /\ (forall p, piece = Some p ->
                   color_code (p_color p) = currentPlayer Demo.soloGame)
             /\ chess_move (chess Demo.soloGame) from to (or_default promotion "q")
                = Moved c' move
             /\ g' = commitMove Demo.soloGame c' move from to).
Proof.
  exact (frame_move_or_nothing (O:=PawnOracle.oracle) Demo.env0 FrameDemo.makeMove Demo.solo
           Demo.soloGame "e2e4" (frame_solo_lookup _ _ _) soloGame_active
           eq_refl eq_refl ltac:(discriminate)).
Defined.

Lemma makeMove_keeps_game :
  ~ startsNewGame FrameDemo.makeMove
      (getOrCreateGame Demo.env0 (frameGameId Demo.env0 FrameDemo.makeMove) Demo.solo).1.
Proof. intros [[_ H]|[H _]]; [discriminate H | vm_compute in H; discriminate H]. Qed.

Lemma frame_writes_file_only_for_new_game_witness :
  disk (post_frame Demo.env0 FrameDemo.makeMove Demo.solo) = disk Demo.solo
  /\ restart Demo.env1 (post_frame Demo.env0 FrameDemo.makeMove Demo.solo)
     = restart Demo.env1 Demo.solo.
Proof.
  exact (frame_writes_file_only_for_new_game (O:=PawnOracle.oracle) Demo.env0 Demo.env1
           FrameDemo.makeMove Demo.solo makeMove_keeps_game).
Defined.

Lemma frame_new_game_witness :
  post_frame Demo.env0 FrameDemo.newGame Demo.solo
  = persistGamesToDisk
      (games_set (frameGameId Demo.env0 FrameDemo.newGame) (createNewGame Demo.env0) Demo.solo)
  /\ games (post_frame Demo.env0 FrameDemo.newGame Demo.solo)
       !! frameGameId Demo.env0 FrameDemo.newGame = Some (createNewGame Demo.env0)
  /\ (forall other, other <> frameGameId Demo.env0 FrameDemo.newGame ->
        games (post_frame Demo.env0 FrameDemo.newGame Demo.solo) !! other
        = games Demo.solo !! other)
  /\ disk (post_frame Demo.env0 FrameDemo.newGame Demo.solo)
     = Some (serializeGame <$>
               delete "__proto__" (games (post_frame Demo.env0 FrameDemo.newGame Demo.solo))).
Proof.
  exact (frame_new_game (O:=PawnOracle.oracle) Demo.env0 FrameDemo.newGame Demo.solo
           Demo.soloGame (frame_solo_lookup _ _ _)
           (or_introl (conj soloGame_active eq_refl))).
Defined.

Lemma frame_join_replaces_seat_witness :
  token (framePlayer Demo.env0 FrameDemo.joinWhite) = None
  /\ (fr_buttonIndex FrameDemo.joinWhite = Some 1 ->
      exists g', games (post_frame Demo.env0 FrameDemo.joinWhite Demo.whiteJoined)
                   !! frameGameId Demo.env0 FrameDemo.joinWhite = Some g'
        /\ whitePlayer g' = Some (framePlayer Demo.env0 FrameDemo.joinWhite)
        /\ blackPlayer g' = blackPlayer Demo.joinedGame
        /\ status g' = (if bool_decide (is_Some (blackPlayer Demo.joinedGame))
                        then if terminal (chess Demo.joinedGame) then "finished" else "active"
                        else "waiting"))
  /\ (fr_buttonIndex FrameDemo.joinWhite = Some 2 ->
      exists g', games (post_frame Demo.env0 FrameDemo.joinWhite Demo.whiteJoined)
                   !! frameGameId Demo.env0 FrameDemo.joinWhite = Some g'
        /\ blackPlayer g' = Some (framePlayer Demo.env0 FrameDemo.joinWhite)
        /\ whitePlayer g' = whitePlayer Demo.joinedGame
        /\ status g' = (if bool_decide (is_Some (whitePlayer Demo.joinedGame))
                        then if terminal (chess Demo.joinedGame) then "finished" else "active"
                        else "waiting")).
Proof.
  exact (frame_join_replaces_seat (O:=PawnOracle.oracle) Demo.env0 FrameDemo.joinWhite
           Demo.whiteJoined Demo.joinedGame (frame_whiteJoined_lookup _ _ _)
           joinedGame_waiting).
Defined.

Lemma frame_solo_keeps_position_witness :
  exists g',
    games (post_frame Demo.env0 FrameDemo.playSolo Demo.whiteJoined)
      !! frameGameId Demo.env0 FrameDemo.playSolo = Some g'
    /\ whitePlayer g' = Some (framePlayer Demo.env0 FrameDemo.playSolo)
    /\ blackPlayer g' = Some (framePlayer Demo.env0 FrameDemo.playSolo)
    /\ chess g' = chess Demo.joinedGame /\ moveHistory g' = moveHistory Demo.joinedGame
    /\ currentPlayer g' = currentPlayer Demo.joinedGame
    /\ status g' = (if terminal (chess Demo.joinedGame) then "finished" else "active")
    /\ forall playerToken, checkToken g' playerToken = None.
Proof.
  exact (frame_solo_keeps_position (O:=PawnOracle.oracle) Demo.env0 FrameDemo.playSolo
           Demo.whiteJoined Demo.joinedGame (frame_whiteJoined_lookup _ _ _)
           joinedGame_waiting eq_refl).
Defined.

Lemma frame_resign_by_anyone_witness :
  exists g',
    games (post_frame Demo.env0 FrameDemo.resign Demo.solo)
      !! frameGameId Demo.env0 FrameDemo.resign = Some g'
    /\ status g' = "finished"
    /\ chess g' = chess Demo.soloGame /\ whitePlayer g' = whitePlayer Demo.soloGame
    /\ blackPlayer g' = blackPlayer Demo.soloGame
    /\ moveHistory g' = moveHistory Demo.soloGame /\ lastMove g' = lastMove Demo.soloGame
    /\ disk (post_frame Demo.env0 FrameDemo.resign Demo.solo) = disk Demo.solo.
Proof.
  exact (frame_resign_by_anyone (O:=PawnOracle.oracle) Demo.env0 FrameDemo.resign
           Demo.solo Demo.soloGame (frame_solo_lookup _ _ _) soloGame_active eq_refl).
Defined.

Lemma get_root_idempotent_witness :
  get_root Demo.env1 (Some "0b6f7c1e") (get_root Demo.env0 (Some "0b6f7c1e") Demo.solo)
  = get_root Demo.env0 (Some "0b6f7c1e") Demo.solo
  /\ disk (get_root Demo.env0 (Some "0b6f7c1e") Demo.solo) = disk Demo.solo
  /\ (games Demo.solo !! "0b6f7c1e" = None ->
        games (get_root Demo.env0 (Some "0b6f7c1e") Demo.solo) !! "0b6f7c1e"
        = Some (createNewGame Demo.env0))
  /\ (forall g, games Demo.solo !! "0b6f7c1e" = Some g ->
        exists g', games (get_root Demo.env0 (Some "0b6f7c1e") Demo.solo) !! "0b6f7c1e" = Some g'
          /\ chess g' = chess g /\ whitePlayer g' = whitePlayer g
          /\ blackPlayer g' = blackPlayer g /\ currentPlayer g' = currentPlayer g
          /\ moveHistory g' = moveHistory g /\ lastMove g' = lastMove g
          /\ status g' = (if bool_decide (status g = "active") && terminal (chess g)
                          then "finished" else status g)).
Proof.
  exact (get_root_idempotent (O:=PawnOracle.oracle) Demo.env0 Demo.env1 "0b6f7c1e" Demo.solo
           ltac:(discriminate)).
Defined.

Lemma session_shape_reachable_witness : session_shape Demo.soloGame.
Proof.
  exact (session_shape_reachable (O:=PawnOracle.oracle) Demo.solo "0b6f7c1e" Demo.soloGame
           solo_reachable solo_lookup).
Defined.

Lemma request_changes_one_session_witness :
  (addressed Demo.env1 (PostSolo "0b6f7c1e" (Some "Solo")) <> Some "0b6f7c1e" ->
     games (run (O:=PawnOracle.oracle) Demo.env1 (PostSolo "0b6f7c1e" (Some "Solo"))
              Demo.created) !! "0b6f7c1e"
     = games Demo.created !! "0b6f7c1e")
  /\ (forall g, games Demo.created !! "0b6f7c1e" = Some g ->
        exists g', games (run (O:=PawnOracle.oracle) Demo.env1
                            (PostSolo "0b6f7c1e" (Some "Solo")) Demo.created)
                     !! "0b6f7c1e" = Some g'
                   /\ position_step g g').
Proof.
  exact (request_changes_one_session (O:=PawnOracle.oracle) Demo.env1
           (PostSolo "0b6f7c1e" (Some "Solo")) Demo.created "0b6f7c1e" ltac:(discriminate)).
Defined.

Lemma tokens_survive_restart_witness :
  (exists g',
     games (restart Demo.env0 {| games := ∅; disk := disk (persistGamesToDisk Demo.solo) |})
       !! "0b6f7c1e" = Some g'
     /\ PawnOracle.fen (chess g') = PawnOracle.fen (chess Demo.soloGame)
     /\ status g' = status Demo.soloGame /\ currentPlayer g' = currentPlayer Demo.soloGame
     /\ moveHistory g' = moveHistory Demo.soloGame /\ lastMove g' = lastMove Demo.soloGame
     /\ whitePlayer g' = whitePlayer Demo.soloGame
     /\ blackPlayer g' = blackPlayer Demo.soloGame
     /\ forall playerToken, checkToken g' playerToken = checkToken Demo.soloGame playerToken)
  /\ (forall other, games Demo.solo !! other = None ->
        games (restart Demo.env0
                 {| games := ∅; disk := disk (persistGamesToDisk Demo.solo) |}) !! other
        = None).
Proof.
  exact (tokens_survive_restart (O:=PawnOracle.oracle) (L:=PawnOracle_laws) Demo.env0
           Demo.solo {| games := ∅; disk := disk (persistGamesToDisk Demo.solo) |}
           "0b6f7c1e" Demo.soloGame solo_reachable solo_lookup ltac:(discriminate) eq_refl).
Defined.

Lemma turn_follows_position_witness :
  currentPlayer Demo.soloGame = color_code (PawnOracle.side (chess Demo.soloGame))
  /\ seat_to_move Demo.soloGame = match PawnOracle.side (chess Demo.soloGame) with
                                  | White => whitePlayer Demo.soloGame
                                  | Black => blackPlayer Demo.soloGame
                                  end.
Proof.
  exact (turn_follows_position (O:=PawnOracle.oracle) (L:=PawnOracle_laws)
           Demo.solo "0b6f7c1e" Demo.soloGame solo_reachable solo_lookup).
Defined.

Section TwoPlayers.
Context {Chess : Type} {O : RulesOracle Chess} {J : StringOracle}.
Implicit Types (g game : Game Chess) (w : World Chess).

(** The token check on a session whose seats hold two different tokens. *)
Lemma checkToken_two_seats g (pw pb : Player) (tw tb : string) :
  whitePlayer g = Some pw -> blackPlayer g = Some pb ->
  token pw = Some tw -> token pb = Some tb ->
  tw <> "" -> tb <> "" -> tw <> tb ->
  checkToken g None = Some MissingPlayerToken
  /\ checkToken g (Some tw)
     = (if bool_decide (currentPlayer g = "w") then None else Some NotYourTurn)
  /\ checkToken g (Some tb)
     = (if bool_decide (currentPlayer g = "w") then Some NotYourTurn else None)
  /\ (forall t, t <> tw -> t <> tb ->
        checkToken g (Some t)
        = Some (if bool_decide (t = "") then MissingPlayerToken else InvalidPlayerToken)).
Proof.
  intros Hw Hb Htw Htb Hnw Hnb Hne.
  assert (hasWebPlayers g = true) as Hweb.
  { unfold hasWebPlayers, has_token. rewrite Hw, Htw. cbn.
    apply truthy_true in Hnw. by rewrite Hnw. }
  unfold checkToken, allowedColors, token_is. rewrite Hweb, Hw, Hb, Htw, Htb.
  split_and!.
  - done.
  - apply truthy_true in Hnw. rewrite Hnw. cbn [negb].
    rewrite (bool_decide_eq_true_2 (Some tw = Some tw)) by done.
    rewrite (bool_decide_eq_false_2 (Some tb = Some tw)) by congruence.
    cbn [app]. rewrite bool_decide_eq_false_2 by discriminate.
    destruct (bool_decide (currentPlayer g = "w")).
    + by rewrite bool_decide_eq_true_2 by (apply list_elem_of_singleton; done).
    + by rewrite bool_decide_eq_false_2
        by (rewrite list_elem_of_singleton; discriminate).
  - apply truthy_true in Hnb. rewrite Hnb. cbn [negb].
    rewrite (bool_decide_eq_false_2 (Some tw = Some tb)) by congruence.
    rewrite (bool_decide_eq_true_2 (Some tb = Some tb)) by done.
    cbn [app]. rewrite bool_decide_eq_false_2 by discriminate.
    destruct (bool_decide (currentPlayer g = "w")).
    + by rewrite bool_decide_eq_false_2
        by (rewrite list_elem_of_singleton; discriminate).
    + by rewrite bool_decide_eq_true_2 by (apply list_elem_of_singleton; done).
  - intros t H1 H2. unfold truthy. case_bool_decide; cbn [negb]; [done|].
    rewrite (bool_decide_eq_false_2 (Some tw = Some t)) by congruence.
    rewrite (bool_decide_eq_false_2 (Some tb = Some t)) by congruence.
    cbn [app]. by rewrite bool_decide_eq_true_2.
Qed.

Lemma post_join_ok e (gameId : string) (req : JoinReq) w g
    (color tok : string) (pj : JSON) (w' : World Chess) :
  games w !! gameId = Some g ->
  post_join e gameId req w = (JoinOk color tok pj, w') ->
  tok = uuid e
  /\ games w' !! gameId = Some (assignPlayer e color (joiner e req color) g)
  /\ ((color = "white" /\ whitePlayer g = None) \/ (color = "black" /\ blackPlayer g = None)).
Proof.
  intros Hl Hj.
  pose proof (post_join_by_target e gameId req w g Hl) as H.
  destruct (joinTarget e req g) as [c|] eqn:Ht.
  2:{ rewrite H in Hj. injection Hj as Hj _. by apply joinRefusal_not_ok in Hj. }
  rewrite H in Hj. injection Hj as <- <- <- <-.
  split_and!; [done | cbn; apply lookup_insert_eq | by eapply joinTarget_color].
Qed.

Lemma post_join_full e (gameId : string) (req : JoinReq) w g :
  games w !! gameId = Some g -> is_Some (whitePlayer g) -> is_Some (blackPlayer g) ->
  post_join e gameId req w = (joinRefusal req g, w).
Proof.
  intros Hl [pw Hw] [pb Hb].
  pose proof (post_join_by_target e gameId req w g Hl) as H.
  destruct (joinTarget e req g) as [c|] eqn:Ht; [|done].
  apply joinTarget_color in Ht as [[_ E]|[_ E]]; congruence.
Qed.

(** X25: two joins make a game. On a waiting session with both seats
    open, two joins that succeed take the two colours and leave the
    position and the turn alone; the session is active; POST /move then
    refuses a request without token, lets each token move only when its
    colour is to move, and refuses every other token; and no third join
    succeeds or changes the world. *)
Theorem two_joins_make_a_game e1 e2 (gameId : string) (req1 req2 : JoinReq) w g
    (c1 t1 c2 t2 : string) (pj1 pj2 : JSON) (w1 w2 : World Chess) :
  games w !! gameId = Some g ->
  whitePlayer g = None -> blackPlayer g = None -> status g = "waiting" ->
  uuid e1 <> "" -> uuid e2 <> "" -> uuid e1 <> uuid e2 ->
  post_join e1 gameId req1 w = (JoinOk c1 t1 pj1, w1) ->
  post_join e2 gameId req2 w1 = (JoinOk c2 t2 pj2, w2) ->
  exists g2 tw tb,
    games w2 !! gameId = Some g2
    /\ status g2 = "active"
    /\ chess g2 = chess g /\ currentPlayer g2 = currentPlayer g
    /\ ((c1 = "white" /\ c2 = "black" /\ tw = t1 /\ tb = t2)
        \/ (c1 = "black" /\ c2 = "white" /\ tw = t2 /\ tb = t1))
    /\ checkToken g2 None = Some MissingPlayerToken
    /\ checkToken g2 (Some tw)
       = (if bool_decide (currentPlayer g = "w") then None else Some NotYourTurn)
    /\ checkToken g2 (Some tb)
       = (if bool_decide (currentPlayer g = "w") then Some NotYourTurn else None)
    /\ (forall t, t <> t1 -> t <> t2 ->
          checkToken g2 (Some t)
          = Some (if bool_decide (t = "") then MissingPlayerToken else InvalidPlayerToken))
    /\ (forall e3 req3 c3 t3 pj3,
          (post_join e3 gameId req3 w2).1 <> JoinOk c3 t3 pj3
          /\ (post_join e3 gameId req3 w2).2 = w2).
Proof.
  intros Hl Hw Hb Hs Hn1 Hn2 Hne Hj1 Hj2.
  destruct (post_join_ok e1 gameId req1 w g c1 t1 pj1 w1 Hl Hj1) as (-> & Hl1 & Hc1).
  set (j1 := joiner e1 req1 c1) in *.
  set (g1 := assignPlayer e1 c1 j1 g) in *.
  destruct (post_join_ok e2 gameId req2 w1 g1 c2 t2 pj2 w2 Hl1 Hj2) as (-> & Hl2 & Hc2).
  set (j2 := joiner e2 req2 c2) in *.
  set (g2 := assignPlayer e2 c2 j2 g1) in *.
  destruct (assignPlayer_frame e1 c1 j1 g) as (Ech1 & Ecp1 & _).
  destruct (assignPlayer_frame e2 c2 j2 g1) as (Ech2 & Ecp2 & _).
  fold g1 in Ech1, Ecp1. fold g2 in Ech2, Ecp2.
  assert (forall e3 req3 c3 t3 pj3,
            is_Some (whitePlayer g2) -> is_Some (blackPlayer g2) ->
            (post_join e3 gameId req3 w2).1 <> JoinOk c3 t3 pj3
            /\ (post_join e3 gameId req3 w2).2 = w2) as Hfull.
  { intros e3 req3 c3 t3 pj3 H1 H2.
    rewrite (post_join_full e3 gameId req3 w2 g2 Hl2 H1 H2).
    split; [apply joinRefusal_not_ok | done]. }
  destruct Hc1 as [[E1 _]|[E1 _]]; subst c1.
  - destruct (assignPlayer_white e1 j1 g) as [Ew1 Eb1]. fold g1 in Ew1, Eb1.
    pose proof (proj1 (assignPlayer_waiting_status e1 j1 g Hs)) as Es1. fold g1 in Es1.
    rewrite Hb in Es1, Eb1.
    rewrite (bool_decide_eq_false_2 (is_Some None)) in Es1 by (by intros [? ?]).
    destruct Hc2 as [[E2 Hc2]|[E2 _]]; [congruence|]. subst c2.
    destruct (assignPlayer_black e2 j2 g1) as [Eb2 Ew2]. fold g2 in Eb2, Ew2.
    pose proof (proj2 (assignPlayer_waiting_status e2 j2 g1 Es1)) as Es2. fold g2 in Es2.
    rewrite Ew1 in Es2, Ew2.
    rewrite (bool_decide_eq_true_2 (is_Some (Some j1))) in Es2 by (by eexists).
    destruct (checkToken_two_seats g2 j1 j2 (uuid e1) (uuid e2) Ew2 Eb2 eq_refl eq_refl
                Hn1 Hn2 Hne) as (K1 & K2 & K3 & K4).
    rewrite Ecp2, Ecp1 in K2, K3.
    exists g2, (uuid e1), (uuid e2).
    split_and!; try done; try congruence.
    + left. done.
    + intros e3 req3 c3 t3 pj3. apply Hfull; [rewrite Ew2 | rewrite Eb2]; by eexists.
  - destruct (assignPlayer_black e1 j1 g) as [Eb1 Ew1]. fold g1 in Ew1, Eb1.
    pose proof (proj2 (assignPlayer_waiting_status e1 j1 g Hs)) as Es1. fold g1 in Es1.
    rewrite Hw in Es1, Ew1.
    rewrite (bool_decide_eq_false_2 (is_Some None)) in Es1 by (by intros [? ?]).
    destruct Hc2 as [[E2 _]|[E2 Hc2]]; [|congruence]. subst c2.
    destruct (assignPlayer_white e2 j2 g1) as [Ew2 Eb2]. fold g2 in Eb2, Ew2.
    pose proof (proj1 (assignPlayer_waiting_status e2 j2 g1 Es1)) as Es2. fold g2 in Es2.
    rewrite Eb1 in Es2, Eb2.
    rewrite (bool_decide_eq_true_2 (is_Some (Some j1))) in Es2 by (by eexists).
    assert (uuid e2 <> uuid e1) as Hne' by congruence.
    destruct (checkToken_two_seats g2 j2 j1 (uuid e2) (uuid e1) Ew2 Eb2 eq_refl eq_refl
                Hn2 Hn1 Hne') as (K1 & K2 & K3 & K4).
    rewrite Ecp2, Ecp1 in K2, K3.
    exists g2, (uuid e2), (uuid e1).
    split_and!; try done; try congruence.
    + right. done.
    + intros t H1 H2. by apply K4.
    + intros e3 req3 c3 t3 pj3. apply Hfull; [rewrite Ew2 | rewrite Eb2]; by eexists.
Qed.

End TwoPlayers.

Lemma blackJoin_response :
  post_join (O:=PawnOracle.oracle) Demo.env0 "0b6f7c1e"
    {| jr_color := Absent; jr_name := None |} Demo.whiteJoined
  = (JoinOk "black" "0b6f7c1e"
       (sanitizePlayer (Some (joiner Demo.env0 {| jr_color := Absent; jr_name := None |} "black"))),
     (post_join (O:=PawnOracle.oracle) Demo.env0 "0b6f7c1e"
        {| jr_color := Absent; jr_name := None |} Demo.whiteJoined).2).
Proof. vm_compute. reflexivity. Qed.

Lemma two_joins_make_a_game_witness :
  exists g2 tw tb,
    games (post_join (O:=PawnOracle.oracle) Demo.env0 "0b6f7c1e"
             {| jr_color := Absent; jr_name := None |} Demo.whiteJoined).2
      !! "0b6f7c1e" = Some g2
    /\ status g2 = "active"
    /\ chess g2 = chess Demo.createdGame /\ currentPlayer g2 = currentPlayer Demo.createdGame
    /\ (("white" = "white" /\ "black" = "black" /\ tw = "77aa01d2" /\ tb = "0b6f7c1e")
        \/ ("white" = "black" /\ "black" = "white" /\ tw = "0b6f7c1e" /\ tb = "77aa01d2"))
    /\ checkToken g2 None = Some MissingPlayerToken
    /\ checkToken g2 (Some tw)
       = (if bool_decide (currentPlayer Demo.createdGame = "w") then None else Some NotYourTurn)
    /\ checkToken g2 (Some tb)
       = (if bool_decide (currentPlayer Demo.createdGame = "w") then Some NotYourTurn else None)
    /\ (forall t, t <> "77aa01d2" -> t <> "0b6f7c1e" ->
          checkToken g2 (Some t)
          = Some (if bool_decide (t = "") then MissingPlayerToken else InvalidPlayerToken))
    /\ (forall e3 req3 c3 t3 pj3,
          (post_join e3 "0b6f7c1e" req3
             (post_join (O:=PawnOracle.oracle) Demo.env0 "0b6f7c1e"
                {| jr_color := Absent; jr_name := None |} Demo.whiteJoined).2).1
          <> JoinOk c3 t3 pj3
          /\ (post_join e3 "0b6f7c1e" req3
                (post_join (O:=PawnOracle.oracle) Demo.env0 "0b6f7c1e"
                   {| jr_color := Absent; jr_name := None |} Demo.whiteJoined).2).2
             = (post_join (O:=PawnOracle.oracle) Demo.env0 "0b6f7c1e"
                  {| jr_color := Absent; jr_name := None |} Demo.whiteJoined).2).
Proof.
  exact (two_joins_make_a_game (O:=PawnOracle.oracle) Demo.env1 Demo.env0 "0b6f7c1e"
           FrameDemo.joinAsWhite {| jr_color := Absent; jr_name := None |}
           Demo.created Demo.createdGame "white" "77aa01d2" "black" "0b6f7c1e" _ _
           Demo.whiteJoined _ created_lookup eq_refl eq_refl eq_refl
           ltac:(discriminate) ltac:(discriminate) ltac:(discriminate)
           whiteJoin_response blackJoin_response).
Defined.
